(** * unpic-qcloud: the imageMogr2 codec of [src/index.ts]

    A shallow embedding of the encode / decode / merge engine for the
    Tencent Cloud COS [imageMogr2] query dialect, followed by the
    properties of the design document that can be stated about it.

    The source comes in successive revisions.  The one embedded at top
    level is the revision with default options and pipeline segments, the
    one the design document describes; [Earlier] holds [extract],
    [generate] and [transform] of the revision before it, whose
    [isCosUrl], [buildImageMogr2] and [parseImageMogr2] are the same;
    [Initial] holds the first revision, with four properties and
    [stripProcessing].

    Conventions of the embedding
    - JavaScript strings are [string]s (sequences of bytes, UTF-8).  All
      the delimiters the code looks at ([/], [|], [%], [x], digits, ...)
      are ASCII, so splitting and prefix tests agree with the UTF-16 view;
      the white space that [Number] trims is recognised on its octets.
    - A JavaScript [number] is an exact decimal (see [number] below); the
      rounding to binary64 is not part of the model.
    - An optional property of an object is a [slot]: absent, present with
      the value [undefined], or present with a value.  The declared types
      of the properties have no [null].
    - A call that may throw returns an [outcome]; a function that cannot
      throw returns its value. *)

From Stdlib Require Import String Ascii List ZArith NArith Bool Lia.
From Stdlib Require Import DecimalString DecimalN.
From Stdlib Require DecimalPos DecimalFacts Decimal.
Import ListNotations.

Local Open Scope string_scope.
Local Open Scope list_scope.

(** ** Strings *)

Module Str.

(** [s.split(sep)] for a one-character separator. *)
Fixpoint split (sep : ascii) (s : string) : list string :=
  match s with
  | EmptyString => [EmptyString]
  | String c s' =>
      if Ascii.eqb c sep then EmptyString :: split sep s'
      else match split sep s' with
           | [] => [String c EmptyString]
           | hd :: tl => String c hd :: tl
           end
  end.

(** [parts.join(sep)] *)
Definition join (sep : string) (parts : list string) : string :=
  String.concat sep parts.

(** [s.startsWith(p)] *)
Definition startsWith (p s : string) : bool := String.prefix p s.

(** [s.slice(1)] *)
Definition slice1 (s : string) : string :=
  match s with
  | EmptyString => EmptyString
  | String _ r => r
  end.

(** The characters of [s] all satisfy [p]. *)
Fixpoint all (p : ascii -> bool) (s : string) : bool :=
  match s with
  | EmptyString => true
  | String c r => p c && all p r
  end.

(** Longest prefix of characters satisfying [p], and the remainder. *)
Fixpoint span (p : ascii -> bool) (s : string) : string * string :=
  match s with
  | EmptyString => (EmptyString, EmptyString)
  | String c r =>
      if p c then let '(a, b) := span p r in (String c a, b)
      else (EmptyString, s)
  end.

Definition isEmpty (s : string) : bool :=
  match s with EmptyString => true | _ => false end.

End Str.

(** ** Character classes *)

Definition in_range (lo hi c : ascii) : bool :=
  (N_of_ascii lo <=? N_of_ascii c)%N && (N_of_ascii c <=? N_of_ascii hi)%N.

Definition is_digit (c : ascii) : bool := in_range "0" "9" c.
Definition is_lower (c : ascii) : bool := in_range "a" "z" c.
Definition is_upper (c : ascii) : bool := in_range "A" "Z" c.

(** ** Regular expressions, matched by derivatives

    [test] decides membership of the whole string, which is what
    [RegExp.prototype.test] does for a pattern anchored with [^] and [$]. *)

Module Re.

Inductive regex : Type :=
| Void
| Eps
| Cls (p : ascii -> bool)
| Seq (r1 r2 : regex)
| Alt (r1 r2 : regex)
| Star (r : regex).

Fixpoint nullable (r : regex) : bool :=
  match r with
  | Void => false
  | Eps => true
  | Cls _ => false
  | Seq r1 r2 => nullable r1 && nullable r2
  | Alt r1 r2 => nullable r1 || nullable r2
  | Star _ => true
  end.

Definition seq (r1 r2 : regex) : regex :=
  match r1, r2 with
  | Void, _ => Void
  | _, Void => Void
  | Eps, _ => r2
  | _, _ => Seq r1 r2
  end.

Definition alt (r1 r2 : regex) : regex :=
  match r1, r2 with
  | Void, _ => r2
  | _, Void => r1
  | _, _ => Alt r1 r2
  end.

Fixpoint deriv (c : ascii) (r : regex) : regex :=
  match r with
  | Void => Void
  | Eps => Void
  | Cls p => if p c then Eps else Void
  | Seq r1 r2 =>
      if nullable r1 then alt (seq (deriv c r1) r2) (deriv c r2)
      else seq (deriv c r1) r2
  | Alt r1 r2 => alt (deriv c r1) (deriv c r2)
  | Star r1 => seq (deriv c r1) (Star r1)
  end.

Fixpoint test (r : regex) (s : string) : bool :=
  match s with
  | EmptyString => nullable r
  | String c s' => test (deriv c r) s'
  end.

Definition chr (c : ascii) : regex := Cls (Ascii.eqb c).

Fixpoint lit (s : string) : regex :=
  match s with
  | EmptyString => Eps
  | String c r => Seq (chr c) (lit r)
  end.

Definition plus (r : regex) : regex := Seq r (Star r).
Definition opt (r : regex) : regex := Alt r Eps.

End Re.

(** [/^[a-zA-Z0-9-]+-\d+\.(?:cos|pic)\.[a-z]+-[a-z0-9]+(?:-\d+)?\.myqcloud\.com$/] *)
Definition COS_HOSTNAME_RE : Re.regex :=
  let bucket c := is_lower c || is_upper c || is_digit c || Ascii.eqb c "-" in
  let alnum c := is_lower c || is_digit c in
  Re.Seq (Re.plus (Re.Cls bucket))
  (Re.Seq (Re.chr "-")
  (Re.Seq (Re.plus (Re.Cls is_digit))
  (Re.Seq (Re.chr ".")
  (Re.Seq (Re.Alt (Re.lit "cos") (Re.lit "pic"))
  (Re.Seq (Re.chr ".")
  (Re.Seq (Re.plus (Re.Cls is_lower))
  (Re.Seq (Re.chr "-")
  (Re.Seq (Re.plus (Re.Cls alnum))
  (Re.Seq (Re.opt (Re.Seq (Re.chr "-") (Re.plus (Re.Cls is_digit))))
          (Re.lit ".myqcloud.com")))))))))).

(** ** Exceptions *)

Inductive error : Type := TypeError | URIError.

Inductive outcome (A : Type) : Type :=
| Ret (a : A)
| Throw (e : error).
Arguments Ret {A} a.
Arguments Throw {A} e.

Definition bind {A B} (m : outcome A) (k : A -> outcome B) : outcome B :=
  match m with
  | Ret a => k a
  | Throw e => Throw e
  end.

Notation "x <- m ;; k" := (bind m (fun x => k))
  (at level 61, m at next level, right associativity).

(** ** [decodeURIComponent]

    Every [%XX] escape is turned into its octet; an escape that is not two
    hexadecimal digits, or a run of octets that is not well-formed UTF-8,
    throws [URIError].  The decoded code point is kept as its UTF-8 octets,
    which is the representation of strings used here. *)

Module Uri.

Definition hexval (c : ascii) : option N :=
  let n := N_of_ascii c in
  if is_digit c then Some (n - 48)%N
  else if in_range "a" "f" c then Some (n - 87)%N
  else if in_range "A" "F" c then Some (n - 55)%N
  else None.

Inductive item : Type :=
| Lit (c : ascii)
| Esc (b : N).

Fixpoint unescape (s : string) : option (list item) :=
  match s with
  | EmptyString => Some []
  | String c r =>
      if Ascii.eqb c "%" then
        match r with
        | String h1 (String h2 r') =>
            match hexval h1, hexval h2, unescape r' with
            | Some a, Some b, Some l => Some (Esc (16 * a + b)%N :: l)
            | _, _, _ => None
            end
        | _ => None
        end
      else
        match unescape r with
        | Some l => Some (Lit c :: l)
        | None => None
        end
  end.

Definition between (lo hi b : N) : bool := ((lo <=? b) && (b <=? hi))%N.
Definition cont (b : N) : bool := between 128 191 b.

(** Well-formed two, three and four octet sequences (Unicode table 3-7):
    no overlong form, no surrogate, nothing above U+10FFFF. *)
Definition valid2 (b0 b1 : N) : bool := between 194 223 b0 && cont b1.
Definition valid3 (b0 b1 b2 : N) : bool :=
  ((b0 =? 224)%N && between 160 191 b1 && cont b2)
  || (between 225 236 b0 && cont b1 && cont b2)
  || ((b0 =? 237)%N && between 128 159 b1 && cont b2)
  || (between 238 239 b0 && cont b1 && cont b2).
Definition valid4 (b0 b1 b2 b3 : N) : bool :=
  ((b0 =? 240)%N && between 144 191 b1 && cont b2 && cont b3)
  || (between 241 243 b0 && cont b1 && cont b2 && cont b3)
  || ((b0 =? 244)%N && between 128 143 b1 && cont b2 && cont b3).

Definition chars (bs : list N) (k : option string) : option string :=
  match k with
  | Some s => Some (fold_right (fun b acc => String (ascii_of_N b) acc) s bs)
  | None => None
  end.

Fixpoint octets (l : list item) : option string :=
  match l with
  | [] => Some EmptyString
  | Lit c :: r =>
      match octets r with
      | Some s => Some (String c s)
      | None => None
      end
  | Esc b0 :: r =>
      if (b0 <? 128)%N then chars [b0] (octets r)
      else if (b0 <? 224)%N then
        match r with
        | Esc b1 :: r1 =>
            if valid2 b0 b1 then chars [b0; b1] (octets r1) else None
        | _ => None
        end
      else if (b0 <? 240)%N then
        match r with
        | Esc b1 :: Esc b2 :: r2 =>
            if valid3 b0 b1 b2 then chars [b0; b1; b2] (octets r2) else None
        | _ => None
        end
      else
        match r with
        | Esc b1 :: Esc b2 :: Esc b3 :: r3 =>
            if valid4 b0 b1 b2 b3 then chars [b0; b1; b2; b3] (octets r3)
            else None
        | _ => None
        end
  end.

Definition decodeURIComponent (s : string) : outcome string :=
  match unescape s with
  | Some l =>
      match octets l with
      | Some d => Ret d
      | None => Throw URIError
      end
  | None => Throw URIError
  end.

End Uri.

(** ** URLs

    What the code reads of a parsed [URL] object.  [href] is what
    [toString()] returns. *)

Record URL : Type := mkURL {
  href : string;
  origin : string;
  hostname : string;
  pathname : string;
  search : string
}.

(** The [string | URL] argument of the public functions. *)
Inductive UrlLike : Type :=
| UStr (s : string)
| UObj (u : URL).

Definition toString (src : UrlLike) : string :=
  match src with
  | UStr s => s
  | UObj u => href u
  end.

(** ** Numbers

    A [number] is [NaN], an infinity, an integer, or a decimal fraction
    [m / 10^k] in lowest form ([m] is not a multiple of ten).  Every numeric
    literal denotes exactly one such value, so [Number] and the conversion
    to a string are exact here; values outside the safe-integer range of
    binary64 are where the real conversions start to round, and beyond
    its largest value to overflow. *)

Inductive number : Type :=
| NaN
| Infinity (negative : bool)
| Int (z : Z)
| Frac (m : Z) (k : positive).

Definition isNaN (n : number) : bool :=
  match n with NaN => true | _ => false end.

Module Num.

(** Decimal digits of a natural number, ["0"] for zero. *)
Definition digits (n : N) : string := NilZero.string_of_uint (N.to_uint n).

Definition digitval (c : ascii) : N := (N_of_ascii c - 48)%N.

Definition hexdigitval (c : ascii) : N :=
  match Uri.hexval c with Some n => n | None => 0%N end.

Fixpoint value (base : N) (dv : ascii -> N) (acc : N) (s : string) : N :=
  match s with
  | EmptyString => acc
  | String c r => value base dv (base * acc + dv c)%N r
  end.

Definition decimal (s : string) : N := value 10 digitval 0 s.

Fixpoint zeros (n : nat) : string :=
  match n with
  | O => EmptyString
  | S n' => String "0" (zeros n')
  end.

(** Drops the zeros that end [s]. *)
Fixpoint stripZeros (s : string) : string :=
  match s with
  | EmptyString => EmptyString
  | String c r =>
      let r' := stripZeros r in
      if Ascii.eqb c "0" && Str.isEmpty r' then EmptyString else String c r'
  end.

(** Exponential notation: [ds] are the significant digits of the value
    and [n] the position of its decimal point. *)
Definition expForm (ds : string) (n : Z) : string :=
  let e := (n - 1)%Z in
  let sign := if (e <? 0)%Z then "-" else "+" in
  match ds with
  | EmptyString => EmptyString
  | String d EmptyString => String d ("e" ++ sign ++ digits (Z.abs_N e))
  | String d r => String d ("." ++ r ++ "e" ++ sign ++ digits (Z.abs_N e))
  end.

(** [Number::toString] of a positive integer. *)
Definition intToString (n : N) : string :=
  let ds := digits n in
  if (String.length ds <=? 21)%nat then ds
  else expForm (stripZeros ds) (Z.of_nat (String.length ds)).

(** [Number::toString] of the positive fraction [m / 10^k]. *)
Definition fracToString (m : N) (k : positive) : string :=
  let ds := digits m in
  let len := String.length ds in
  let n := (Z.of_nat len - Z.pos k)%Z in
  if ((0 <? n) && (n <=? 21))%Z then
    String.substring 0 (Z.to_nat n) ds ++ "."
      ++ String.substring (Z.to_nat n) (len - Z.to_nat n) ds
  else if ((-6 <? n) && (n <=? 0))%Z then
    "0." ++ zeros (Z.to_nat (- n)) ++ ds
  else expForm ds n.

Definition signed (z : Z) (body : N -> string) : string :=
  if (z <? 0)%Z then "-" ++ body (Z.abs_N z) else body (Z.abs_N z).

(** The string a template literal substitutes for a number. *)
Definition ToString (x : number) : string :=
  match x with
  | NaN => "NaN"
  | Infinity true => "-Infinity"
  | Infinity false => "Infinity"
  | Int z => signed z intToString
  | Frac m k => signed m (fun a => fracToString a k)
  end.

(** White space and line terminators of one octet: tab, line feed,
    vertical tab, form feed, carriage return and space. *)
Definition is_ws (c : ascii) : bool :=
  match N_of_ascii c with
  | 9%N | 10%N | 11%N | 12%N | 13%N | 32%N => true
  | _ => false
  end.

(** White space of two octets: U+00A0. *)
Definition is_ws2 (c1 c2 : ascii) : bool :=
  ((N_of_ascii c1 =? 194) && (N_of_ascii c2 =? 160))%N.

(** White space and line terminators of three octets: U+1680, U+2000 to
    U+200A, U+2028, U+2029, U+202F, U+205F, U+3000 and U+FEFF. *)
Definition is_ws3 (c1 c2 c3 : ascii) : bool :=
  let a := N_of_ascii c1 in
  let b := N_of_ascii c2 in
  let c := N_of_ascii c3 in
  (((a =? 225) && (b =? 154) && (c =? 128))
   || ((a =? 226) && (b =? 128)
       && (((128 <=? c) && (c <=? 138)) || (c =? 168) || (c =? 169)
           || (c =? 175)))
   || ((a =? 226) && (b =? 129) && (c =? 159))
   || ((a =? 227) && (b =? 128) && (c =? 128))
   || ((a =? 239) && (b =? 187) && (c =? 191)))%N.

(** Drops the white space and line terminators that start [s]. *)
Fixpoint trimStart (s : string) : string :=
  match s with
  | EmptyString => EmptyString
  | String c1 r1 =>
      if is_ws c1 then trimStart r1
      else
        match r1 with
        | EmptyString => s
        | String c2 r2 =>
            if is_ws2 c1 c2 then trimStart r2
            else
              match r2 with
              | EmptyString => s
              | String c3 r3 => if is_ws3 c1 c2 c3 then trimStart r3 else s
              end
        end
  end.

(** [s] is made of white space and line terminators only. *)
Definition blank (s : string) : bool := Str.isEmpty (trimStart s).

(** Drops the white space and line terminators that end [s]. *)
Fixpoint trimEnd (s : string) : string :=
  match s with
  | EmptyString => EmptyString
  | String c r => if blank s then EmptyString else String c (trimEnd r)
  end.

(** [m / 10^k] brought to lowest form. *)
Fixpoint reduce (m : Z) (k : nat) : number :=
  match k with
  | O => Int m
  | S k' =>
      if (m mod 10 =? 0)%Z then reduce (m / 10) k'
      else Frac m (Pos.of_succ_nat k')
  end.

Definition scaled (m e : Z) : number :=
  if (0 <=? e)%Z then Int (m * 10 ^ e) else reduce m (Z.to_nat (- e)).

(** [0x], [0o] and [0b] literals; [None] when [s] is not one. *)
Definition radixLiteral (s : string) : option number :=
  match s with
  | String c0 (String p r) =>
      let lit (base : N) (ok : ascii -> bool) :=
        if negb (Str.isEmpty r) && Str.all ok r
        then Some (Int (Z.of_N (value base hexdigitval 0 r)))
        else None in
      if negb (Ascii.eqb c0 "0") then None
      else if Ascii.eqb p "x" || Ascii.eqb p "X" then
        lit 16%N (fun c => match Uri.hexval c with Some _ => true | None => false end)
      else if Ascii.eqb p "o" || Ascii.eqb p "O" then lit 8%N (in_range "0" "7")
      else if Ascii.eqb p "b" || Ascii.eqb p "B" then lit 2%N (in_range "0" "1")
      else None
  | _ => None
  end.

(** The exponent part; [None] when what follows the digits is not one. *)
Definition exponentPart (s : string) : option Z :=
  match s with
  | EmptyString => Some 0%Z
  | String c r =>
      if Ascii.eqb c "e" || Ascii.eqb c "E" then
        let '(sgn, ds) :=
          match r with
          | String s1 r' =>
              if Ascii.eqb s1 "+" then (1%Z, r')
              else if Ascii.eqb s1 "-" then ((-1)%Z, r')
              else (1%Z, r)
          | EmptyString => (1%Z, r)
          end in
        if negb (Str.isEmpty ds) && Str.all is_digit ds
        then Some (sgn * Z.of_N (decimal ds))%Z
        else None
      else None
  end.

Definition unsignedDecimal (neg : bool) (s : string) : number :=
  if String.eqb s "Infinity" then Infinity neg
  else
    let '(ip, r1) := Str.span is_digit s in
    let '(fp, r2) :=
      match r1 with
      | String c r => if Ascii.eqb c "." then Str.span is_digit r
                      else (EmptyString, r1)
      | EmptyString => (EmptyString, r1)
      end in
    if Str.isEmpty ip && Str.isEmpty fp then NaN
    else
      match exponentPart r2 with
      | None => NaN
      | Some e =>
          let m := Z.of_N (decimal (ip ++ fp)) in
          scaled (if neg then - m else m)%Z (e - Z.of_nat (String.length fp))
      end.

(** [Number(s)] for a string [s]. *)
Definition Number (s : string) : number :=
  let t := trimEnd (trimStart s) in
  if Str.isEmpty t then Int 0
  else
    match radixLiteral t with
    | Some n => n
    | None =>
        match t with
        | String c r =>
            if Ascii.eqb c "+" then unsignedDecimal false r
            else if Ascii.eqb c "-" then unsignedDecimal true r
            else unsignedDecimal false t
        | EmptyString => Int 0
        end
    end.

End Num.

(** ** Operation sets *)

(** An optional property: missing, present but [undefined], or set. *)
Inductive slot (A : Type) : Type :=
| Absent
| Undefined
| Value (a : A).
Arguments Absent {A}.
Arguments Undefined {A}.
Arguments Value {A} a.

(** What reading the property gives when it is not [undefined]. *)
Definition defined {A} (s : slot A) : option A :=
  match s with
  | Value a => Some a
  | _ => None
  end.

(** One property of [{ ...lo, ...hi }]: an own property of [hi] wins,
    whatever its value. *)
Definition over {A} (lo hi : slot A) : slot A :=
  match hi with
  | Absent => lo
  | _ => hi
  end.

(** [if (v !== undefined) cur = v] *)
Definition assign {A} (cur v : slot A) : slot A :=
  match v with
  | Value a => Value a
  | _ => cur
  end.

Inductive QCloudCosThumbnailMode : Type :=
| fit | cover | force | shrinkOnly | enlargeOnly.

Inductive FlipDirection : Type := vertical | horizontal.

(** [quality?: number | string] *)
Inductive Quality : Type :=
| QNumber (n : number)
| QString (s : string).

Record QCloudCosOperations : Type := mkOperations {
  width : slot number;
  height : slot number;
  format : slot string;
  quality : slot Quality;
  thumbnailMode : slot QCloudCosThumbnailMode;
  autoOrient : slot bool;
  rotate : slot number;
  flip : slot FlipDirection;
  iradius : slot number;
  rradius : slot number;
  rquality : slot number;
  lquality : slot number;
  ignoreError : slot bool
}.

(** [{}] *)
Definition noOperations : QCloudCosOperations :=
  mkOperations Absent Absent Absent Absent Absent Absent Absent
               Absent Absent Absent Absent Absent Absent.

Definition set_width v o := mkOperations v (height o) (format o) (quality o) (thumbnailMode o) (autoOrient o) (rotate o) (flip o) (iradius o) (rradius o) (rquality o) (lquality o) (ignoreError o).
Definition set_height v o := mkOperations (width o) v (format o) (quality o) (thumbnailMode o) (autoOrient o) (rotate o) (flip o) (iradius o) (rradius o) (rquality o) (lquality o) (ignoreError o).
Definition set_format v o := mkOperations (width o) (height o) v (quality o) (thumbnailMode o) (autoOrient o) (rotate o) (flip o) (iradius o) (rradius o) (rquality o) (lquality o) (ignoreError o).
Definition set_quality v o := mkOperations (width o) (height o) (format o) v (thumbnailMode o) (autoOrient o) (rotate o) (flip o) (iradius o) (rradius o) (rquality o) (lquality o) (ignoreError o).
Definition set_thumbnailMode v o := mkOperations (width o) (height o) (format o) (quality o) v (autoOrient o) (rotate o) (flip o) (iradius o) (rradius o) (rquality o) (lquality o) (ignoreError o).
Definition set_autoOrient v o := mkOperations (width o) (height o) (format o) (quality o) (thumbnailMode o) v (rotate o) (flip o) (iradius o) (rradius o) (rquality o) (lquality o) (ignoreError o).
Definition set_rotate v o := mkOperations (width o) (height o) (format o) (quality o) (thumbnailMode o) (autoOrient o) v (flip o) (iradius o) (rradius o) (rquality o) (lquality o) (ignoreError o).
Definition set_flip v o := mkOperations (width o) (height o) (format o) (quality o) (thumbnailMode o) (autoOrient o) (rotate o) v (iradius o) (rradius o) (rquality o) (lquality o) (ignoreError o).
Definition set_iradius v o := mkOperations (width o) (height o) (format o) (quality o) (thumbnailMode o) (autoOrient o) (rotate o) (flip o) v (rradius o) (rquality o) (lquality o) (ignoreError o).
Definition set_rradius v o := mkOperations (width o) (height o) (format o) (quality o) (thumbnailMode o) (autoOrient o) (rotate o) (flip o) (iradius o) v (rquality o) (lquality o) (ignoreError o).
Definition set_rquality v o := mkOperations (width o) (height o) (format o) (quality o) (thumbnailMode o) (autoOrient o) (rotate o) (flip o) (iradius o) (rradius o) v (lquality o) (ignoreError o).
Definition set_lquality v o := mkOperations (width o) (height o) (format o) (quality o) (thumbnailMode o) (autoOrient o) (rotate o) (flip o) (iradius o) (rradius o) (rquality o) v (ignoreError o).
Definition set_ignoreError v o := mkOperations (width o) (height o) (format o) (quality o) (thumbnailMode o) (autoOrient o) (rotate o) (flip o) (iradius o) (rradius o) (rquality o) (lquality o) v.

(** [{ ...a, ...b }] for two operation sets. *)
Definition spread (a b : QCloudCosOperations) : QCloudCosOperations :=
  mkOperations
    (over (width a) (width b)) (over (height a) (height b))
    (over (format a) (format b)) (over (quality a) (quality b))
    (over (thumbnailMode a) (thumbnailMode b))
    (over (autoOrient a) (autoOrient b)) (over (rotate a) (rotate b))
    (over (flip a) (flip b)) (over (iradius a) (iradius b))
    (over (rradius a) (rradius b)) (over (rquality a) (rquality b))
    (over (lquality a) (lquality b)) (over (ignoreError a) (ignoreError b)).

(** The defaults of [generate] and [transform]. *)
Module Options.
Record QCloudCosOptions : Type := mk {
  format : slot string;
  thumbnailMode : slot QCloudCosThumbnailMode;
  quality : slot Quality;
  rquality : slot number;
  lquality : slot number;
  autoOrient : slot bool;
  ignoreError : slot bool
}.
End Options.
Definition QCloudCosOptions : Type := Options.QCloudCosOptions.

(** The own properties of the optional argument [options], as an operation
    set: [{ ...options }], which is [{}] when [options] is [undefined]. *)
Definition ofOptions (options : option QCloudCosOptions) : QCloudCosOperations :=
  match options with
  | None => noOperations
  | Some d =>
      mkOperations Absent Absent (Options.format d) (Options.quality d)
        (Options.thumbnailMode d) (Options.autoOrient d) Absent Absent
        Absent Absent (Options.rquality d) (Options.lquality d)
        (Options.ignoreError d)
  end.

(** The names of the properties, and reading one by name. *)
Inductive key : Type :=
| Kwidth | Kheight | Kformat | Kquality | KthumbnailMode | KautoOrient
| Krotate | Kflip | Kiradius | Krradius | Krquality | Klquality | KignoreError.

Inductive fieldValue : Type :=
| VNumber (n : number)
| VString (s : string)
| VQuality (q : Quality)
| VMode (m : QCloudCosThumbnailMode)
| VFlip (f : FlipDirection)
| VBoolean (b : bool).

Definition read (k : key) (o : QCloudCosOperations) : option fieldValue :=
  match k with
  | Kwidth => option_map VNumber (defined (width o))
  | Kheight => option_map VNumber (defined (height o))
  | Kformat => option_map VString (defined (format o))
  | Kquality => option_map VQuality (defined (quality o))
  | KthumbnailMode => option_map VMode (defined (thumbnailMode o))
  | KautoOrient => option_map VBoolean (defined (autoOrient o))
  | Krotate => option_map VNumber (defined (rotate o))
  | Kflip => option_map VFlip (defined (flip o))
  | Kiradius => option_map VNumber (defined (iradius o))
  | Krradius => option_map VNumber (defined (rradius o))
  | Krquality => option_map VNumber (defined (rquality o))
  | Klquality => option_map VNumber (defined (lquality o))
  | KignoreError => option_map VBoolean (defined (ignoreError o))
  end.

(** ** The serializer: [buildImageMogr2] *)

Definition flipName (f : FlipDirection) : string :=
  match f with vertical => "vertical" | horizontal => "horizontal" end.

Definition qualityText (q : Quality) : string :=
  match q with
  | QNumber n => Num.ToString n
  | QString s => s
  end.

Definition isSome {A} (o : option A) : bool :=
  match o with Some _ => true | None => false end.

(** What each block of [buildImageMogr2] pushes on [parts]. *)
Module Push.

Definition resize (ops : QCloudCosOperations) : list string :=
  let hasWidth := isSome (defined (width ops)) in
  let hasHeight := isSome (defined (height ops)) in
  if hasWidth || hasHeight then
    let w := match defined (width ops) with
             | Some n => Num.ToString n | None => EmptyString end in
    let h := match defined (height ops) with
             | Some n => Num.ToString n | None => EmptyString end in
    let mode := match defined (thumbnailMode ops) with
                | Some m => m | None => fit end in
    match mode with
    | cover => [("crop/" ++ w ++ "x" ++ h)%string]
    | force => [("thumbnail/" ++ w ++ "x" ++ h ++ "!")%string]
    | shrinkOnly => [("thumbnail/" ++ w ++ "x" ++ h ++ ">")%string]
    | enlargeOnly => [("thumbnail/" ++ w ++ "x" ++ h ++ "<")%string]
    | fit => [("thumbnail/" ++ w ++ "x" ++ h)%string]
    end
  else [].

Definition numeric (name : string) (v : slot number) : list string :=
  match defined v with
  | Some n => [(name ++ "/" ++ Num.ToString n)%string]
  | None => []
  end.

Definition autoOrient (ops : QCloudCosOperations) : list string :=
  match defined (autoOrient ops) with
  | Some true => ["auto-orient"]
  | _ => []
  end.

(** [if (ops.flip)]: both directions are non-empty strings. *)
Definition flip (ops : QCloudCosOperations) : list string :=
  match defined (flip ops) with
  | Some f => [("flip/" ++ flipName f)%string]
  | None => []
  end.

(** [if (ops.format)]: a string is truthy when it is not empty. *)
Definition format (ops : QCloudCosOperations) : list string :=
  match defined (format ops) with
  | Some f => if Str.isEmpty f then [] else [("format/" ++ f)%string]
  | None => []
  end.

Definition quality (ops : QCloudCosOperations) : list string :=
  match defined (quality ops) with
  | Some q => [("quality/" ++ qualityText q)%string]
  | None => []
  end.

Definition ignoreError (ops : QCloudCosOperations) : list string :=
  match defined (ignoreError ops) with
  | Some true => ["ignore-error/1"]
  | _ => []
  end.

End Push.

(** The array [parts] when the function reaches its last test. *)
Definition buildParts (ops : QCloudCosOperations) : list string :=
  Push.resize ops
  ++ Push.numeric "iradius" (iradius ops)
  ++ Push.numeric "rradius" (rradius ops)
  ++ Push.autoOrient ops
  ++ Push.numeric "rotate" (rotate ops)
  ++ Push.flip ops
  ++ Push.format ops
  ++ Push.quality ops
  ++ Push.numeric "rquality" (rquality ops)
  ++ Push.numeric "lquality" (lquality ops)
  ++ Push.ignoreError ops.

Definition buildImageMogr2 (ops : QCloudCosOperations) : string :=
  let parts := buildParts ops in
  if (List.length parts =? 0)%nat then EmptyString
  else "imageMogr2/" ++ Str.join "/" parts.

(** ** The parser: [parseImageMogr2] *)

Module Parse.

(** [segment.replace(re, empty)], where [re] asks for [imageMogr2] at the
    start of the segment and takes one [/] after it when there is one. *)
Definition stripPrefix (segment : string) : string :=
  if Str.startsWith "imageMogr2" segment then
    match String.substring 10 (String.length segment - 10) segment with
    | String c r => if Ascii.eqb c "/" then r else String c r
    | EmptyString => EmptyString
    end
  else segment.

(** [s.match(re)] for the pattern of the source that asks, from the start
    of [s], for a group of digits, an [x] and a second group of digits:
    the two groups and what follows the match.
    Both groups are greedy and cannot give a digit back to what follows
    them, so the match is found by scanning once. *)
Definition dims (s : string) : option (string * string * string) :=
  let '(w, r) := Str.span is_digit s in
  match r with
  | String c r' =>
      if Ascii.eqb c "x" then
        let '(h, rest) := Str.span is_digit r' in Some (w, h, rest)
      else None
  | EmptyString => None
  end.

(** The same pattern followed by the modifier character [m] and the end
    of the input. *)
Definition dimsEnding (m : string) (s : string) : option (string * string) :=
  match dims s with
  | Some (w, h, rest) => if String.eqb rest m then Some (w, h) else None
  | None => None
  end.

(** [if (m[1]) ops.width = Number(m[1]); if (m[2]) ops.height = Number(m[2]);] *)
Definition setDims (m : string * string) (ops : QCloudCosOperations)
  : QCloudCosOperations :=
  let '(w, h) := m in
  let ops1 := if Str.isEmpty w then ops
              else set_width (Value (Num.Number w)) ops in
  if Str.isEmpty h then ops1 else set_height (Value (Num.Number h)) ops1.

Definition thumbnail (next : string) (ops : QCloudCosOperations)
  : QCloudCosOperations :=
  let forceMatch := dimsEnding "!" next in
  let shrinkMatch := dimsEnding ">" next in
  let enlargeMatch := dimsEnding "<" next in
  let fitMatch := dims next in
  match forceMatch, shrinkMatch, enlargeMatch, fitMatch with
  | Some m, _, _, _ => set_thumbnailMode (Value force) (setDims m ops)
  | None, Some m, _, _ => set_thumbnailMode (Value shrinkOnly) (setDims m ops)
  | None, None, Some m, _ =>
      set_thumbnailMode (Value enlargeOnly) (setDims m ops)
  | None, None, None, Some (w, h, _) => setDims (w, h) ops
  | None, None, None, None => ops
  end.

Definition crop (next : string) (ops : QCloudCosOperations)
  : QCloudCosOperations :=
  match dims next with
  | Some (w, h, _) => set_thumbnailMode (Value cover) (setDims (w, h) ops)
  | None => ops
  end.

(** [const n = Number(next); if (!isNaN(n)) ops.f = n;] *)
Definition numeric (set : slot number -> QCloudCosOperations -> QCloudCosOperations)
  (next : string) (ops : QCloudCosOperations) : QCloudCosOperations :=
  let n := Num.Number next in
  if negb (isNaN n) then set (Value n) ops else ops.

Definition flip (next : string) (ops : QCloudCosOperations)
  : QCloudCosOperations :=
  if String.eqb next "vertical" then set_flip (Value vertical) ops
  else if String.eqb next "horizontal" then set_flip (Value horizontal) ops
  else ops.

Definition quality (next : string) (ops : QCloudCosOperations)
  : QCloudCosOperations :=
  let num := Num.Number next in
  set_quality (Value (if isNaN num then QString next else QNumber num)) ops.

(** One turn of the loop at [token = parts[i]], [next = parts[i + 1]]
    ([None] when past the end): the operations after it, and whether the
    branch taken ran its own [i++]. *)
Definition step (token : string) (next : option string)
  (ops : QCloudCosOperations) : QCloudCosOperations * bool :=
  let tokenIs kw := String.eqb token kw in
  let hasNext := isSome next in
  let nx := match next with Some s => s | None => EmptyString end in
  if tokenIs "thumbnail" && hasNext then (thumbnail nx ops, true)
  else if tokenIs "crop" && hasNext then (crop nx ops, true)
  else if tokenIs "gravity" && hasNext then (ops, true)
  else if tokenIs "iradius" && hasNext then (numeric set_iradius nx ops, true)
  else if tokenIs "rradius" && hasNext then (numeric set_rradius nx ops, true)
  else if tokenIs "auto-orient" then (set_autoOrient (Value true) ops, false)
  else if tokenIs "rotate" && hasNext then (numeric set_rotate nx ops, true)
  else if tokenIs "flip" && hasNext then (flip nx ops, true)
  else if tokenIs "format" && hasNext then (set_format (Value nx) ops, true)
  else if tokenIs "quality" && hasNext then (quality nx ops, true)
  else if tokenIs "rquality" && hasNext then (numeric set_rquality nx ops, true)
  else if tokenIs "lquality" && hasNext then (numeric set_lquality nx ops, true)
  else if tokenIs "ignore-error" then
    (set_ignoreError (Value true) ops,
     match next with Some s => String.eqb s "1" | None => false end)
  else (ops, false).

(** The [for] loop over [parts], from index [i] on: [parts] is what is
    left of the array from [i], and [skip] says that the turn before
    incremented [i] itself, so that this element is stepped over. *)
Fixpoint scan (parts : list string) (skip : bool) (ops : QCloudCosOperations)
  : QCloudCosOperations :=
  match parts with
  | [] => ops
  | token :: rest =>
      if skip then scan rest false ops
      else let '(ops', consumed) := step token (List.hd_error rest) ops in
           scan rest consumed ops'
  end.

End Parse.

Definition parseImageMogr2 (segment : string) : QCloudCosOperations :=
  let stripped := Parse.stripPrefix segment in
  if Str.isEmpty stripped then noOperations
  else Parse.scan (Str.split "/" stripped) false noOperations.

(** ** The result of [extract] *)

Module Extracted.
Record t : Type := mk {
  src : string;
  operations : QCloudCosOperations;
  options : QCloudCosOptions;
  pipelineSegments : list string
}.
End Extracted.

(** [options: {}] *)
Definition noOptions : QCloudCosOptions :=
  Options.mk Absent Absent Absent Absent Absent Absent Absent.

(** ** Recognising, extracting, generating, transforming

    [new_URL] stands for the platform's [URL] constructor; [None] is the
    [TypeError] it throws on a string that is not a URL. *)

Section Codec.

Variable new_URL : string -> option URL.

(** [typeof url === "string" ? new URL(url) : url] *)
Definition asURL (url : UrlLike) : option URL :=
  match url with
  | UStr s => new_URL s
  | UObj u => Some u
  end.

Definition isCosUrl (url : UrlLike) : bool :=
  match asURL url with
  | Some u => Re.test COS_HOSTNAME_RE (hostname u)
  | None => false
  end.

(** The body of the loop of [extract] over the segments. *)
Definition classify (acc : QCloudCosOperations * list string * bool)
  (seg : string) : QCloudCosOperations * list string * bool :=
  let '(operations, pipelineSegments, hasImageMogr2) := acc in
  if Str.startsWith "imageMogr2" seg then
    let parsed := parseImageMogr2 seg in
    (spread operations parsed, pipelineSegments, true)
  else (operations, pipelineSegments ++ [seg], hasImageMogr2).

Definition extract (url : UrlLike) : outcome (option Extracted.t) :=
  match asURL url with
  | None => Ret None
  | Some u =>
      if negb (isCosUrl (UObj u)) then Ret None
      else
        rawQuery <- Uri.decodeURIComponent (Str.slice1 (search u)) ;;
        if Str.isEmpty rawQuery then Ret None
        else
          let segments := Str.split "|" rawQuery in
          let '(operations, pipelineSegments, hasImageMogr2) :=
            fold_left classify segments (noOperations, [], false) in
          if negb hasImageMogr2 && (List.length pipelineSegments =? 0)%nat
          then Ret None
          else
            Ret (Some (Extracted.mk (origin u ++ pathname u)%string
                         operations noOptions pipelineSegments))
  end.

Definition generate (src : UrlLike) (operations : QCloudCosOperations)
  (options : option QCloudCosOptions) (pipelineSegments : option (list string))
  : string :=
  match asURL src with
  | None => toString src
  | Some u =>
      if negb (isCosUrl (UObj u)) then toString src
      else
        let baseUrl := (origin u ++ pathname u)%string in
        let effectiveOps := spread (ofOptions options) operations in
        let processing := buildImageMogr2 effectiveOps in
        let allSegments :=
          (if Str.isEmpty processing then [] else [processing])
          ++ match pipelineSegments with
             | Some (s :: l) => s :: l
             | _ => []
             end in
        if (List.length allSegments =? 0)%nat then baseUrl
        else (baseUrl ++ "?" ++ Str.join "|" allSegments)%string
  end.

(** The thirteen guarded assignments of [transform]. *)
Definition applyDefined (merged operations : QCloudCosOperations)
  : QCloudCosOperations :=
  mkOperations
    (assign (width merged) (width operations))
    (assign (height merged) (height operations))
    (assign (format merged) (format operations))
    (assign (quality merged) (quality operations))
    (assign (thumbnailMode merged) (thumbnailMode operations))
    (assign (autoOrient merged) (autoOrient operations))
    (assign (rotate merged) (rotate operations))
    (assign (flip merged) (flip operations))
    (assign (iradius merged) (iradius operations))
    (assign (rradius merged) (rradius operations))
    (assign (rquality merged) (rquality operations))
    (assign (lquality merged) (lquality operations))
    (assign (ignoreError merged) (ignoreError operations)).

(** The operation set [transform] hands to [generate] when [extract]
    found [existing] on the URL. *)
Definition mergedOperations (options : option QCloudCosOptions)
  (existing operations : QCloudCosOperations) : QCloudCosOperations :=
  applyDefined (spread (ofOptions options) existing) operations.

Definition transform (src : UrlLike) (operations : QCloudCosOperations)
  (options : option QCloudCosOptions) : outcome string :=
  base <- extract src ;;
  match base with
  | None => Ret (generate src operations options None)
  | Some b =>
      let merged :=
        mergedOperations options (Extracted.operations b) operations in
      Ret (generate (UStr (Extracted.src b)) merged None
             (Some (Extracted.pipelineSegments b)))
  end.

End Codec.

(** ** The revision of [src/index.ts] without defaults and pipeline

    [isCosUrl], [buildImageMogr2] and [parseImageMogr2] are the same in it;
    [extract] reads the first segment only, [generate] and [transform] take
    no options and carry no other segments. *)

Module Earlier.

Record Extracted : Type := mkExtracted {
  src : string;
  operations : QCloudCosOperations
}.

Section Codec.

Variable new_URL : string -> option URL.

Definition extract (url : UrlLike) : outcome (option Extracted) :=
  match asURL new_URL url with
  | None => Ret None
  | Some u =>
      if negb (isCosUrl new_URL (UObj u)) then Ret None
      else
        rawQuery <- Uri.decodeURIComponent (Str.slice1 (search u)) ;;
        if negb (Str.startsWith "imageMogr2" rawQuery) then Ret None
        else
          let firstSegment :=
            match Str.split "|" rawQuery with
            | s :: _ => s
            | [] => EmptyString
            end in
          let operations := parseImageMogr2 firstSegment in
          Ret (Some (mkExtracted (origin u ++ pathname u)%string operations))
  end.

Definition generate (src : UrlLike) (operations : QCloudCosOperations)
  : string :=
  match asURL new_URL src with
  | None => toString src
  | Some u =>
      if negb (isCosUrl new_URL (UObj u)) then toString src
      else
        let baseUrl := (origin u ++ pathname u)%string in
        let processing := buildImageMogr2 operations in
        if Str.isEmpty processing then baseUrl
        else (baseUrl ++ "?" ++ processing)%string
  end.

Definition transform (src : UrlLike) (operations : QCloudCosOperations)
  : outcome string :=
  base <- extract src ;;
  match base with
  | None => Ret (generate src operations)
  | Some b =>
      let merged :=
        applyDefined (spread noOperations (Earlier.operations b)) operations in
      Ret (generate (UStr (Earlier.src b)) merged)
  end.

End Codec.

End Earlier.

(** ** The first revision

    Four properties, one resize token, and [stripProcessing]; [isCosUrl]
    is the same. *)

Module Initial.

Record QCloudCosOperations : Type := mkOperations {
  width : slot number;
  height : slot number;
  format : slot string;
  quality : slot number
}.

(** [{}] *)
Definition noOperations : QCloudCosOperations :=
  mkOperations Absent Absent Absent Absent.

Definition set_width v o := mkOperations v (height o) (format o) (quality o).
Definition set_height v o := mkOperations (width o) v (format o) (quality o).
Definition set_format v o := mkOperations (width o) (height o) v (quality o).
Definition set_quality v o := mkOperations (width o) (height o) (format o) v.

(** An optional number as a condition: [undefined], [NaN] and zero are
    falsy. *)
Definition truthy (v : slot number) : bool :=
  match defined v with
  | Some NaN => false
  | Some (Infinity _) => true
  | Some (Int z) => negb (z =? 0)%Z
  | Some (Frac m _) => negb (m =? 0)%Z
  | None => false
  end.

(** [v ?? ""] inside a template literal. *)
Definition orEmpty (v : slot number) : string :=
  match defined v with
  | Some n => Num.ToString n
  | None => EmptyString
  end.

(** The array [parts] when the function reaches its last test: the
    resize token under [if (ops.width || ops.height)], the format under
    [if (ops.format)], the quality when it is not [undefined]. *)
Definition buildParts (ops : QCloudCosOperations) : list string :=
  (if truthy (width ops) || truthy (height ops)
   then [("thumbnail/" ++ orEmpty (width ops) ++ "x"
          ++ orEmpty (height ops))%string]
   else [])
  ++ match defined (format ops) with
     | Some f => if Str.isEmpty f then [] else [("format/" ++ f)%string]
     | None => []
     end
  ++ match defined (quality ops) with
     | Some n => [("quality/" ++ Num.ToString n)%string]
     | None => []
     end.

Definition buildImageMogr2 (ops : QCloudCosOperations) : string :=
  let parts := buildParts ops in
  if (List.length parts =? 0)%nat then EmptyString
  else "imageMogr2/" ++ Str.join "/" parts.

(** [if (m[1]) ops.width = Number(m[1]); if (m[2]) ops.height = Number(m[2]);] *)
Definition setDims (m : string * string) (ops : QCloudCosOperations)
  : QCloudCosOperations :=
  let '(w, h) := m in
  let ops1 := if Str.isEmpty w then ops
              else set_width (Value (Num.Number w)) ops in
  if Str.isEmpty h then ops1 else set_height (Value (Num.Number h)) ops1.

(** One turn of the loop.  The pattern of this revision makes each group
    of digits optional instead of possibly empty; a group that did not
    take part and an empty group are both falsy, so [Parse.dims] gives its
    matches too. *)
Definition step (token : string) (next : option string)
  (ops : QCloudCosOperations) : QCloudCosOperations * bool :=
  let tokenIs kw := String.eqb token kw in
  let hasNext := isSome next in
  let nx := match next with Some s => s | None => EmptyString end in
  if tokenIs "thumbnail" && hasNext then
    (match Parse.dims nx with
     | Some (w, h, _) => setDims (w, h) ops
     | None => ops
     end, true)
  else if tokenIs "format" && hasNext then (set_format (Value nx) ops, true)
  else if (tokenIs "quality" || tokenIs "rquality") && hasNext then
    (let q := Num.Number nx in
     if negb (isNaN q) then set_quality (Value q) ops else ops, true)
  else (ops, false).

Fixpoint scan (parts : list string) (skip : bool) (ops : QCloudCosOperations)
  : QCloudCosOperations :=
  match parts with
  | [] => ops
  | token :: rest =>
      if skip then scan rest false ops
      else let '(ops', consumed) := step token (List.hd_error rest) ops in
           scan rest consumed ops'
  end.

Definition parseImageMogr2 (segment : string) : QCloudCosOperations :=
  let stripped := Parse.stripPrefix segment in
  if Str.isEmpty stripped then noOperations
  else scan (Str.split "/" stripped) false noOperations.

Record Extracted : Type := mkExtracted {
  src : string;
  operations : QCloudCosOperations
}.

Section Codec.

Variable new_URL : string -> option URL.

(** [url.toString()] when the decoded query does not start with the
    keyword, the origin and the path otherwise. *)
Definition stripProcessing (url : URL) : outcome string :=
  rawQuery <- Uri.decodeURIComponent (Str.slice1 (search url)) ;;
  if negb (Str.startsWith "imageMogr2" rawQuery) then Ret (href url)
  else Ret (origin url ++ pathname url)%string.

Definition extract (url : UrlLike) : outcome (option Extracted) :=
  match asURL new_URL url with
  | None => Ret None
  | Some u =>
      if negb (isCosUrl new_URL (UObj u)) then Ret None
      else
        rawQuery <- Uri.decodeURIComponent (Str.slice1 (search u)) ;;
        if negb (Str.startsWith "imageMogr2" rawQuery) then Ret None
        else
          let firstSegment :=
            match Str.split "|" rawQuery with
            | s :: _ => s
            | [] => EmptyString
            end in
          let operations := parseImageMogr2 firstSegment in
          Ret (Some (mkExtracted (origin u ++ pathname u)%string operations))
  end.

Definition generate (src : UrlLike) (operations : QCloudCosOperations)
  : string :=
  match asURL new_URL src with
  | None => toString src
  | Some u =>
      if negb (isCosUrl new_URL (UObj u)) then toString src
      else
        let baseUrl := (origin u ++ pathname u)%string in
        let processing := buildImageMogr2 operations in
        if Str.isEmpty processing then baseUrl
        else (baseUrl ++ "?" ++ processing)%string
  end.

(** The four guarded assignments of [transform]. *)
Definition applyDefined (merged operations : QCloudCosOperations)
  : QCloudCosOperations :=
  mkOperations
    (assign (width merged) (width operations))
    (assign (height merged) (height operations))
    (assign (format merged) (format operations))
    (assign (quality merged) (quality operations)).

Definition transform (src : UrlLike) (operations : QCloudCosOperations)
  : outcome string :=
  base <- extract src ;;
  match base with
  | None => Ret (generate src operations)
  | Some b => Ret (generate (UStr (Initial.src b))
                     (applyDefined (Initial.operations b) operations))
  end.

End Codec.

End Initial.

(** ** A URL parser to run the code on

    Splits [scheme://host/path?query#fragment] for the schemes [http] and
    [https]; on such plain URLs (lower-case host, no port, no user
    information, nothing to normalise) it returns what the platform's
    parser returns. *)

Module Sample.

Definition stops (c : ascii) : bool :=
  Ascii.eqb c "/" || Ascii.eqb c "?" || Ascii.eqb c "#".

Definition notStop (p : ascii -> bool) (c : ascii) : bool := negb (p c).

Definition afterScheme (s : string) : option (string * string) :=
  if Str.startsWith "https://" s
  then Some ("https://", String.substring 8 (String.length s - 8) s)
  else if Str.startsWith "http://" s
  then Some ("http://", String.substring 7 (String.length s - 7) s)
  else None.

Definition new_URL (s : string) : option URL :=
  match afterScheme s with
  | None => None
  | Some (scheme, rest) =>
      let '(host, r1) := Str.span (notStop stops) rest in
      let '(path, r2) :=
        Str.span (notStop (fun c => Ascii.eqb c "?" || Ascii.eqb c "#")) r1 in
      let '(query, frag) := Str.span (notStop (Ascii.eqb "#")) r2 in
      if Str.isEmpty host then None
      else
        let pathname := if Str.isEmpty path then "/" else path in
        let search := if String.eqb query "?" then EmptyString else query in
        Some (mkURL (scheme ++ host ++ pathname ++ query ++ frag)
                    (scheme ++ host) host pathname search)
  end.

End Sample.

(** ** Vocabulary of the properties *)

(** *** Reading properties *)

Definition allKeys : list key :=
  [Kwidth; Kheight; Kformat; Kquality; KthumbnailMode; KautoOrient;
   Krotate; Kflip; Kiradius; Krradius; Krquality; Klquality; KignoreError].

(** First defined of two readings. *)
Definition orElse {A} (a b : option A) : option A :=
  match a with
  | Some v => Some v
  | None => b
  end.

(** A property that is kept unless a value comes for it. *)
Definition keep {A} (cur : slot A) (v : option A) : slot A :=
  match v with
  | Some a => Value a
  | None => cur
  end.

(** An operation set without its [undefined] properties. *)
Definition definedOnly (o : QCloudCosOperations) : QCloudCosOperations :=
  mkOperations
    (keep Absent (defined (width o))) (keep Absent (defined (height o)))
    (keep Absent (defined (format o))) (keep Absent (defined (quality o)))
    (keep Absent (defined (thumbnailMode o)))
    (keep Absent (defined (autoOrient o))) (keep Absent (defined (rotate o)))
    (keep Absent (defined (flip o))) (keep Absent (defined (iradius o)))
    (keep Absent (defined (rradius o))) (keep Absent (defined (rquality o)))
    (keep Absent (defined (lquality o)))
    (keep Absent (defined (ignoreError o))).

(** No property of [o] is [undefined]: each is missing or has a value. *)
Definition settledSlot {A} (s : slot A) : bool :=
  match s with Undefined => false | _ => true end.

Definition settled (o : QCloudCosOperations) : bool :=
  settledSlot (width o) && settledSlot (height o) && settledSlot (format o)
  && settledSlot (quality o) && settledSlot (thumbnailMode o)
  && settledSlot (autoOrient o) && settledSlot (rotate o)
  && settledSlot (flip o) && settledSlot (iradius o)
  && settledSlot (rradius o) && settledSlot (rquality o)
  && settledSlot (lquality o) && settledSlot (ignoreError o).

(** *** Digits *)

(** The value of a digit sequence read from the most significant end. *)
Fixpoint readUint (acc : N) (d : Decimal.uint) : N :=
  match d with
  | Decimal.Nil => acc
  | Decimal.D0 d => readUint (10 * acc + 0) d
  | Decimal.D1 d => readUint (10 * acc + 1) d
  | Decimal.D2 d => readUint (10 * acc + 2) d
  | Decimal.D3 d => readUint (10 * acc + 3) d
  | Decimal.D4 d => readUint (10 * acc + 4) d
  | Decimal.D5 d => readUint (10 * acc + 5) d
  | Decimal.D6 d => readUint (10 * acc + 6) d
  | Decimal.D7 d => readUint (10 * acc + 7) d
  | Decimal.D8 d => readUint (10 * acc + 8) d
  | Decimal.D9 d => readUint (10 * acc + 9) d
  end%N.

(** Integers that print as their digits: fewer than twenty-two of them. *)
Definition plain (z : Z) : Prop := (Z.abs z < 10 ^ 21)%Z.

Definition noSlash (s : string) : bool :=
  Str.all (fun c => negb (Ascii.eqb c "/")) s.

(** *** The operation sets that survive a round trip

    Integers that print as plain digits (width and height not negative), a
    format that is not empty, no [/] in format or quality, a string
    quality that is not a numeric literal, flags that are [true] when set,
    and a thumbnail mode other than [fit] that comes with a width or a
    height. *)

Definition integerSlot (nonneg : bool) (v : slot number) : Prop :=
  match defined v with
  | Some (Int z) => plain z /\ (nonneg = true -> (0 <= z)%Z)
  | Some _ => False
  | None => True
  end.

Definition formatSlot (v : slot string) : Prop :=
  match defined v with
  | Some f => Str.isEmpty f = false /\ noSlash f = true
  | None => True
  end.

Definition qualitySlot (v : slot Quality) : Prop :=
  match defined v with
  | Some (QNumber (Int z)) => plain z
  | Some (QNumber _) => False
  | Some (QString s) => isNaN (Num.Number s) = true /\ noSlash s = true
  | None => True
  end.

Definition flagSlot (v : slot bool) : Prop := defined v <> Some false.

Definition modeSlot (o : QCloudCosOperations) : Prop :=
  match defined (thumbnailMode o) with
  | Some m =>
      m <> fit
      /\ (isSome (defined (width o)) || isSome (defined (height o))) = true
  | None => True
  end.

Record roundTrippable (o : QCloudCosOperations) : Prop := {
  rt_width : integerSlot true (width o);
  rt_height : integerSlot true (height o);
  rt_format : formatSlot (format o);
  rt_quality : qualitySlot (quality o);
  rt_thumbnailMode : modeSlot o;
  rt_autoOrient : flagSlot (autoOrient o);
  rt_rotate : integerSlot false (rotate o);
  rt_iradius : integerSlot false (iradius o);
  rt_rradius : integerSlot false (rradius o);
  rt_rquality : integerSlot false (rquality o);
  rt_lquality : integerSlot false (lquality o);
  rt_ignoreError : flagSlot (ignoreError o)
}.

(** Boolean forms of the conditions above, to compute with. *)
Definition plainb (z : Z) : bool := (Z.abs z <? 10 ^ 21)%Z.

Definition integerSlotb (nonneg : bool) (v : slot number) : bool :=
  match defined v with
  | Some (Int z) => plainb z && (negb nonneg || (0 <=? z)%Z)
  | Some _ => false
  | None => true
  end.

Definition formatSlotb (v : slot string) : bool :=
  match defined v with
  | Some f => negb (Str.isEmpty f) && noSlash f
  | None => true
  end.

Definition qualitySlotb (v : slot Quality) : bool :=
  match defined v with
  | Some (QNumber (Int z)) => plainb z
  | Some (QNumber _) => false
  | Some (QString s) => isNaN (Num.Number s) && noSlash s
  | None => true
  end.

Definition flagSlotb (v : slot bool) : bool :=
  match defined v with
  | Some false => false
  | _ => true
  end.

Definition modeSlotb (o : QCloudCosOperations) : bool :=
  match defined (thumbnailMode o) with
  | Some fit => false
  | Some _ => isSome (defined (width o)) || isSome (defined (height o))
  | None => true
  end.

Definition roundTrips (o : QCloudCosOperations) : bool :=
  integerSlotb true (width o) && integerSlotb true (height o)
  && formatSlotb (format o) && qualitySlotb (quality o) && modeSlotb o
  && flagSlotb (autoOrient o) && integerSlotb false (rotate o)
  && integerSlotb false (iradius o) && integerSlotb false (rradius o)
  && integerSlotb false (rquality o) && integerSlotb false (lquality o)
  && flagSlotb (ignoreError o).

(** *** Precedence

    As the design document words it: the override when it is defined, else
    what the URL had, else the default. *)
Definition layered (k : key) (V E : QCloudCosOperations)
  (D : option QCloudCosOptions) : option fieldValue :=
  orElse (read k V) (orElse (read k E) (read k (ofOptions D))).

(** *** Pipelines *)

(** A segment owned by the dialect. *)
Definition isDialect (seg : string) : bool := Str.startsWith "imageMogr2" seg.
Definition isForeign (seg : string) : bool := negb (isDialect seg).

(** Last write wins, field by field: the value of the last operation set
    of the sequence that defines the field. *)
Fixpoint lastWrite (k : key) (l : list QCloudCosOperations)
  : option fieldValue :=
  match l with
  | [] => None
  | o :: r => orElse (lastWrite k r) (read k o)
  end.

(** The query string of [generate]: the serialized segment, unless empty,
    then the other segments, joined by [|] after a [?]; nothing at all
    when there is no segment. *)
Definition dialectPart (processing : string) : list string :=
  if Str.isEmpty processing then [] else [processing].

Definition withQuery (baseUrl processing : string) (segments : list string)
  : string :=
  match (dialectPart processing ++ segments)%list with
  | [] => baseUrl
  | all => (baseUrl ++ "?" ++ Str.join "|" all)%string
  end.

(** The base URL of [u] is accepted again by the URL constructor, as a
    matching URL with the same origin and path. *)
Definition stable (new_URL : string -> option URL) (u : URL) : bool :=
  match new_URL (origin u ++ pathname u)%string with
  | Some u' =>
      isCosUrl new_URL (UObj u')
      && String.eqb (origin u' ++ pathname u') (origin u ++ pathname u)
  | None => false
  end.

(** The segments of the query as it stands in the URL [s], before any
    decoding; none when [s] is not a URL. *)
Definition writtenSegments (new_URL : string -> option URL) (s : string)
  : list string :=
  match new_URL s with
  | Some u => Str.split "|" (Str.slice1 (search u))
  | None => []
  end.

(** What [extract] returns for the matching URL [u] whose decoded query
    is [q]. *)
Definition extractedFrom (u : URL) (q : string) : Extracted.t :=
  Extracted.mk (origin u ++ pathname u)%string
    (fold_left spread
       (map parseImageMogr2 (filter isDialect (Str.split "|" q)))
       noOperations)
    noOptions
    (filter isForeign (Str.split "|" q)).

(** The pipeline segments [generate] appends. *)
Definition given (pipelineSegments : option (list string)) : list string :=
  match pipelineSegments with
  | Some l => l
  | None => []
  end.

(** *** The two flags *)

Inductive flag : Type := AutoOrient | IgnoreError.

Definition flagOf (f : flag) (o : QCloudCosOperations) : slot bool :=
  match f with
  | AutoOrient => autoOrient o
  | IgnoreError => ignoreError o
  end.

Definition flagToken (f : flag) : string :=
  match f with
  | AutoOrient => "auto-orient"
  | IgnoreError => "ignore-error/1"
  end.

(** The characters that the conversion of a number to a string writes:
    digits, signs, the point, the exponent mark and the letters of [NaN]
    and [Infinity]. *)
Definition numeral (c : ascii) : bool :=
  is_digit c
  || existsb (Ascii.eqb c)
       ["+"; "-"; "."; "e"; "N"; "a"; "I"; "n"; "f"; "i"; "t"; "y"]%char.

(** A character other than the letter [o], which both flag words hold. *)
Definition quiet (c : ascii) : bool := negb (Ascii.eqb c "o").

(** The token the parser compares with for each flag. *)
Definition flagWord (f : flag) : string :=
  match f with
  | AutoOrient => "auto-orient"
  | IgnoreError => "ignore-error"
  end.

(** None of the tokens of [s], the pieces between its slashes, is the
    word of [f]. *)
Definition wordFree (f : flag) (s : string) : bool :=
  negb (existsb (fun token => String.eqb token (flagWord f))
          (Str.split "/" s)).

(** The strings that the serializer copies as they are, the format and a
    quality given as a string, have no token that is the word of [f]. *)
Definition textsFree (f : flag) (o : QCloudCosOperations) : bool :=
  match defined (format o) with
  | Some s => wordFree f s
  | None => true
  end
  && match defined (quality o) with
     | Some (QString s) => wordFree f s
     | _ => true
     end.

(** The value of a flag in the operations that [extract] returns, none
    when it returns null. *)
Definition flagIn (f : flag) (found : option QCloudCosOperations)
  : option bool :=
  match found with
  | Some o => defined (flagOf f o)
  | None => None
  end.

(** Every property but [thumbnailMode] is missing or [undefined]. *)
Definition onlyThumbnailMode (o : QCloudCosOperations) : bool :=
  forallb (fun k => match k with
                    | KthumbnailMode => true
                    | _ => negb (isSome (read k o))
                    end) allKeys.

(** *** The serializer, as the design document words it *)

Module Spec.

Definition dimension (v : slot number) : string :=
  match defined v with
  | Some n => Num.ToString n
  | None => EmptyString
  end.

(** The resize or crop token, present when a width or a height is. *)
Definition resizeToken (o : QCloudCosOperations) : option string :=
  match defined (width o), defined (height o) with
  | None, None => None
  | _, _ =>
      let w := dimension (width o) in
      let h := dimension (height o) in
      Some (match orElse (defined (thumbnailMode o)) (Some fit) with
            | Some cover => "crop/" ++ w ++ "x" ++ h
            | Some force => "thumbnail/" ++ w ++ "x" ++ h ++ "!"
            | Some shrinkOnly => "thumbnail/" ++ w ++ "x" ++ h ++ ">"
            | Some enlargeOnly => "thumbnail/" ++ w ++ "x" ++ h ++ "<"
            | _ => "thumbnail/" ++ w ++ "x" ++ h
            end)%string
  end.

Definition numberToken (name : string) (v : slot number) : option string :=
  option_map (fun n => name ++ "/" ++ Num.ToString n)%string (defined v).

(** A flag gives its token when it is truthy. *)
Definition flagToken (text : string) (v : slot bool) : option string :=
  match defined v with
  | Some true => Some text
  | _ => None
  end.

(** The format token when the field is present. *)
Definition formatToken (o : QCloudCosOperations) : option string :=
  option_map (fun f => "format/" ++ f)%string (defined (format o)).

(** The format token when the field is a non-empty string. *)
Definition formatTokenTruthy (o : QCloudCosOperations) : option string :=
  match defined (format o) with
  | Some f => if Str.isEmpty f then None else Some ("format/" ++ f)%string
  | None => None
  end.

(** The tokens in their fixed order, [fmt] giving the format token. *)
Definition tokens (fmt : QCloudCosOperations -> option string)
  (o : QCloudCosOperations) : list (option string) :=
  [ resizeToken o;
    numberToken "iradius" (iradius o);
    numberToken "rradius" (rradius o);
    flagToken "auto-orient" (autoOrient o);
    numberToken "rotate" (rotate o);
    option_map (fun f => "flip/" ++ flipName f)%string (defined (flip o));
    fmt o;
    option_map (fun q => "quality/" ++ qualityText q)%string
               (defined (quality o));
    numberToken "rquality" (rquality o);
    numberToken "lquality" (lquality o);
    flagToken "ignore-error/1" (ignoreError o) ].

Fixpoint present {A} (l : list (option A)) : list A :=
  match l with
  | [] => []
  | Some a :: r => a :: present r
  | None :: r => present r
  end.

Definition noFieldSet (o : QCloudCosOperations) : bool :=
  forallb (fun k => negb (isSome (read k o))) allKeys.

(** As the claim has it: empty when no field is set, and otherwise the
    keyword and the tokens of the fields that are present. *)
Definition serialize (o : QCloudCosOperations) : string :=
  if noFieldSet o then EmptyString
  else ("imageMogr2/" ++ Str.join "/" (present (tokens formatToken o)))%string.

(** As amended: empty when no token is produced, the format token being
    produced for a non-empty format only. *)
Definition serializeAmended (o : QCloudCosOperations) : string :=
  match present (tokens formatTokenTruthy o) with
  | [] => EmptyString
  | ts => ("imageMogr2/" ++ Str.join "/" ts)%string
  end.

End Spec.

(** *** Host names *)

(** The language of a regular expression. *)
Inductive matches : Re.regex -> string -> Prop :=
| M_eps : matches Re.Eps EmptyString
| M_cls p c : p c = true -> matches (Re.Cls p) (String c EmptyString)
| M_seq r1 r2 s1 s2 :
    matches r1 s1 -> matches r2 s2 -> matches (Re.Seq r1 r2) (s1 ++ s2)
| M_alt_l r1 r2 s : matches r1 s -> matches (Re.Alt r1 r2) s
| M_alt_r r1 r2 s : matches r2 s -> matches (Re.Alt r1 r2) s
| M_star_nil r : matches (Re.Star r) EmptyString
| M_star_app r s1 s2 :
    matches r s1 -> matches (Re.Star r) s2 -> matches (Re.Star r) (s1 ++ s2).

(** A non-empty run of characters of one class. *)
Definition run (p : ascii -> bool) (s : string) : bool :=
  negb (Str.isEmpty s) && Str.all p s.

Definition bucketChar (c : ascii) : bool :=
  is_lower c || is_upper c || is_digit c || Ascii.eqb c "-".

Definition zoneChar (c : ascii) : bool := is_lower c || is_digit c.

(** The parts of the host name of a bucket:
    [name-appid.service.area-zone.myqcloud.com], with an optional
    [-serial] after the zone. *)
Module Host.

Record t : Type := mk {
  name : string;
  appid : string;
  service : string;
  area : string;
  zone : string;
  serial : option string
}.

Definition text (e : t) : string :=
  name e ++ "-" ++ appid e ++ "." ++ service e ++ "." ++ area e ++ "-"
  ++ zone e
  ++ match serial e with Some d => "-" ++ d | None => EmptyString end
  ++ ".myqcloud.com".

Definition wellFormed (e : t) : bool :=
  run bucketChar (name e) && run is_digit (appid e)
  && (String.eqb (service e) "cos" || String.eqb (service e) "pic")
  && run is_lower (area e) && run zoneChar (zone e)
  && match serial e with Some d => run is_digit d | None => true end.

End Host.

(** *** Tokens *)

(** The tokens [parseImageMogr2] acts on. *)
Definition keywords : list string :=
  ["thumbnail"; "crop"; "gravity"; "iradius"; "rradius"; "auto-orient";
   "rotate"; "flip"; "format"; "quality"; "rquality"; "lquality";
   "ignore-error"].

Definition isKeyword (token : string) : bool :=
  existsb (String.eqb token) keywords.

(** The two keywords that stand alone; the others ask for a value. *)
Definition standsAlone (token : string) : bool :=
  String.eqb token "auto-orient" || String.eqb token "ignore-error".

(** *** What the parser can give

    A width or a height read from digits is a whole number that is not
    negative (an infinity is what a digit sequence too long for binary64
    reads as); the other numbers are not [NaN]; a format and a string
    quality are single tokens; the mode is never [fit] and a flag never
    [false]; no property is [undefined]. *)

Definition sizeRead (v : slot number) : bool :=
  match v with
  | Absent => true
  | Value (Int z) => (0 <=? z)%Z
  | Value (Infinity false) => true
  | _ => false
  end.

Definition numberRead (v : slot number) : bool :=
  match v with
  | Absent => true
  | Value n => negb (isNaN n)
  | Undefined => false
  end.

Definition tokenRead (v : slot string) : bool :=
  match v with
  | Absent => true
  | Value s => noSlash s
  | Undefined => false
  end.

Definition qualityRead (v : slot Quality) : bool :=
  match v with
  | Absent => true
  | Value (QNumber n) => negb (isNaN n)
  | Value (QString s) => isNaN (Num.Number s) && noSlash s
  | Undefined => false
  end.

Definition modeRead (v : slot QCloudCosThumbnailMode) : bool :=
  match v with
  | Absent => true
  | Value fit => false
  | Value _ => true
  | Undefined => false
  end.

Definition flagRead (v : slot bool) : bool :=
  match v with
  | Absent => true
  | Value b => b
  | Undefined => false
  end.

Definition asParsed (o : QCloudCosOperations) : bool :=
  sizeRead (width o) && sizeRead (height o) && tokenRead (format o)
  && qualityRead (quality o) && modeRead (thumbnailMode o)
  && flagRead (autoOrient o) && numberRead (rotate o)
  && settledSlot (flip o) && numberRead (iradius o)
  && numberRead (rradius o) && numberRead (rquality o)
  && numberRead (lquality o) && flagRead (ignoreError o).

(** *** What the serializer reads

    [emitted o] is [o] as [buildImageMogr2] sees it: a flag that is not
    [true], an empty format, the mode [fit] and a mode without width and
    height give no token and are left out. *)

(** A width or a height is set. *)
Definition sized (o : QCloudCosOperations) : bool :=
  isSome (defined (width o)) || isSome (defined (height o)).

Definition emitted (o : QCloudCosOperations) : QCloudCosOperations :=
  mkOperations (width o) (height o)
    (match defined (format o) with
     | Some f => if Str.isEmpty f then Absent else Value f
     | None => Absent
     end)
    (quality o)
    (match defined (thumbnailMode o) with
     | Some fit => Absent
     | Some m => if sized o then Value m else Absent
     | None => Absent
     end)
    (match defined (autoOrient o) with
     | Some true => Value true
     | _ => Absent
     end)
    (rotate o) (flip o) (iradius o) (rradius o) (rquality o) (lquality o)
    (match defined (ignoreError o) with
     | Some true => Value true
     | _ => Absent
     end).

(** The values that are written as the parser reads them: whole numbers
    that print as plain digits (width and height not negative), a format
    without [/], a string quality without [/] that is not a numeric
    literal. *)
Definition printable (o : QCloudCosOperations) : bool :=
  integerSlotb true (width o) && integerSlotb true (height o)
  && match defined (format o) with Some f => noSlash f | None => true end
  && qualitySlotb (quality o)
  && integerSlotb false (rotate o) && integerSlotb false (iradius o)
  && integerSlotb false (rradius o) && integerSlotb false (rquality o)
  && integerSlotb false (lquality o).

(** *** Queries *)

Definition noPipe (s : string) : bool :=
  Str.all (fun c => negb (Ascii.eqb c "|")) s.

Definition noPercent (s : string) : bool :=
  Str.all (fun c => negb (Ascii.eqb c "%")) s.

(** The characters of a string as items without escape. *)
Fixpoint lits (s : string) : list Uri.item :=
  match s with
  | EmptyString => []
  | String c r => Uri.Lit c :: lits r
  end.

(** The strings of [o] hold no [|]. *)
Definition pipeFree (o : QCloudCosOperations) : bool :=
  match defined (format o) with Some f => noPipe f | None => true end
  && match defined (quality o) with
     | Some (QString s) => noPipe s
     | _ => true
     end.

(** [k in o]: the property is an own property of [o], whatever its value. *)
Definition owned {A} (s : slot A) : bool :=
  match s with Absent => false | _ => true end.

Definition own (k : key) (o : QCloudCosOperations) : bool :=
  match k with
  | Kwidth => owned (width o)
  | Kheight => owned (height o)
  | Kformat => owned (format o)
  | Kquality => owned (quality o)
  | KthumbnailMode => owned (thumbnailMode o)
  | KautoOrient => owned (autoOrient o)
  | Krotate => owned (rotate o)
  | Kflip => owned (flip o)
  | Kiradius => owned (iradius o)
  | Krradius => owned (rradius o)
  | Krquality => owned (rquality o)
  | Klquality => owned (lquality o)
  | KignoreError => owned (ignoreError o)
  end.

(** The URL constructor reads [written] as a matching URL whose origin and
    path are [baseUrl] and whose query, decoded, is [query]. *)
Definition readsBack (new_URL : string -> option URL)
  (written baseUrl query : string) : bool :=
  match new_URL written with
  | Some u =>
      isCosUrl new_URL (UObj u)
      && String.eqb (origin u ++ pathname u) baseUrl
      && match Uri.decodeURIComponent (Str.slice1 (search u)) with
         | Ret q => String.eqb q query
         | Throw _ => false
         end
  | None => false
  end.

(** *** Layers of one property *)






(** *** The first revision and the later ones *)

(** An operation set of the first revision as one of the later ones. *)
Definition later (o : Initial.QCloudCosOperations) : QCloudCosOperations :=
  mkOperations (Initial.width o) (Initial.height o) (Initial.format o)
    (match Initial.quality o with
     | Absent => Absent
     | Undefined => Undefined
     | Value n => Value (QNumber n)
     end)
    Absent Absent Absent Absent Absent Absent Absent Absent Absent.

(** A width or a height that is set counts as a condition: one of them is
    neither zero nor [NaN]. *)
Definition sizeCounts (o : Initial.QCloudCosOperations) : bool :=
  negb (isSome (defined (Initial.width o))
        || isSome (defined (Initial.height o)))
  || Initial.truthy (Initial.width o) || Initial.truthy (Initial.height o).

(** The operation sets the parser of the first revision gives back: whole
    numbers that print as plain digits, a width or a height that counts,
    a format that is a token, and no property that is [undefined]. *)
Definition initialRoundTrips (o : Initial.QCloudCosOperations) : bool :=
  integerSlotb true (Initial.width o) && integerSlotb true (Initial.height o)
  && sizeCounts o
  && formatSlotb (Initial.format o) && integerSlotb false (Initial.quality o)
  && settledSlot (Initial.width o) && settledSlot (Initial.height o)
  && settledSlot (Initial.format o) && settledSlot (Initial.quality o).

(** *** Sample inputs *)

Module Example.

Definition base : string := "https://b-1.cos.ap-beijing.myqcloud.com/p.jpg".

Definition processed : string :=
  (base ++ "?imageMogr2/thumbnail/200x/auto-orient|watermark/2/text/AA|imageMogr2/format/jpg|watermark/1/dx/5")%string.

Definition query : string :=
  "imageMogr2/thumbnail/200x/auto-orient|watermark/2/text/AA|imageMogr2/format/jpg|watermark/1/dx/5".

(** [new URL(processed)] *)
Definition parsed : URL :=
  mkURL processed "https://b-1.cos.ap-beijing.myqcloud.com"
        "b-1.cos.ap-beijing.myqcloud.com" "/p.jpg" ("?" ++ query).

(** [new URL(base)] *)
Definition parsedBase : URL :=
  mkURL base "https://b-1.cos.ap-beijing.myqcloud.com"
        "b-1.cos.ap-beijing.myqcloud.com" "/p.jpg" EmptyString.

Definition percent : string :=
  (base ++ "?imageMogr2/format/jpg|watermark/2/text/50%")%string.

(** A foreign segment whose text holds an escaped percent sign. *)
Definition escaped : string :=
  (base ++ "?imageMogr2/format/jpg|watermark/2/text/50%25")%string.

(** [new URL] of a [file:] URL that names a matching host: the origin of
    such a URL is opaque and reads [null]. *)
Definition opaque : URL :=
  mkURL "file://b-1.cos.ap-beijing.myqcloud.com/p.jpg?imageMogr2/format/jpg|watermark/1/dx/5"
        "null" "b-1.cos.ap-beijing.myqcloud.com" "/p.jpg"
        "?imageMogr2/format/jpg|watermark/1/dx/5".

(** An override that clears [autoOrient] and whose format holds a slash. *)
Definition slashed : QCloudCosOperations :=
  set_autoOrient (Value false)
    (set_format (Value "webp/auto-orient") noOperations).

Definition other : string := "https://example.com/p.jpg?w=10".

Definition ops (w : option Z) (f : option string) : QCloudCosOperations :=
  set_width (match w with Some z => Value (Int z) | None => Absent end)
    (set_format (match f with Some s => Value s | None => Absent end)
       noOperations).

Definition defaults : QCloudCosOptions :=
  Options.mk (Value "webp") Absent (Value (QNumber (Int 80))) Absent Absent
             Absent Absent.

End Example.

(** Operation sets for the round trip. *)
Module RoundTrip.

Definition full : QCloudCosOperations :=
  mkOperations (Value (Int 640)) (Value (Int 480)) (Value "webp")
    (Value (QString "90!")) (Value cover) (Value true) (Value (Int (-90)))
    (Value horizontal) (Value (Int 20)) Absent (Value (Int 80)) Absent
    (Value true).

Definition fitted : QCloudCosOperations :=
  set_thumbnailMode (Value fit)
    (set_height (Value (Int 300)) (set_width (Value (Int 400)) noOperations)).

End RoundTrip.

(** Inputs of the scenarios of the design document and of the README. *)
Module Scenario.

Definition bucket : string :=
  "https://examplebucket-1250000000.cos.ap-beijing.myqcloud.com/photo.jpg".

Definition width (z : Z) (o : QCloudCosOperations) : QCloudCosOperations :=
  set_width (Value (Int z)) o.

Definition format (f : string) (o : QCloudCosOperations) : QCloudCosOperations :=
  set_format (Value f) o.

End Scenario.

(** Inputs for the properties of the codec as a whole. *)
Module Trial.

(** A URL with one segment, of the dialect. *)
Definition single : string :=
  (Example.base ++ "?imageMogr2/thumbnail/200x/format/png")%string.

(** [new URL(single)] *)
Definition parsedSingle : URL :=
  mkURL single "https://b-1.cos.ap-beijing.myqcloud.com"
        "b-1.cos.ap-beijing.myqcloud.com" "/p.jpg"
        "?imageMogr2/thumbnail/200x/format/png".

(** An operation set with properties that give no token. *)
Definition loose : QCloudCosOperations :=
  mkOperations (Value (Int 400)) (Value (Int 300)) (Value "webp") Absent
    (Value fit) (Value false) Absent Absent Absent Absent Absent Absent
    (Value true).

Definition covering : QCloudCosOperations :=
  set_thumbnailMode (Value cover)
    (set_height (Value (Int 600)) (Example.ops (Some 800%Z) None)).

Definition first : Initial.QCloudCosOperations :=
  Initial.mkOperations (Value (Int 400)) (Value (Int 300)) (Value "webp")
    (Value (Int 85)).

End Trial.

(** * Properties *)

(** ** Strings *)

Lemma append_empty_r (s : string) : (s ++ EmptyString)%string = s.
Proof. induction s as [|c s IH]; simpl; [reflexivity | now rewrite IH]. Qed.

Lemma append_assoc (a b c : string) :
  ((a ++ b) ++ c)%string = (a ++ (b ++ c))%string.
Proof. induction a as [|x a IH]; simpl; [reflexivity | now rewrite IH]. Qed.

Lemma substring_all (s : string) : String.substring 0 (String.length s) s = s.
Proof. induction s as [|c s IH]; simpl; [reflexivity | now rewrite IH]. Qed.

Lemma split_nonempty (sep : ascii) (s : string) : Str.split sep s <> [].
Proof.
  destruct s as [|c s]; simpl; [discriminate|].
  destruct (Ascii.eqb c sep); [discriminate|].
  destruct (Str.split sep s); discriminate.
Qed.

(** Splitting distributes over a separator in the middle. *)
Lemma split_app (sep : ascii) (a b : string) :
  Str.split sep (a ++ String sep b) = Str.split sep a ++ Str.split sep b.
Proof.
  induction a as [|c a IH]; simpl.
  - now rewrite Ascii.eqb_refl.
  - destruct (Ascii.eqb c sep); [now rewrite IH|].
    rewrite IH. pose proof (split_nonempty sep a) as Hne.
    destruct (Str.split sep a); [contradiction | reflexivity].
Qed.

(** A string without the separator is one piece. *)
Lemma split_single (sep : ascii) (s : string) :
  Str.all (fun c => negb (Ascii.eqb c sep)) s = true -> Str.split sep s = [s].
Proof.
  induction s as [|c s IH]; simpl; [reflexivity|].
  intros H. apply andb_true_iff in H as [Hc Hs].
  apply negb_true_iff in Hc. rewrite Hc, (IH Hs). reflexivity.
Qed.

Lemma split_join (sep : ascii) (parts : list string) :
  parts <> [] ->
  Str.split sep (Str.join (String sep EmptyString) parts)
  = flat_map (Str.split sep) parts.
Proof.
  unfold Str.join.
  induction parts as [|p rest IH]; [congruence|]. intros _.
  destruct rest as [|q rest].
  - simpl. now rewrite app_nil_r.
  - change (String.concat (String sep EmptyString) (p :: q :: rest))
      with (p ++ String sep EmptyString ++ String.concat (String sep EmptyString) (q :: rest))%string.
    change (String sep EmptyString ++ String.concat (String sep EmptyString) (q :: rest))%string
      with (String sep (String.concat (String sep EmptyString) (q :: rest))).
    rewrite split_app, IH by discriminate. reflexivity.
Qed.

Lemma all_append (p : ascii -> bool) (a b : string) :
  Str.all p (a ++ b) = Str.all p a && Str.all p b.
Proof.
  induction a as [|c a IH]; simpl; [reflexivity|].
  now rewrite IH, andb_assoc.
Qed.

Lemma all_impl (p q : ascii -> bool) (s : string) :
  (forall c, p c = true -> q c = true) ->
  Str.all p s = true -> Str.all q s = true.
Proof.
  intros Hpq. induction s as [|c s IH]; simpl; [reflexivity|].
  intros H. apply andb_true_iff in H as [Hc Hs].
  now rewrite (Hpq c Hc), (IH Hs).
Qed.

(** [span] stops at the first character outside the class. *)
Lemma span_stop (p : ascii -> bool) (a rest : string) :
  Str.all p a = true ->
  match rest with String c _ => p c = false | EmptyString => True end ->
  Str.span p (a ++ rest) = (a, rest).
Proof.
  intros Ha Hrest. induction a as [|c a IH]; simpl in *.
  - destruct rest as [|c r]; simpl; [reflexivity | now rewrite Hrest].
  - apply andb_true_iff in Ha as [Hc Ha]. now rewrite Hc, (IH Ha).
Qed.

(** ** Numbers and their digits *)

Lemma value_string_of_uint (d : Decimal.uint) (acc : N) :
  Num.value 10 Num.digitval acc (NilEmpty.string_of_uint d) = readUint acc d.
Proof.
  revert acc. induction d; intros acc; simpl; try reflexivity; apply IHd.
Qed.

Lemma readUint_spec (d : Decimal.uint) (acc : N) :
  (readUint acc d
   = DecimalPos.Unsigned.of_lu (Decimal.rev d) + acc * 10 ^ DecimalPos.Unsigned.usize d)%N.
Proof.
  revert acc.
  induction d; intros acc; cbn [readUint DecimalPos.Unsigned.usize];
    [ cbn; lia | .. ];
    rewrite IHd;
    match goal with
    | |- context [Decimal.rev (?D d)] => change (Decimal.rev (D d)) with (Decimal.revapp d (D Decimal.Nil))
    end;
    rewrite DecimalPos.Unsigned.of_lu_revapp, N.pow_succ_r';
    cbn [DecimalPos.Unsigned.of_lu]; ring.
Qed.

Lemma readUint_to_uint (n : N) : readUint 0 (N.to_uint n) = n.
Proof.
  rewrite readUint_spec, <- DecimalPos.Unsigned.of_uint_alt, N.mul_0_l, N.add_0_r.
  apply DecimalN.Unsigned.of_to.
Qed.

Lemma to_uint_nonnil (n : N) : N.to_uint n <> Decimal.Nil.
Proof.
  rewrite <- (DecimalN.Unsigned.of_to n) at 1.
  rewrite DecimalN.Unsigned.to_of. apply DecimalFacts.unorm_nonnil.
Qed.

Lemma digits_eq (n : N) : Num.digits n = NilEmpty.string_of_uint (N.to_uint n).
Proof.
  unfold Num.digits, NilZero.string_of_uint.
  pose proof (to_uint_nonnil n). destruct (N.to_uint n); congruence.
Qed.

Lemma decimal_digits (n : N) : Num.decimal (Num.digits n) = n.
Proof.
  unfold Num.decimal.
  rewrite digits_eq, value_string_of_uint. apply readUint_to_uint.
Qed.

Lemma string_of_uint_digits (d : Decimal.uint) :
  Str.all is_digit (NilEmpty.string_of_uint d) = true.
Proof. induction d; simpl; auto. Qed.

Lemma digits_all (n : N) : Str.all is_digit (Num.digits n) = true.
Proof. rewrite digits_eq. apply string_of_uint_digits. Qed.

Lemma digits_nonempty (n : N) : Str.isEmpty (Num.digits n) = false.
Proof.
  rewrite digits_eq. pose proof (to_uint_nonnil n).
  destruct (N.to_uint n); simpl; congruence.
Qed.

Lemma length_string_of_uint (d : Decimal.uint) :
  N.of_nat (String.length (NilEmpty.string_of_uint d)) = DecimalPos.Unsigned.usize d.
Proof.
  induction d; simpl String.length; simpl DecimalPos.Unsigned.usize;
    try reflexivity; rewrite Nat2N.inj_succ; now rewrite IHd.
Qed.

Lemma readUint_lower (d : Decimal.uint) (acc : N) :
  (acc * 10 ^ DecimalPos.Unsigned.usize d <= readUint acc d)%N.
Proof. rewrite readUint_spec. lia. Qed.

(** A number of more than [k] digits is at least [10^k]. *)
Lemma digits_length_bound (n : N) (k : nat) :
  (1 <= k)%nat ->
  (n < 10 ^ N.of_nat k)%N -> (String.length (Num.digits n) <= k)%nat.
Proof.
  intros Hk1 Hn. rewrite digits_eq.
  pose proof (readUint_to_uint n) as Hv.
  pose proof (DecimalN.Unsigned.to_of (N.to_uint n)) as Hnorm.
  rewrite DecimalN.Unsigned.of_to in Hnorm.
  pose proof (length_string_of_uint (N.to_uint n)) as Hlen.
  destruct (Nat.le_gt_cases (String.length (NilEmpty.string_of_uint (N.to_uint n))) k)
    as [Hle|Hgt]; [exact Hle | exfalso].
  assert (Hk : (N.of_nat k < DecimalPos.Unsigned.usize (N.to_uint n))%N) by lia.
  clear Hlen Hgt.
  destruct (N.to_uint n) as [|d|d|d|d|d|d|d|d|d|d] eqn:E;
    simpl DecimalPos.Unsigned.usize in Hk; simpl readUint in Hv.
  1: lia.
  1: { (* leading zero: the normal form is "0" *)
       unfold Decimal.unorm in Hnorm. simpl Decimal.nzhead in Hnorm.
       pose proof (DecimalFacts.nzhead_nonzero d) as Hz.
       destruct (Decimal.nzhead d) eqn:E'; try discriminate.
       - injection Hnorm as Hd. subst d. simpl in Hk. lia.
       - exact (Hz u eq_refl). }
  all: match type of Hv with readUint ?a ?d0 = _ =>
         pose proof (readUint_lower d0 a) as Hlow;
         assert (Hp : (10 ^ N.of_nat k <= 10 ^ DecimalPos.Unsigned.usize d0)%N)
           by (apply N.pow_le_mono_r; lia)
       end;
       nia.
Qed.

(** What being a digit excludes. *)
Lemma digit_facts (c : ascii) :
  is_digit c = true ->
  Num.is_ws c = false
  /\ Ascii.eqb c "+" = false /\ Ascii.eqb c "-" = false
  /\ Ascii.eqb c "." = false /\ Ascii.eqb c "/" = false
  /\ Ascii.eqb c "x" = false /\ Ascii.eqb c "X" = false
  /\ Ascii.eqb c "o" = false /\ Ascii.eqb c "O" = false
  /\ Ascii.eqb c "b" = false /\ Ascii.eqb c "B" = false
  /\ Ascii.eqb c "I" = false.
Proof.
  destruct c as [[] [] [] [] [] [] [] []]; intros H;
    try discriminate H; repeat split; reflexivity.
Qed.

(** A character of one octet starts no white space of several octets. *)
Lemma narrow_not_wide (c : ascii) :
  (N_of_ascii c <? 128)%N = true ->
  forall c2 c3, Num.is_ws2 c c2 = false /\ Num.is_ws3 c c2 c3 = false.
Proof.
  destruct c as [[] [] [] [] [] [] [] []]; intros H; try discriminate H;
    intros c2 c3; split; reflexivity.
Qed.

Lemma trimStart_narrow (c : ascii) (r : string) :
  Num.is_ws c = false -> (N_of_ascii c <? 128)%N = true ->
  Num.trimStart (String c r) = String c r.
Proof.
  intros Hws Hn. cbn [Num.trimStart]. rewrite Hws.
  destruct r as [|c2 [|c3 r]]; [reflexivity| |].
  - now rewrite (proj1 (narrow_not_wide c Hn c2 c2)).
  - destruct (narrow_not_wide c Hn c2 c3) as [H2 H3]. now rewrite H2, H3.
Qed.

Lemma digit_narrow (c : ascii) :
  is_digit c = true -> (N_of_ascii c <? 128)%N = true.
Proof.
  destruct c as [[] [] [] [] [] [] [] []]; intros H;
    try discriminate H; reflexivity.
Qed.

Lemma trimStart_digits (s : string) :
  Str.all is_digit s = true -> Num.trimStart s = s.
Proof.
  destruct s as [|c r]; [reflexivity|]. intros H.
  apply andb_true_iff in H as [Hc _].
  apply trimStart_narrow; [apply (digit_facts c Hc) | now apply digit_narrow].
Qed.

Lemma trimEnd_digits (s : string) :
  Str.all is_digit s = true -> Num.trimEnd s = s.
Proof.
  induction s as [|c s IH]; [reflexivity|].
  intros H. cbn [Num.trimEnd]. unfold Num.blank.
  rewrite (trimStart_digits _ H). cbn [Str.isEmpty].
  apply andb_true_iff in H as [_ Hs]. now rewrite (IH Hs).
Qed.

Lemma radixLiteral_digits (s : string) :
  Str.all is_digit s = true -> Num.radixLiteral s = None.
Proof.
  destruct s as [|c [|p r]]; simpl; try reflexivity.
  intros H. apply andb_true_iff in H as [_ H].
  apply andb_true_iff in H as [Hp _].
  destruct (digit_facts p Hp) as (_ & _ & _ & _ & _ & Hx & HX & Ho & HO & Hb & HB & _).
  rewrite Hx, HX, Ho, HO, Hb, HB. simpl.
  now destruct (negb (Ascii.eqb c "0")).
Qed.

Lemma unsignedDecimal_digits (neg : bool) (s : string) :
  Str.all is_digit s = true -> Str.isEmpty s = false ->
  Num.unsignedDecimal neg s
  = Int (if neg then - Z.of_N (Num.decimal s) else Z.of_N (Num.decimal s)).
Proof.
  intros Hall Hne. unfold Num.unsignedDecimal.
  assert (HI : String.eqb s "Infinity" = false).
  { destruct s as [|c r]; [discriminate|]. simpl in Hall.
    apply andb_true_iff in Hall as [Hc _].
    destruct (digit_facts c Hc) as (_ & _ & _ & _ & _ & _ & _ & _ & _ & _ & _ & Hi).
    simpl. now rewrite Hi. }
  rewrite HI.
  pose proof (span_stop is_digit s EmptyString Hall I) as Hspan.
  rewrite append_empty_r in Hspan. rewrite Hspan. simpl.
  rewrite Hne. simpl. rewrite append_empty_r.
  unfold Num.scaled. simpl. now rewrite Z.mul_1_r.
Qed.

(** [Number] reads a string of digits as the integer they denote. *)
Lemma Number_digits (s : string) :
  Str.all is_digit s = true -> Str.isEmpty s = false ->
  Num.Number s = Int (Z.of_N (Num.decimal s)).
Proof.
  intros Hall Hne. unfold Num.Number.
  destruct s as [|c r]; [discriminate|].
  pose proof Hall as Hall'. simpl in Hall'.
  apply andb_true_iff in Hall' as [Hc _].
  destruct (digit_facts c Hc) as (Hws & Hplus & Hminus & _).
  rewrite (trimStart_digits _ Hall).
  rewrite (trimEnd_digits _ Hall). simpl Str.isEmpty. cbv iota.
  rewrite (radixLiteral_digits _ Hall), Hplus, Hminus.
  now rewrite (unsignedDecimal_digits false _ Hall).
Qed.

Lemma Number_minus_digits (s : string) :
  Str.all is_digit s = true -> Str.isEmpty s = false ->
  Num.Number (String "-" s) = Int (- Z.of_N (Num.decimal s)).
Proof.
  intros Hall Hne. unfold Num.Number.
  rewrite (trimStart_narrow "-" s) by reflexivity.
  cbn [Num.trimEnd]. unfold Num.blank.
  rewrite (trimStart_narrow "-" s) by reflexivity.
  cbn [Str.isEmpty]. rewrite (trimEnd_digits _ Hall).
  destruct s as [|p r]; [discriminate|].
  change (Num.radixLiteral (String "-" (String p r))) with (@None number).
  cbv beta iota. simpl Str.isEmpty. simpl Ascii.eqb. cbv iota.
  now rewrite (unsignedDecimal_digits true _ Hall).
Qed.

Lemma intToString_plain (n : N) :
  (n < 10 ^ 21)%N -> Num.intToString n = Num.digits n.
Proof.
  intros H. unfold Num.intToString.
  pose proof (digits_length_bound n 21 ltac:(lia) H) as Hlen.
  apply Nat.leb_le in Hlen. now rewrite Hlen.
Qed.

Lemma ToString_nonneg (z : Z) :
  (0 <= z)%Z -> plain z -> Num.ToString (Int z) = Num.digits (Z.to_N z).
Proof.
  intros Hz Hp. unfold plain in Hp. simpl. unfold Num.signed.
  destruct (Z.ltb_spec z 0); [lia|].
  rewrite intToString_plain by lia. f_equal. lia.
Qed.

Lemma ToString_neg (z : Z) :
  (z < 0)%Z -> plain z ->
  Num.ToString (Int z) = String "-" (Num.digits (Z.abs_N z)).
Proof.
  intros Hz Hp. unfold plain in Hp. simpl. unfold Num.signed.
  destruct (Z.ltb_spec z 0); [|lia].
  rewrite intToString_plain by lia. reflexivity.
Qed.

(** Reading back what was printed. *)
Lemma Number_ToString (z : Z) :
  plain z -> Num.Number (Num.ToString (Int z)) = Int z.
Proof.
  intros Hp. destruct (Z.ltb_spec z 0) as [Hneg|Hpos].
  - rewrite (ToString_neg z Hneg Hp).
    rewrite Number_minus_digits
      by (apply digits_all || apply digits_nonempty).
    rewrite decimal_digits. f_equal. lia.
  - rewrite (ToString_nonneg z Hpos Hp).
    rewrite Number_digits by (apply digits_all || apply digits_nonempty).
    rewrite decimal_digits. f_equal. lia.
Qed.

Lemma digits_noSlash (n : N) : noSlash (Num.digits n) = true.
Proof.
  apply (all_impl is_digit); [|apply digits_all].
  intros c Hc. destruct (digit_facts c Hc) as (_ & _ & _ & _ & Hs & _).
  now rewrite Hs.
Qed.

Lemma ToString_noSlash (z : Z) : plain z -> noSlash (Num.ToString (Int z)) = true.
Proof.
  intros Hp. destruct (Z.ltb_spec z 0) as [Hneg|Hpos].
  - rewrite (ToString_neg z Hneg Hp). simpl. apply digits_noSlash.
  - rewrite (ToString_nonneg z Hpos Hp). apply digits_noSlash.
Qed.

(** ** The parser on what the serializer writes *)

Lemma parse_prefixed (x : string) :
  parseImageMogr2 ("imageMogr2/" ++ x)
  = Parse.scan (Str.split "/" x) false noOperations.
Proof.
  unfold parseImageMogr2, Parse.stripPrefix.
  change (Str.startsWith "imageMogr2" ("imageMogr2/" ++ x)) with true.
  cbv iota.
  change (String.length ("imageMogr2/" ++ x) - 10)%nat
    with (S (String.length x)).
  change (String.substring 10 (S (String.length x)) ("imageMogr2/" ++ x))
    with (String "/" (String.substring 0 (String.length x) x)).
  rewrite substring_all. simpl Ascii.eqb. cbv iota.
  destruct x; reflexivity.
Qed.

Lemma split_keyword (kw arg : string) :
  noSlash kw = true -> noSlash arg = true ->
  Str.split "/" (kw ++ "/" ++ arg) = [kw; arg].
Proof.
  intros Hk Ha. change (kw ++ "/" ++ arg)%string with (kw ++ String "/" arg)%string.
  rewrite split_app, (split_single "/" kw Hk), (split_single "/" arg Ha).
  reflexivity.
Qed.

(** The pattern for dimensions on two runs of digits. *)
Lemma dims_digits (w h rest : string) :
  Str.all is_digit w = true -> Str.all is_digit h = true ->
  match rest with String c _ => is_digit c = false | EmptyString => True end ->
  Parse.dims (w ++ "x" ++ h ++ rest) = Some (w, h, rest).
Proof.
  intros Hw Hh Hr. unfold Parse.dims.
  rewrite (span_stop is_digit w ("x" ++ h ++ rest) Hw) by reflexivity.
  simpl. now rewrite (span_stop is_digit h rest Hh Hr).
Qed.

Lemma set_width_same o : set_width (width o) o = o.
Proof. now destruct o. Qed.
Lemma set_height_same o : set_height (height o) o = o.
Proof. now destruct o. Qed.
Lemma set_thumbnailMode_same o : set_thumbnailMode (thumbnailMode o) o = o.
Proof. now destruct o. Qed.

(** The text of a dimension: digits, none when the dimension is not set. *)
Lemma dimension_text (v : slot number) :
  integerSlot true v ->
  let t := match defined v with
           | Some n => Num.ToString n
           | None => EmptyString
           end in
  Str.all is_digit t = true
  /\ (if Str.isEmpty t then defined v = None
      else exists n, defined v = Some n /\ Num.Number t = n).
Proof.
  unfold integerSlot. destruct (defined v) as [[| |z|]|]; try contradiction.
  - intros [Hp Hz]. specialize (Hz eq_refl). cbv zeta.
    rewrite (ToString_nonneg z Hz Hp). split; [apply digits_all|].
    rewrite digits_nonempty. exists (Int z). split; [reflexivity|].
    rewrite <- (ToString_nonneg z Hz Hp). now apply Number_ToString.
  - intros _. simpl. auto.
Qed.

Lemma setDims_text (o acc : QCloudCosOperations) :
  integerSlot true (width o) -> integerSlot true (height o) ->
  let w := match defined (width o) with
           | Some n => Num.ToString n | None => EmptyString end in
  let h := match defined (height o) with
           | Some n => Num.ToString n | None => EmptyString end in
  Parse.setDims (w, h) acc
  = set_height (keep (height acc) (defined (height o)))
      (set_width (keep (width acc) (defined (width o))) acc).
Proof.
  intros Hw Hh w h.
  destruct (dimension_text _ Hw) as [_ Hwt].
  destruct (dimension_text _ Hh) as [_ Hht].
  fold w in Hwt. fold h in Hht. unfold Parse.setDims.
  destruct (Str.isEmpty w).
  - rewrite Hwt. simpl keep. rewrite set_width_same.
    destruct (Str.isEmpty h).
    + rewrite Hht. simpl keep. now rewrite set_height_same.
    + destruct Hht as (n & -> & ->). reflexivity.
  - destruct Hwt as (n & -> & ->). simpl keep.
    destruct (Str.isEmpty h).
    + rewrite Hht. simpl keep. now destruct acc.
    + destruct Hht as (m & -> & ->). reflexivity.
Qed.

Lemma digits_are_noSlash (s : string) :
  Str.all is_digit s = true -> noSlash s = true.
Proof.
  apply all_impl. intros c Hc.
  destruct (digit_facts c Hc) as (_ & _ & _ & _ & Hs & _). now rewrite Hs.
Qed.

Lemma noSlash_append (a b : string) :
  noSlash a = true -> noSlash b = true -> noSlash (a ++ b) = true.
Proof. unfold noSlash. intros Ha Hb. now rewrite all_append, Ha, Hb. Qed.

(** One pushed part of the form [keyword/argument], seen by the loop. *)
Lemma scan_part (kw arg : string) (rest : list string)
  (acc : QCloudCosOperations) :
  noSlash kw = true -> noSlash arg = true ->
  Parse.scan (flat_map (Str.split "/") [(kw ++ "/" ++ arg)%string] ++ rest)
    false acc
  = Parse.scan (kw :: arg :: rest) false acc.
Proof.
  intros Hk Ha. cbn [flat_map]. now rewrite app_nil_r, split_keyword.
Qed.

Lemma thumbnail_plain (w h : string) (acc : QCloudCosOperations) :
  Str.all is_digit w = true -> Str.all is_digit h = true ->
  Parse.thumbnail (w ++ "x" ++ h) acc = Parse.setDims (w, h) acc.
Proof.
  intros Hw Hh. unfold Parse.thumbnail, Parse.dimsEnding.
  pose proof (dims_digits w h EmptyString Hw Hh I) as Hd.
  rewrite append_empty_r in Hd. now rewrite Hd.
Qed.

Lemma thumbnail_modifier (w h : string) (c : ascii) (acc : QCloudCosOperations) :
  Str.all is_digit w = true -> Str.all is_digit h = true ->
  is_digit c = false ->
  Parse.dims (w ++ "x" ++ h ++ String c EmptyString) = Some (w, h, String c EmptyString).
Proof. intros Hw Hh Hc. now apply dims_digits. Qed.

Lemma crop_plain (w h : string) (acc : QCloudCosOperations) :
  Str.all is_digit w = true -> Str.all is_digit h = true ->
  Parse.crop (w ++ "x" ++ h) acc
  = set_thumbnailMode (Value cover) (Parse.setDims (w, h) acc).
Proof.
  intros Hw Hh. unfold Parse.crop.
  pose proof (dims_digits w h EmptyString Hw Hh I) as Hd.
  rewrite append_empty_r in Hd. now rewrite Hd.
Qed.

(** The resize block, read back. *)
Lemma scan_resize (o acc : QCloudCosOperations) (rest : list string) :
  integerSlot true (width o) -> integerSlot true (height o) -> modeSlot o ->
  Parse.scan (flat_map (Str.split "/") (Push.resize o) ++ rest) false acc
  = Parse.scan rest false
      (set_thumbnailMode (keep (thumbnailMode acc) (defined (thumbnailMode o)))
         (set_height (keep (height acc) (defined (height o)))
            (set_width (keep (width acc) (defined (width o))) acc))).
Proof.
  intros Hw Hh Hm.
  pose proof (setDims_text o acc Hw Hh) as Hset. cbv zeta in Hset.
  destruct (dimension_text _ Hw) as [Hwd _].
  destruct (dimension_text _ Hh) as [Hhd _].
  unfold Push.resize, modeSlot in *.
  set (w := match defined (width o) with
            | Some n => Num.ToString n | None => EmptyString end) in *.
  set (h := match defined (height o) with
            | Some n => Num.ToString n | None => EmptyString end) in *.
  assert (Harg : forall m, noSlash m = true -> noSlash (w ++ "x" ++ h ++ m) = true).
  { intros m Hm'. repeat apply noSlash_append; auto using digits_are_noSlash. }
  assert (Harg0 : noSlash (w ++ "x" ++ h) = true).
  { repeat apply noSlash_append; auto using digits_are_noSlash. }
  destruct (isSome (defined (width o)) || isSome (defined (height o))) eqn:Hhas.
  - destruct (defined (thumbnailMode o)) as [[]|]; simpl keep.
    + now destruct Hm.
    + rewrite (scan_part "crop" (w ++ "x" ++ h)) by auto.
      change (Parse.scan ("crop" :: (w ++ "x" ++ h)%string :: rest) false acc)
        with (Parse.scan rest false (Parse.crop (w ++ "x" ++ h) acc)).
      now rewrite crop_plain, Hset.
    + rewrite (scan_part "thumbnail" (w ++ "x" ++ h ++ "!")) by auto.
      change (Parse.scan ("thumbnail" :: (w ++ "x" ++ h ++ "!")%string :: rest) false acc)
        with (Parse.scan rest false (Parse.thumbnail (w ++ "x" ++ h ++ "!") acc)).
      unfold Parse.thumbnail, Parse.dimsEnding.
      rewrite (dims_digits w h "!" Hwd Hhd eq_refl).
      cbv beta iota. simpl String.eqb. cbv beta iota. now rewrite Hset.
    + rewrite (scan_part "thumbnail" (w ++ "x" ++ h ++ ">")) by auto.
      change (Parse.scan ("thumbnail" :: (w ++ "x" ++ h ++ ">")%string :: rest) false acc)
        with (Parse.scan rest false (Parse.thumbnail (w ++ "x" ++ h ++ ">") acc)).
      unfold Parse.thumbnail, Parse.dimsEnding.
      rewrite (dims_digits w h ">" Hwd Hhd eq_refl).
      cbv beta iota. simpl String.eqb. cbv beta iota. now rewrite Hset.
    + rewrite (scan_part "thumbnail" (w ++ "x" ++ h ++ "<")) by auto.
      change (Parse.scan ("thumbnail" :: (w ++ "x" ++ h ++ "<")%string :: rest) false acc)
        with (Parse.scan rest false (Parse.thumbnail (w ++ "x" ++ h ++ "<") acc)).
      unfold Parse.thumbnail, Parse.dimsEnding.
      rewrite (dims_digits w h "<" Hwd Hhd eq_refl).
      cbv beta iota. simpl String.eqb. cbv beta iota. now rewrite Hset.
    + rewrite (scan_part "thumbnail" (w ++ "x" ++ h)) by auto.
      change (Parse.scan ("thumbnail" :: (w ++ "x" ++ h)%string :: rest) false acc)
        with (Parse.scan rest false (Parse.thumbnail (w ++ "x" ++ h) acc)).
      rewrite thumbnail_plain, Hset by auto.
      now destruct acc.
  - apply orb_false_iff in Hhas as [H1 H2].
    destruct (defined (width o)); [discriminate|].
    destruct (defined (height o)); [discriminate|].
    destruct (defined (thumbnailMode o)); [now destruct Hm|].
    simpl. now destruct acc.
Qed.

Lemma integer_text (v : slot number) (n : number) :
  integerSlot false v -> defined v = Some n ->
  noSlash (Num.ToString n) = true
  /\ Num.Number (Num.ToString n) = n /\ isNaN n = false.
Proof.
  unfold integerSlot. intros H E. rewrite E in H.
  destruct n as [| |z|]; try contradiction. destruct H as [Hp _].
  repeat split; [now apply ToString_noSlash | now apply Number_ToString].
Qed.

Ltac numeric_block set :=
  let n := fresh "n" in let E := fresh "E" in
  let Hs := fresh "Hs" in let Hn := fresh "Hn" in let Hnan := fresh "Hnan" in
  intros Hv; unfold Push.numeric;
  destruct (defined _) as [n|] eqn:E;
  [ destruct (integer_text _ n Hv E) as (Hs & Hn & Hnan);
    rewrite scan_part by auto;
    match goal with
    | |- Parse.scan (_ :: ?arg :: ?rest) false ?acc = _ =>
        change (Parse.scan rest false (Parse.numeric set arg acc) = 
                Parse.scan rest false (set (Value n) acc))
    end;
    unfold Parse.numeric; now rewrite Hn, Hnan
  | cbn [flat_map app keep]; f_equal;
    match goal with |- ?acc = _ => now destruct acc end ].

Lemma scan_iradius (v : slot number) (acc : QCloudCosOperations) rest :
  integerSlot false v ->
  Parse.scan (flat_map (Str.split "/") (Push.numeric "iradius" v) ++ rest) false acc
  = Parse.scan rest false (set_iradius (keep (iradius acc) (defined v)) acc).
Proof. numeric_block set_iradius. Qed.

Lemma scan_rradius (v : slot number) (acc : QCloudCosOperations) rest :
  integerSlot false v ->
  Parse.scan (flat_map (Str.split "/") (Push.numeric "rradius" v) ++ rest) false acc
  = Parse.scan rest false (set_rradius (keep (rradius acc) (defined v)) acc).
Proof. numeric_block set_rradius. Qed.

Lemma scan_rotate (v : slot number) (acc : QCloudCosOperations) rest :
  integerSlot false v ->
  Parse.scan (flat_map (Str.split "/") (Push.numeric "rotate" v) ++ rest) false acc
  = Parse.scan rest false (set_rotate (keep (rotate acc) (defined v)) acc).
Proof. numeric_block set_rotate. Qed.

Lemma scan_rquality (v : slot number) (acc : QCloudCosOperations) rest :
  integerSlot false v ->
  Parse.scan (flat_map (Str.split "/") (Push.numeric "rquality" v) ++ rest) false acc
  = Parse.scan rest false (set_rquality (keep (rquality acc) (defined v)) acc).
Proof. numeric_block set_rquality. Qed.

Lemma scan_lquality (v : slot number) (acc : QCloudCosOperations) rest :
  integerSlot false v ->
  Parse.scan (flat_map (Str.split "/") (Push.numeric "lquality" v) ++ rest) false acc
  = Parse.scan rest false (set_lquality (keep (lquality acc) (defined v)) acc).
Proof. numeric_block set_lquality. Qed.

Lemma scan_autoOrient (o acc : QCloudCosOperations) rest :
  flagSlot (autoOrient o) ->
  Parse.scan (flat_map (Str.split "/") (Push.autoOrient o) ++ rest) false acc
  = Parse.scan rest false
      (set_autoOrient (keep (autoOrient acc) (defined (autoOrient o))) acc).
Proof.
  unfold flagSlot, Push.autoOrient. intros H.
  destruct (defined (autoOrient o)) as [[]|]; [reflexivity | congruence |].
  cbn [flat_map app keep]. f_equal. now destruct acc.
Qed.

Lemma scan_ignoreError (o acc : QCloudCosOperations) rest :
  flagSlot (ignoreError o) ->
  Parse.scan (flat_map (Str.split "/") (Push.ignoreError o) ++ rest) false acc
  = Parse.scan rest false
      (set_ignoreError (keep (ignoreError acc) (defined (ignoreError o))) acc).
Proof.
  unfold flagSlot, Push.ignoreError. intros H.
  destruct (defined (ignoreError o)) as [[]|]; [reflexivity | congruence |].
  cbn [flat_map app keep]. f_equal. now destruct acc.
Qed.

Lemma scan_flip (o acc : QCloudCosOperations) rest :
  Parse.scan (flat_map (Str.split "/") (Push.flip o) ++ rest) false acc
  = Parse.scan rest false (set_flip (keep (flip acc) (defined (flip o))) acc).
Proof.
  unfold Push.flip.
  destruct (defined (flip o)) as [[]|]; [reflexivity | reflexivity |].
  cbn [flat_map app keep]. f_equal. now destruct acc.
Qed.

Lemma scan_format (o acc : QCloudCosOperations) rest :
  formatSlot (format o) ->
  Parse.scan (flat_map (Str.split "/") (Push.format o) ++ rest) false acc
  = Parse.scan rest false
      (set_format (keep (format acc) (defined (format o))) acc).
Proof.
  unfold formatSlot, Push.format. intros H.
  destruct (defined (format o)) as [f|].
  - destruct H as [Hne Hs]. rewrite Hne.
    now rewrite (scan_part "format" f) by auto.
  - cbn [flat_map app keep]. f_equal. now destruct acc.
Qed.

Lemma scan_quality (o acc : QCloudCosOperations) rest :
  qualitySlot (quality o) ->
  Parse.scan (flat_map (Str.split "/") (Push.quality o) ++ rest) false acc
  = Parse.scan rest false
      (set_quality (keep (quality acc) (defined (quality o))) acc).
Proof.
  unfold qualitySlot, Push.quality. intros H.
  destruct (defined (quality o)) as [[n|s]|].
  - destruct n as [| |z|]; try contradiction.
    rewrite (scan_part "quality" (qualityText (QNumber (Int z))))
      by (auto; now apply ToString_noSlash).
    change (Parse.scan rest false
              (Parse.quality (qualityText (QNumber (Int z))) acc)
            = Parse.scan rest false
                (set_quality (Value (QNumber (Int z))) acc)).
    unfold Parse.quality. cbn [qualityText].
    now rewrite Number_ToString.
  - destruct H as [Hnan Hs].
    rewrite (scan_part "quality" (qualityText (QString s))) by auto.
    change (Parse.scan rest false (Parse.quality s acc)
            = Parse.scan rest false (set_quality (Value (QString s)) acc)).
    unfold Parse.quality. now rewrite Hnan.
  - cbn [flat_map app keep]. f_equal. now destruct acc.
Qed.

Lemma read_definedOnly (k : key) (o : QCloudCosOperations) :
  read k (definedOnly o) = read k o.
Proof.
  destruct k; cbn [read definedOnly width height format quality thumbnailMode
                   autoOrient rotate flip iradius rradius rquality lquality
                   ignoreError];
    match goal with |- context [defined ?s] => now destruct s end.
Qed.

Lemma scan_buildParts (o : QCloudCosOperations) :
  roundTrippable o ->
  Parse.scan (flat_map (Str.split "/") (buildParts o)) false noOperations
  = definedOnly o.
Proof.
  intros [].
  unfold buildParts. rewrite !flat_map_app.
  rewrite scan_resize, scan_iradius, scan_rradius, scan_autoOrient,
    scan_rotate, scan_flip, scan_format, scan_quality, scan_rquality,
    scan_lquality by assumption.
  rewrite <- (app_nil_r (flat_map _ (Push.ignoreError o))).
  rewrite scan_ignoreError by assumption.
  reflexivity.
Qed.

(** Parsing what was built gives back every defined property. *)
Lemma parse_build (o : QCloudCosOperations) :
  roundTrippable o ->
  parseImageMogr2 (buildImageMogr2 o) = definedOnly o.
Proof.
  intros Hrt. pose proof (scan_buildParts o Hrt) as Hscan.
  unfold buildImageMogr2.
  destruct (buildParts o) as [|p l] eqn:E.
  - exact Hscan.
  - cbn [List.length Nat.eqb].
    rewrite parse_prefixed.
    now rewrite (split_join "/") by discriminate.
Qed.

(** ** Reflection of the round-trip conditions *)

Lemma plainb_plain (z : Z) : plainb z = true -> plain z.
Proof. unfold plainb, plain. intros H. now apply Z.ltb_lt. Qed.

Lemma integerSlotb_sound (nonneg : bool) (v : slot number) :
  integerSlotb nonneg v = true -> integerSlot nonneg v.
Proof.
  unfold integerSlotb, integerSlot.
  destruct (defined v) as [[| |z|]|]; try discriminate; [|trivial].
  intros H. apply andb_true_iff in H as [Hp Hz].
  split; [now apply plainb_plain|].
  intros ->. simpl in Hz. now apply Z.leb_le.
Qed.

Lemma roundTrips_sound (o : QCloudCosOperations) :
  roundTrips o = true -> roundTrippable o.
Proof.
  unfold roundTrips. intros H.
  repeat (apply andb_true_iff in H as [H ?]).
  constructor; try (now apply integerSlotb_sound).
  - unfold formatSlot. unfold formatSlotb in *.
    destruct (defined (format o)); [|trivial].
    match goal with X : _ && _ = true |- _ =>
      apply andb_true_iff in X as [X1 X2] end.
    split; [now apply negb_true_iff | assumption].
  - unfold qualitySlot. unfold qualitySlotb in *.
    destruct (defined (quality o)) as [[[| |z|]|s]|]; try discriminate;
      try trivial.
    + now apply plainb_plain.
    + now apply andb_true_iff.
  - unfold modeSlot. unfold modeSlotb in *.
    destruct (defined (thumbnailMode o)) as [[]|]; try discriminate;
      try trivial; (split; [discriminate | assumption]).
  - unfold flagSlot. unfold flagSlotb in *.
    destruct (defined (autoOrient o)) as [[]|]; congruence.
  - unfold flagSlot. unfold flagSlotb in *.
    destruct (defined (ignoreError o)) as [[]|]; congruence.
Qed.

(** ** Reading the properties of merged operation sets *)

Lemma In_allKeys (k : key) : In k allKeys.
Proof. destruct k; simpl; tauto. Qed.

Lemma over_absent {A} (s : slot A) : over Absent s = s.
Proof. now destruct s. Qed.

Lemma spread_noOperations (o : QCloudCosOperations) :
  spread noOperations o = o.
Proof.
  destruct o. unfold spread. cbn. now rewrite !over_absent.
Qed.

Lemma defined_over {A} (lo hi : slot A) :
  settledSlot hi = true ->
  defined (over lo hi) = orElse (defined hi) (defined lo).
Proof. now destruct hi. Qed.

Lemma defined_assign {A} (cur v : slot A) :
  defined (assign cur v) = orElse (defined v) (defined cur).
Proof. now destruct v. Qed.

Lemma option_map_orElse {A B} (f : A -> B) (a b : option A) :
  option_map f (orElse a b) = orElse (option_map f a) (option_map f b).
Proof. now destruct a. Qed.

Ltac settled_slots H :=
  unfold settled in H;
  repeat (let H' := fresh "Hs" in apply andb_true_iff in H as [H H']).

(** One property of [{ ...a, ...b }] when [b] has no [undefined] one. *)
Lemma read_spread (k : key) (a b : QCloudCosOperations) :
  settled b = true ->
  read k (spread a b) = orElse (read k b) (read k a).
Proof.
  intros H. settled_slots H.
  destruct k; cbn [read spread width height format quality thumbnailMode
                   autoOrient rotate flip iradius rradius rquality lquality
                   ignoreError];
    rewrite defined_over by assumption; apply option_map_orElse.
Qed.

(** One property after the guarded assignments of [transform]. *)
Lemma read_applyDefined (k : key) (merged operations : QCloudCosOperations) :
  read k (applyDefined merged operations)
  = orElse (read k operations) (read k merged).
Proof.
  destruct k; cbn [read applyDefined width height format quality thumbnailMode
                   autoOrient rotate flip iradius rradius rquality lquality
                   ignoreError];
    rewrite defined_assign; apply option_map_orElse.
Qed.

Lemma settledSlot_over {A} (lo hi : slot A) :
  settledSlot lo = true -> settledSlot hi = true ->
  settledSlot (over lo hi) = true.
Proof. now destruct hi. Qed.

Lemma settled_spread (a b : QCloudCosOperations) :
  settled a = true -> settled b = true -> settled (spread a b) = true.
Proof.
  intros Ha Hb. settled_slots Ha. settled_slots Hb.
  unfold settled, spread.
  cbn [width height format quality thumbnailMode autoOrient rotate flip
       iradius rradius rquality lquality ignoreError].
  repeat (apply andb_true_intro; split); now apply settledSlot_over.
Qed.


(** ** The parser only ever sets values *)

Ltac settle H :=
  settled_slots H; unfold settled;
  cbn [width height format quality thumbnailMode autoOrient rotate flip
       iradius rradius rquality lquality ignoreError
       set_width set_height set_format set_quality set_thumbnailMode
       set_autoOrient set_rotate set_flip set_iradius set_rradius
       set_rquality set_lquality set_ignoreError];
  repeat (apply andb_true_intro; split); (assumption || reflexivity).

Lemma settled_setDims (m : string * string) (o : QCloudCosOperations) :
  settled o = true -> settled (Parse.setDims m o) = true.
Proof.
  intros H. destruct m as [w h]. unfold Parse.setDims.
  destruct (Str.isEmpty w), (Str.isEmpty h); try assumption; settle H.
Qed.

Lemma settled_set_thumbnailMode m (o : QCloudCosOperations) :
  settled o = true -> settled (set_thumbnailMode (Value m) o) = true.
Proof. intros H. settle H. Qed.

Lemma settled_thumbnail (next : string) (o : QCloudCosOperations) :
  settled o = true -> settled (Parse.thumbnail next o) = true.
Proof.
  intros H. unfold Parse.thumbnail.
  destruct (Parse.dimsEnding "!" next), (Parse.dimsEnding ">" next),
    (Parse.dimsEnding "<" next), (Parse.dims next) as [[[w h] r]|];
    auto using settled_set_thumbnailMode, settled_setDims.
Qed.

Lemma settled_crop (next : string) (o : QCloudCosOperations) :
  settled o = true -> settled (Parse.crop next o) = true.
Proof.
  intros H. unfold Parse.crop.
  destruct (Parse.dims next) as [[[w h] r]|];
    auto using settled_set_thumbnailMode, settled_setDims.
Qed.

Lemma settled_step (token : string) (next : option string)
  (o : QCloudCosOperations) :
  settled o = true -> settled (fst (Parse.step token next o)) = true.
Proof.
  intros H. unfold Parse.step, Parse.numeric, Parse.flip, Parse.quality.
  repeat match goal with
         | |- context [if ?c then _ else _] => destruct c
         end;
    cbn [fst]; auto using settled_thumbnail, settled_crop; settle H.
Qed.

Lemma settled_scan (parts : list string) (skip : bool)
  (o : QCloudCosOperations) :
  settled o = true -> settled (Parse.scan parts skip o) = true.
Proof.
  revert skip o. induction parts as [|token rest IH]; intros skip o H.
  - exact H.
  - cbn [Parse.scan]. destruct skip; [now apply IH|].
    pose proof (settled_step token (hd_error rest) o H) as Hstep.
    destruct (Parse.step token (hd_error rest) o) as [o' consumed].
    now apply IH.
Qed.

Lemma settled_parse (segment : string) :
  settled (parseImageMogr2 segment) = true.
Proof.
  unfold parseImageMogr2.
  destruct (Str.isEmpty (Parse.stripPrefix segment)); [reflexivity|].
  now apply settled_scan.
Qed.

(** ** The loop of [extract] *)

Lemma fold_classify (segments : list string) (operations : QCloudCosOperations)
  (pipelineSegments : list string) (hasImageMogr2 : bool) :
  fold_left classify segments (operations, pipelineSegments, hasImageMogr2)
  = (fold_left spread (map parseImageMogr2 (filter isDialect segments))
       operations,
     pipelineSegments ++ filter isForeign segments,
     hasImageMogr2 || existsb isDialect segments).
Proof.
  revert operations pipelineSegments hasImageMogr2.
  induction segments as [|seg rest IH]; intros ops ps has; cbn [fold_left].
  - cbn. now rewrite app_nil_r, orb_false_r.
  - unfold classify at 2. unfold isForeign, isDialect in *.
    cbn [filter existsb map].
    destruct (Str.startsWith "imageMogr2" seg); cbn [negb map fold_left].
    + rewrite IH. now rewrite orb_true_r.
    + rewrite IH, <- app_assoc. reflexivity.
Qed.

(** Some segment is of the dialect or some segment is foreign. *)
Lemma segments_classified (segments : list string) :
  segments <> [] ->
  negb (existsb isDialect segments)
  && (List.length (filter isForeign segments) =? 0)%nat = false.
Proof.
  destruct segments as [|seg rest]; [congruence|]. intros _.
  cbn [existsb filter]. unfold isForeign.
  destruct (isDialect seg); cbn [negb orb andb]; [reflexivity|].
  cbn [List.length Nat.eqb]. apply andb_false_r.
Qed.

Lemma settled_merge (l : list string) (acc : QCloudCosOperations) :
  settled acc = true ->
  settled (fold_left spread (map parseImageMogr2 l) acc) = true.
Proof.
  revert acc. induction l as [|s l IH]; intros acc H; [exact H|].
  cbn [map fold_left]. apply IH.
  apply settled_spread; [exact H | apply settled_parse].
Qed.

(** Merging by spreading is last-write-wins on every property. *)
Lemma read_merge (k : key) (l : list string) (acc : QCloudCosOperations) :
  read k (fold_left spread (map parseImageMogr2 l) acc)
  = orElse (lastWrite k (map parseImageMogr2 l)) (read k acc).
Proof.
  revert acc. induction l as [|s l IH]; intros acc; [reflexivity|].
  cbn [map fold_left lastWrite]. rewrite IH.
  rewrite read_spread by apply settled_parse.
  now destruct (lastWrite k (map parseImageMogr2 l)).
Qed.


(** ** [extract], [generate] and [transform] case by case *)

Section CodecFacts.

Variable new_URL : string -> option URL.

Lemma isCosUrl_parsed (url : UrlLike) (u : URL) :
  asURL new_URL url = Some u ->
  isCosUrl new_URL (UObj u) = isCosUrl new_URL url.
Proof. unfold isCosUrl. cbn [asURL]. now intros ->. Qed.

Lemma extract_run (url : UrlLike) (u : URL) (q : string) :
  asURL new_URL url = Some u ->
  isCosUrl new_URL (UObj u) = true ->
  Uri.decodeURIComponent (Str.slice1 (search u)) = Ret q ->
  Str.isEmpty q = false ->
  extract new_URL url = Ret (Some (extractedFrom u q)).
Proof.
  intros Hu Hcos Hq Hne. unfold extract.
  rewrite Hu, Hcos, Hq. cbn [negb bind]. rewrite Hne.
  rewrite fold_classify. cbn [orb app].
  rewrite segments_classified by apply split_nonempty.
  reflexivity.
Qed.

Lemma extract_inv (url : UrlLike) (b : Extracted.t) :
  extract new_URL url = Ret (Some b) ->
  exists u q,
    asURL new_URL url = Some u
    /\ isCosUrl new_URL (UObj u) = true
    /\ Uri.decodeURIComponent (Str.slice1 (search u)) = Ret q
    /\ Str.isEmpty q = false
    /\ b = extractedFrom u q.
Proof.
  intros H. pose proof H as H0. unfold extract in H0.
  destruct (asURL new_URL url) as [u|] eqn:Hu; [|discriminate].
  destruct (isCosUrl new_URL (UObj u)) eqn:Hcos; [|discriminate].
  destruct (Uri.decodeURIComponent (Str.slice1 (search u))) as [q|e] eqn:Hq;
    [|discriminate].
  cbn [negb bind] in H0.
  destruct (Str.isEmpty q) eqn:Hne; [discriminate|].
  exists u, q. repeat split; try assumption.
  rewrite (extract_run url u q Hu Hcos Hq Hne) in H. congruence.
Qed.

(** [extract] throws exactly when [decodeURIComponent] does, on the query
    of a matching URL. *)
Lemma extract_throws (url : UrlLike) (e : error) :
  extract new_URL url = Throw e <->
  exists u,
    asURL new_URL url = Some u
    /\ isCosUrl new_URL (UObj u) = true
    /\ Uri.decodeURIComponent (Str.slice1 (search u)) = Throw e.
Proof.
  unfold extract. split.
  - intros H.
    destruct (asURL new_URL url) as [u|]; [|discriminate].
    destruct (isCosUrl new_URL (UObj u)) eqn:Hcos; [|discriminate].
    destruct (Uri.decodeURIComponent (Str.slice1 (search u))) as [q|e'] eqn:Hq.
    + cbn [negb bind] in H.
      destruct (Str.isEmpty q); [discriminate|].
      destruct (fold_left classify (Str.split "|" q) (noOperations, [], false))
        as [[o p] h].
      destruct (negb h && (List.length p =? 0)%nat); discriminate.
    + cbn [negb bind] in H. exists u. repeat split; congruence.
  - intros (u & -> & -> & ->). reflexivity.
Qed.

Lemma extract_not_cos (url : UrlLike) :
  isCosUrl new_URL url = false -> extract new_URL url = Ret None.
Proof.
  intros H. unfold extract.
  destruct (asURL new_URL url) as [u|] eqn:Hu; [|reflexivity].
  now rewrite (isCosUrl_parsed url u Hu), H.
Qed.

Lemma generate_not_cos (url : UrlLike) (operations : QCloudCosOperations)
  (options : option QCloudCosOptions) (pipelineSegments : option (list string)) :
  isCosUrl new_URL url = false ->
  generate new_URL url operations options pipelineSegments = toString url.
Proof.
  intros H. unfold generate.
  destruct (asURL new_URL url) as [u|] eqn:Hu; [|reflexivity].
  now rewrite (isCosUrl_parsed url u Hu), H.
Qed.

Lemma generate_cos (url : UrlLike) (u : URL) (operations : QCloudCosOperations)
  (options : option QCloudCosOptions) (pipelineSegments : option (list string)) :
  asURL new_URL url = Some u ->
  isCosUrl new_URL (UObj u) = true ->
  generate new_URL url operations options pipelineSegments
  = withQuery (origin u ++ pathname u)
      (buildImageMogr2 (spread (ofOptions options) operations))
      (given pipelineSegments).
Proof.
  intros Hu Hcos. unfold generate, withQuery, dialectPart, given.
  rewrite Hu, Hcos. cbn [negb].
  destruct (Str.isEmpty (buildImageMogr2 (spread (ofOptions options) operations)));
    destruct pipelineSegments as [[|s l]|]; reflexivity.
Qed.

Lemma transform_run (url : UrlLike) (b : Extracted.t)
  (operations : QCloudCosOperations) (options : option QCloudCosOptions) :
  extract new_URL url = Ret (Some b) ->
  transform new_URL url operations options
  = Ret (generate new_URL (UStr (Extracted.src b))
           (mergedOperations options (Extracted.operations b) operations)
           None (Some (Extracted.pipelineSegments b))).
Proof. intros H. unfold transform. now rewrite H. Qed.

Lemma transform_fresh (url : UrlLike)
  (operations : QCloudCosOperations) (options : option QCloudCosOptions) :
  extract new_URL url = Ret None ->
  transform new_URL url operations options
  = Ret (generate new_URL url operations options None).
Proof. intros H. unfold transform. now rewrite H. Qed.

(** On a URL whose base is accepted again, [transform] writes the merged
    operations before the segments that [extract] kept. *)
Lemma transform_stable (url : UrlLike) (u : URL) (q : string)
  (operations : QCloudCosOperations) (options : option QCloudCosOptions) :
  asURL new_URL url = Some u ->
  isCosUrl new_URL (UObj u) = true ->
  Uri.decodeURIComponent (Str.slice1 (search u)) = Ret q ->
  Str.isEmpty q = false ->
  stable new_URL u = true ->
  transform new_URL url operations options
  = Ret (withQuery (origin u ++ pathname u)
           (buildImageMogr2
              (mergedOperations options
                 (Extracted.operations (extractedFrom u q)) operations))
           (filter isForeign (Str.split "|" q))).
Proof.
  intros Hu Hcos Hq Hne Hst.
  rewrite (transform_run url _ _ _ (extract_run url u q Hu Hcos Hq Hne)).
  unfold stable in Hst.
  destruct (new_URL (origin u ++ pathname u)) as [u'|] eqn:Hu'; [|discriminate].
  apply andb_true_iff in Hst as [Hcos' Heq]. apply String.eqb_eq in Heq.
  rewrite (generate_cos _ u') by assumption.
  cbn [ofOptions given extractedFrom Extracted.pipelineSegments].
  now rewrite spread_noOperations, Heq.
Qed.

(** The revision without pipeline. *)

Lemma earlier_extract_not_cos (url : UrlLike) :
  isCosUrl new_URL url = false -> Earlier.extract new_URL url = Ret None.
Proof.
  intros H. unfold Earlier.extract.
  destruct (asURL new_URL url) as [u|] eqn:Hu; [|reflexivity].
  now rewrite (isCosUrl_parsed url u Hu), H.
Qed.

Lemma earlier_generate_not_cos (url : UrlLike) (operations : QCloudCosOperations) :
  isCosUrl new_URL url = false ->
  Earlier.generate new_URL url operations = toString url.
Proof.
  intros H. unfold Earlier.generate.
  destruct (asURL new_URL url) as [u|] eqn:Hu; [|reflexivity].
  now rewrite (isCosUrl_parsed url u Hu), H.
Qed.

Lemma earlier_generate_cos (url : UrlLike) (u : URL)
  (operations : QCloudCosOperations) :
  asURL new_URL url = Some u ->
  isCosUrl new_URL (UObj u) = true ->
  Earlier.generate new_URL url operations
  = withQuery (origin u ++ pathname u) (buildImageMogr2 operations) [].
Proof.
  intros Hu Hcos. unfold Earlier.generate, withQuery, dialectPart.
  rewrite Hu, Hcos. cbn [negb].
  destruct (Str.isEmpty (buildImageMogr2 operations)); reflexivity.
Qed.

Lemma earlier_transform_run (url : UrlLike) (b : Earlier.Extracted)
  (operations : QCloudCosOperations) :
  Earlier.extract new_URL url = Ret (Some b) ->
  Earlier.transform new_URL url operations
  = Ret (Earlier.generate new_URL (UStr (Earlier.src b))
           (applyDefined (spread noOperations (Earlier.operations b))
              operations)).
Proof. intros H. unfold Earlier.transform. now rewrite H. Qed.

Lemma earlier_extract_settled (url : UrlLike) (b : Earlier.Extracted) :
  Earlier.extract new_URL url = Ret (Some b) ->
  settled (Earlier.operations b) = true.
Proof.
  unfold Earlier.extract. intros H.
  destruct (asURL new_URL url) as [u|]; [|discriminate].
  destruct (negb (isCosUrl new_URL (UObj u))); [discriminate|].
  destruct (Uri.decodeURIComponent (Str.slice1 (search u))) as [q|e];
    [|discriminate].
  cbn [bind] in H.
  destruct (negb (Str.startsWith "imageMogr2" q)); [discriminate|].
  injection H as <-. apply settled_parse.
Qed.

End CodecFacts.


(** ** Precedence *)

Lemma read_merged (k : key) (D : option QCloudCosOptions)
  (E V : QCloudCosOperations) :
  settled E = true ->
  read k (mergedOperations D E V) = layered k V E D.
Proof.
  intros HE. unfold mergedOperations, layered.
  now rewrite read_applyDefined, read_spread.
Qed.

Lemma settled_extracted (u : URL) (q : string) :
  settled (Extracted.operations (extractedFrom u q)) = true.
Proof. apply settled_merge. reflexivity. Qed.

(** C1. In [transform], when [extract] finds the operations [E] on the URL,
    the operation set that is serialized into the output gives every
    property [k] the override [V[k]] when it is defined, otherwise [E[k]]
    when it is defined, otherwise the default [D[k]]; an override that is
    left undefined clears nothing beneath it.  The set is the one handed to
    [generate], which serializes it unchanged, and the output is the base
    URL with that serialization whenever the base URL is accepted again by
    the URL constructor.  The revision without defaults does the same with
    two layers. *)
Theorem C1_transform_precedence (new_URL : string -> option URL)
  (url : UrlLike) (V : QCloudCosOperations) (D : option QCloudCosOptions)
  (b : Extracted.t) :
  extract new_URL url = Ret (Some b) ->
  let E := Extracted.operations b in
  let merged := mergedOperations D E V in
  transform new_URL url V D
  = Ret (generate new_URL (UStr (Extracted.src b)) merged None
           (Some (Extracted.pipelineSegments b)))
  /\ spread (ofOptions None) merged = merged
  /\ (forall u',
        new_URL (Extracted.src b) = Some u' ->
        isCosUrl new_URL (UObj u') = true ->
        transform new_URL url V D
        = Ret (withQuery (origin u' ++ pathname u') (buildImageMogr2 merged)
                 (Extracted.pipelineSegments b)))
  /\ (forall k, read k merged = layered k V E D)
  /\ (forall k, read k V = None ->
                read k merged = orElse (read k E) (read k (ofOptions D)))
  /\ (forall b',
        Earlier.extract new_URL url = Ret (Some b') ->
        let E' := Earlier.operations b' in
        let merged' := applyDefined (spread noOperations E') V in
        Earlier.transform new_URL url V
        = Ret (Earlier.generate new_URL (UStr (Earlier.src b')) merged')
        /\ forall k, read k merged' = orElse (read k V) (read k E')).
Proof.
  intros Hex E merged.
  destruct (extract_inv new_URL url b Hex) as (u & q & _ & _ & _ & _ & Hb).
  assert (HE : settled E = true) by (subst b; apply settled_extracted).
  assert (Hrun := transform_run new_URL url b V D Hex).
  split; [exact Hrun|].
  split; [apply spread_noOperations|].
  split.
  { intros u' Hu' Hcos'. rewrite Hrun.
    rewrite (generate_cos new_URL (UStr (Extracted.src b)) u') by assumption.
    cbn [ofOptions given]. now rewrite spread_noOperations. }
  split; [intros k; now apply read_merged|].
  split.
  { intros k Hk. unfold merged. rewrite (read_merged k D E V HE).
    unfold layered. now rewrite Hk. }
  intros b' Hex' E' merged'.
  split; [now apply earlier_transform_run|].
  intros k. unfold merged'.
  now rewrite read_applyDefined, spread_noOperations.
Qed.

Lemma C1_transform_precedence_witness :
  let url := UStr Example.processed in
  let V := Example.ops (Some 800%Z) None in
  let D := Some Example.defaults in
  let b := extractedFrom Example.parsed Example.query in
  extract Sample.new_URL url = Ret (Some b)
  /\ (forall k, read k (mergedOperations D (Extracted.operations b) V)
                = layered k V (Extracted.operations b) D)
  /\ transform Sample.new_URL url V D
     = Ret (Example.base ++ "?imageMogr2/thumbnail/800x/auto-orient/format/jpg/quality/80|watermark/2/text/AA|watermark/1/dx/5")%string.
Proof.
  intros url V D b.
  assert (Hex : extract Sample.new_URL url = Ret (Some b))
    by (vm_compute; reflexivity).
  destruct (C1_transform_precedence Sample.new_URL url V D b Hex)
    as (_ & _ & Hout & Hread & _).
  split; [exact Hex|]. split; [exact Hread|].
  rewrite (Hout Example.parsedBase) by (vm_compute; reflexivity).
  vm_compute. reflexivity.
Defined.

(** ** Pipelines *)

(** C3. For a matching URL whose decoded query [q] is not empty, [extract]
    splits [q] at every [|], parses each segment that starts with the
    namespace keyword and merges the results so that, for every property,
    the last segment that sets it wins; the other segments are returned
    as they are and in their order; and [src] is the origin followed by
    the path, without the query and the fragment. *)
Theorem C3_extract_pipeline (new_URL : string -> option URL)
  (url : UrlLike) (u : URL) (q : string) :
  asURL new_URL url = Some u ->
  isCosUrl new_URL (UObj u) = true ->
  Uri.decodeURIComponent (Str.slice1 (search u)) = Ret q ->
  Str.isEmpty q = false ->
  let segments := Str.split "|" q in
  exists b,
    extract new_URL url = Ret (Some b)
    /\ Extracted.src b = (origin u ++ pathname u)%string
    /\ Extracted.pipelineSegments b = filter isForeign segments
    /\ Extracted.options b = noOptions
    /\ forall k,
         read k (Extracted.operations b)
         = lastWrite k (map parseImageMogr2 (filter isDialect segments)).
Proof.
  intros Hu Hcos Hq Hne segments. exists (extractedFrom u q).
  split; [now apply extract_run|].
  repeat split. intros k.
  cbn [extractedFrom Extracted.operations]. rewrite read_merge.
  fold segments.
  destruct (lastWrite k (map parseImageMogr2 (filter isDialect segments)));
    [reflexivity | now destruct k].
Qed.

Lemma C3_extract_pipeline_witness :
  let url := UStr Example.processed in
  asURL Sample.new_URL url = Some Example.parsed
  /\ isCosUrl Sample.new_URL (UObj Example.parsed) = true
  /\ Uri.decodeURIComponent (Str.slice1 (search Example.parsed))
     = Ret Example.query
  /\ exists b,
       extract Sample.new_URL url = Ret (Some b)
       /\ Extracted.src b = Example.base
       /\ Extracted.pipelineSegments b
          = ["watermark/2/text/AA"; "watermark/1/dx/5"]%string
       /\ read Kwidth (Extracted.operations b) = Some (VNumber (Int 200))
       /\ read Kformat (Extracted.operations b) = Some (VString "jpg")
       /\ read KautoOrient (Extracted.operations b) = Some (VBoolean true).
Proof.
  intros url.
  assert (Hu : asURL Sample.new_URL url = Some Example.parsed)
    by (vm_compute; reflexivity).
  assert (Hcos : isCosUrl Sample.new_URL (UObj Example.parsed) = true)
    by (vm_compute; reflexivity).
  assert (Hq : Uri.decodeURIComponent (Str.slice1 (search Example.parsed))
               = Ret Example.query) by (vm_compute; reflexivity).
  repeat (split; [assumption|]).
  destruct (C3_extract_pipeline Sample.new_URL url Example.parsed
              Example.query Hu Hcos Hq eq_refl)
    as (b & Hex & Hsrc & Hsegs & _ & Hops).
  exists b. split; [exact Hex|].
  rewrite Hsrc, Hsegs, !Hops.
  repeat split; vm_compute; reflexivity.
Defined.

Lemma withQuery_segments (baseUrl processing : string) (segments : list string) :
  segments <> [] ->
  withQuery baseUrl processing segments
  = (baseUrl ++ "?" ++ Str.join "|" (dialectPart processing ++ segments))%string.
Proof.
  intros H. unfold withQuery.
  destruct (dialectPart processing ++ segments) eqn:E; [|reflexivity].
  apply app_eq_nil in E as [_ E]. contradiction.
Qed.

Lemma filter_exists {A} (p : A -> bool) (l : list A) :
  existsb p l = true -> filter p l <> [].
Proof.
  induction l as [|a l IH]; cbn; [discriminate|].
  destruct (p a); [discriminate | exact IH].
Qed.

(** What does hold for foreign segments.  A matching URL whose query,
    once percent-decoded, is not empty and has a foreign segment, the
    base URL being accepted again by the URL constructor: the output of
    [transform] is the base URL, a [?], the freshly serialized segment if
    there is one, and then every foreign segment of the decoded query, as
    decoded and in its order, all joined by [|]; [generate] given the
    same segments writes them the same way after its own serialization,
    on the base URL as on the URL itself. *)
Lemma decoded_segments_written (new_URL : string -> option URL)
  (url : UrlLike) (u : URL) (q : string)
  (V ops : QCloudCosOperations) (D opts : option QCloudCosOptions) :
  asURL new_URL url = Some u ->
  isCosUrl new_URL (UObj u) = true ->
  Uri.decodeURIComponent (Str.slice1 (search u)) = Ret q ->
  Str.isEmpty q = false ->
  stable new_URL u = true ->
  existsb isForeign (Str.split "|" q) = true ->
  let foreign := filter isForeign (Str.split "|" q) in
  let baseUrl := (origin u ++ pathname u)%string in
  let merged :=
    mergedOperations D (Extracted.operations (extractedFrom u q)) V in
  transform new_URL url V D
  = Ret (baseUrl ++ "?"
         ++ Str.join "|" (dialectPart (buildImageMogr2 merged) ++ foreign))%string
  /\ generate new_URL (UStr baseUrl) ops opts (Some foreign)
     = (baseUrl ++ "?"
        ++ Str.join "|"
             (dialectPart (buildImageMogr2 (spread (ofOptions opts) ops))
              ++ foreign))%string
  /\ generate new_URL url ops opts (Some foreign)
     = generate new_URL (UStr baseUrl) ops opts (Some foreign).
Proof.
  intros Hu Hcos Hq Hne Hst Hforeign foreign baseUrl merged.
  assert (Hf : foreign <> []) by now apply filter_exists.
  split.
  - rewrite (transform_stable new_URL url u q V D) by assumption.
    now rewrite withQuery_segments.
  - unfold stable in Hst. fold baseUrl in Hst.
    destruct (new_URL baseUrl) as [u'|] eqn:Hu'; [|discriminate].
    apply andb_true_iff in Hst as [Hcos' Heq]. apply String.eqb_eq in Heq.
    rewrite (generate_cos new_URL url u) by assumption.
    rewrite (generate_cos new_URL (UStr baseUrl) u') by assumption.
    cbn [given]. rewrite Heq. fold baseUrl.
    now rewrite withQuery_segments.
Qed.


(** C4, at a URL whose foreign segment holds an escaped percent sign.
    [extract] decodes the whole query once and [generate] writes the
    segments back as they are, so the segment [watermark/2/text/50%25] of
    the input is [watermark/2/text/50%] in the output of [transform], and
    in that of [generate] given the extracted segments: the segment is
    not in the output.  That output is no URL the code can read again:
    [extract] and [transform] throw on it.  On a URL object of a matching
    host whose origin is opaque, [transform] returns the text [null] and
    the path, without any segment.  In [src/index.ts], [transform] writes
    no foreign segment at all. *)
Theorem C4_escaped_segment_rewritten :
  let segment := "watermark/2/text/50%25"%string in
  let output :=
    (Example.base ++ "?imageMogr2/format/jpg|watermark/2/text/50%")%string in
  In segment (filter isForeign (writtenSegments Sample.new_URL Example.escaped))
  /\ transform Sample.new_URL (UStr Example.escaped) noOperations None
     = Ret output
  /\ (exists b,
        extract Sample.new_URL (UStr Example.escaped) = Ret (Some b)
        /\ Extracted.pipelineSegments b = ["watermark/2/text/50%"]%string
        /\ generate Sample.new_URL (UStr (Extracted.src b))
             (Extracted.operations b) None
             (Some (Extracted.pipelineSegments b))
           = output)
  /\ writtenSegments Sample.new_URL output
     = ["imageMogr2/format/jpg"; "watermark/2/text/50%"]%string
  /\ ~ In segment (writtenSegments Sample.new_URL output)
  /\ extract Sample.new_URL (UStr output) = Throw URIError
  /\ transform Sample.new_URL (UStr output) noOperations None
     = Throw URIError
  /\ isCosUrl Sample.new_URL (UObj Example.opaque) = true
  /\ transform Sample.new_URL (UObj Example.opaque) noOperations None
     = Ret "null/p.jpg"%string
  /\ Earlier.transform Sample.new_URL (UStr Example.processed) noOperations
     = Ret (Example.base ++ "?imageMogr2/thumbnail/200x/auto-orient")%string.
Proof.
  intros segment output.
  split; [vm_compute; tauto|].
  split; [vm_compute; reflexivity|].
  split.
  { eexists. split; [vm_compute; reflexivity|].
    split; vm_compute; reflexivity. }
  split; [vm_compute; reflexivity|].
  split; [vm_compute; intros [H|[H|[]]]; discriminate H|].
  repeat split; vm_compute; reflexivity.
Qed.

(** ** URLs of other hosts *)

(** C6. A URL that does not parse, or whose host does not match the
    pattern of the provider: [generate] returns its argument as a string,
    unchanged, whatever the operations, defaults and segments, and so does
    [transform]; the same in the revision without defaults. *)
Theorem C6_non_cos_pass_through (new_URL : string -> option URL)
  (url : UrlLike) (operations : QCloudCosOperations)
  (options : option QCloudCosOptions) (pipelineSegments : option (list string)) :
  isCosUrl new_URL url = false ->
  generate new_URL url operations options pipelineSegments = toString url
  /\ transform new_URL url operations options = Ret (toString url)
  /\ Earlier.generate new_URL url operations = toString url
  /\ Earlier.transform new_URL url operations = Ret (toString url).
Proof.
  intros H. split; [now apply generate_not_cos|]. split.
  - rewrite transform_fresh by now apply extract_not_cos.
    now rewrite generate_not_cos.
  - split; [now apply earlier_generate_not_cos|].
    unfold Earlier.transform. rewrite earlier_extract_not_cos by assumption.
    cbn [bind]. now rewrite earlier_generate_not_cos.
Qed.

Lemma C6_non_cos_pass_through_witness :
  isCosUrl Sample.new_URL (UStr Example.other) = false
  /\ generate Sample.new_URL (UStr Example.other)
       (Example.ops (Some 10%Z) None) None None = Example.other
  /\ transform Sample.new_URL (UStr Example.other)
       (Example.ops (Some 10%Z) None) (Some Example.defaults)
     = Ret Example.other
  /\ isCosUrl Sample.new_URL (UStr "not-a-url") = false
  /\ transform Sample.new_URL (UStr "not-a-url")
       (Example.ops (Some 10%Z) None) None = Ret "not-a-url"%string.
Proof.
  assert (H1 : isCosUrl Sample.new_URL (UStr Example.other) = false)
    by (vm_compute; reflexivity).
  assert (H2 : isCosUrl Sample.new_URL (UStr "not-a-url") = false)
    by (vm_compute; reflexivity).
  split; [exact H1|].
  split; [apply (C6_non_cos_pass_through Sample.new_URL (UStr Example.other)
                   (Example.ops (Some 10%Z) None) None None H1)|].
  split; [apply (C6_non_cos_pass_through Sample.new_URL (UStr Example.other)
                   (Example.ops (Some 10%Z) None) (Some Example.defaults)
                   None H1)|].
  split; [exact H2|].
  apply (C6_non_cos_pass_through Sample.new_URL (UStr "not-a-url")
           (Example.ops (Some 10%Z) None) None None H2).
Defined.

(** ** The serializer *)

Lemma present_cons {A} (x : option A) (l : list (option A)) :
  Spec.present (x :: l)
  = match x with Some a => [a] | None => [] end ++ Spec.present l.
Proof. now destruct x. Qed.

Lemma resize_spec (o : QCloudCosOperations) :
  Push.resize o
  = match Spec.resizeToken o with Some t => [t] | None => [] end.
Proof.
  unfold Push.resize, Spec.resizeToken, Spec.dimension.
  destruct (defined (width o)), (defined (height o)),
    (defined (thumbnailMode o)) as [[]|]; reflexivity.
Qed.

Lemma numeric_spec (name : string) (v : slot number) :
  Push.numeric name v
  = match Spec.numberToken name v with Some t => [t] | None => [] end.
Proof. unfold Push.numeric, Spec.numberToken. now destruct (defined v). Qed.

(** The parts pushed by the code are the tokens of the design document,
    the format token being there for a non-empty format only. *)
Lemma buildParts_spec (o : QCloudCosOperations) :
  buildParts o = Spec.present (Spec.tokens Spec.formatTokenTruthy o).
Proof.
  unfold Spec.tokens. rewrite !present_cons. cbn [Spec.present].
  rewrite app_nil_r. unfold buildParts.
  rewrite resize_spec, !numeric_spec.
  repeat f_equal.
  - unfold Push.autoOrient, Spec.flagToken.
    now destruct (defined (autoOrient o)) as [[]|].
  - unfold Push.flip. now destruct (defined (flip o)).
  - unfold Push.format, Spec.formatTokenTruthy.
    destruct (defined (format o)) as [f|]; [|reflexivity].
    now destruct (Str.isEmpty f).
  - unfold Push.quality. now destruct (defined (quality o)).
  - unfold Push.ignoreError, Spec.flagToken.
    now destruct (defined (ignoreError o)) as [[]|].
Qed.

Lemma read_none (k : key) (o : QCloudCosOperations) :
  negb (isSome (read k o)) = true -> read k o = None.
Proof. now destruct (read k o). Qed.

Lemma option_map_none {A B} (f : A -> B) (x : option A) :
  option_map f x = None -> x = None.
Proof. now destruct x. Qed.

(** Nothing is pushed when nothing but the mode is defined. *)
Lemma buildParts_mode_alone (o : QCloudCosOperations) :
  onlyThumbnailMode o = true -> buildParts o = [].
Proof.
  intros H. unfold onlyThumbnailMode in H.
  rewrite forallb_forall in H.
  assert (Hk : forall k, k <> KthumbnailMode -> read k o = None).
  { intros k Hk. specialize (H k (In_allKeys k)).
    destruct k; try (now apply read_none); congruence. }
  pose proof (option_map_none _ _ (Hk Kwidth ltac:(discriminate))) as Hw.
  pose proof (option_map_none _ _ (Hk Kheight ltac:(discriminate))) as Hh.
  pose proof (option_map_none _ _ (Hk Kformat ltac:(discriminate))) as Hf.
  pose proof (option_map_none _ _ (Hk Kquality ltac:(discriminate))) as Hq.
  pose proof (option_map_none _ _ (Hk KautoOrient ltac:(discriminate))) as Ha.
  pose proof (option_map_none _ _ (Hk Krotate ltac:(discriminate))) as Hr.
  pose proof (option_map_none _ _ (Hk Kflip ltac:(discriminate))) as Hfl.
  pose proof (option_map_none _ _ (Hk Kiradius ltac:(discriminate))) as Hi.
  pose proof (option_map_none _ _ (Hk Krradius ltac:(discriminate))) as Hrr.
  pose proof (option_map_none _ _ (Hk Krquality ltac:(discriminate))) as Hrq.
  pose proof (option_map_none _ _ (Hk Klquality ltac:(discriminate))) as Hlq.
  pose proof (option_map_none _ _ (Hk KignoreError ltac:(discriminate))) as Hie.
  unfold buildParts, Push.resize, Push.numeric, Push.autoOrient, Push.flip,
    Push.format, Push.quality, Push.ignoreError.
  now rewrite Hw, Hh, Hf, Hq, Ha, Hr, Hfl, Hi, Hrr, Hrq, Hlq, Hie.
Qed.

Lemma noFieldSet_mode_alone (o : QCloudCosOperations) :
  Spec.noFieldSet o = true -> onlyThumbnailMode o = true.
Proof.
  unfold Spec.noFieldSet, onlyThumbnailMode. rewrite !forallb_forall.
  intros H k Hin. specialize (H k Hin). now destruct k.
Qed.

Lemma build_of_parts (o : QCloudCosOperations) :
  buildImageMogr2 o
  = match buildParts o with
    | [] => EmptyString
    | ts => ("imageMogr2/" ++ Str.join "/" ts)%string
    end.
Proof. unfold buildImageMogr2. now destruct (buildParts o). Qed.

(** C7, amended.  [buildImageMogr2] returns the empty string when no
    token is produced, which is the case when no field is set, and
    otherwise the namespace keyword, a [/], and the tokens joined by [/] in
    the fixed order resize or crop, iradius, rradius, auto-orient, rotate,
    flip, format, quality, rquality, lquality, ignore-error/1: the resize
    token when a width or a height is present (the mode choosing its form,
    [fit] by default, a missing dimension printed as nothing), a number or
    flip or quality token when its field is present, a flag token when the
    flag is true, and the format token when the format is a non-empty
    string. *)
Theorem C7_build_tokens_in_order (o : QCloudCosOperations) :
  buildImageMogr2 o = Spec.serializeAmended o
  /\ (Spec.noFieldSet o = false \/ buildImageMogr2 o = EmptyString).
Proof.
  split.
  - rewrite build_of_parts. unfold Spec.serializeAmended.
    now rewrite buildParts_spec.
  - destruct (Spec.noFieldSet o) eqn:E; [right | now left].
    rewrite build_of_parts.
    now rewrite (buildParts_mode_alone o (noFieldSet_mode_alone o E)).
Qed.

(** C7 as stated fails: with only the thumbnail mode set, a field is set
    and yet the result is the empty string, not the keyword and a slash;
    with an empty format, the field is present and yet no format token is
    written. *)
Lemma C7_build_counterexample :
  let modeOnly := set_thumbnailMode (Value cover) noOperations in
  let emptyFormat := set_format (Value EmptyString) noOperations in
  (buildImageMogr2 modeOnly = EmptyString
   /\ Spec.serialize modeOnly = "imageMogr2/"%string)
  /\ (buildImageMogr2 emptyFormat = EmptyString
      /\ Spec.serialize emptyFormat = "imageMogr2/format/"%string).
Proof. repeat split; vm_compute; reflexivity. Qed.

(** C9. An operation set in which nothing but [thumbnailMode] is defined
    is serialized to the empty string, and [generate], on a matching URL,
    without defaults and without pipeline segments, returns for it the
    base URL alone: origin and path, no query.  The revision of [generate]
    with two arguments does the same. *)
Theorem C9_thumbnailMode_alone (new_URL : string -> option URL)
  (o : QCloudCosOperations) :
  onlyThumbnailMode o = true ->
  buildImageMogr2 o = EmptyString
  /\ forall (url : UrlLike) (u : URL),
       asURL new_URL url = Some u ->
       isCosUrl new_URL (UObj u) = true ->
       generate new_URL url o None None = (origin u ++ pathname u)%string
       /\ generate new_URL url o None (Some [])
          = (origin u ++ pathname u)%string
       /\ Earlier.generate new_URL url o = (origin u ++ pathname u)%string.
Proof.
  intros Ho.
  assert (Hb : buildImageMogr2 o = EmptyString).
  { rewrite build_of_parts. now rewrite buildParts_mode_alone. }
  split; [exact Hb|]. intros url u Hu Hcos.
  rewrite !(generate_cos new_URL url u) by assumption.
  rewrite (earlier_generate_cos new_URL url u) by assumption.
  cbn [ofOptions given]. rewrite spread_noOperations, Hb.
  repeat split.
Qed.

Lemma C9_thumbnailMode_alone_witness :
  let o := set_thumbnailMode (Value cover) noOperations in
  onlyThumbnailMode o = true
  /\ buildImageMogr2 o = EmptyString
  /\ generate Sample.new_URL (UStr Example.processed) o None None
     = Example.base.
Proof.
  intros o.
  assert (Ho : onlyThumbnailMode o = true) by reflexivity.
  split; [exact Ho|].
  destruct (C9_thumbnailMode_alone Sample.new_URL o Ho) as [Hb Hg].
  split; [exact Hb|].
  destruct (Hg (UStr Example.processed) Example.parsed) as (Hg1 & _);
    [vm_compute; reflexivity | vm_compute; reflexivity | exact Hg1].
Defined.

(** ** The parser *)

(** C8. The prefix [imageMogr2] is stripped whether or not a slash follows
    it: for every [s], parsing [imageMogr2] directly followed by [s] gives
    the operation set of parsing [imageMogr2/] followed by [s]. *)
Theorem C8_prefix_without_slash (s : string) :
  parseImageMogr2 ("imageMogr2" ++ s) = parseImageMogr2 ("imageMogr2/" ++ s).
Proof.
  rewrite parse_prefixed.
  destruct s as [|c r]; [reflexivity|].
  unfold parseImageMogr2, Parse.stripPrefix.
  change (Str.startsWith "imageMogr2" ("imageMogr2" ++ String c r)) with true.
  cbv iota.
  change (String.length ("imageMogr2" ++ String c r) - 10)%nat
    with (String.length (String c r)).
  change (String.substring 10 (String.length (String c r))
            ("imageMogr2" ++ String c r))
    with (String.substring 0 (String.length (String c r)) (String c r)).
  rewrite substring_all.
  destruct (Ascii.eqb c "/") eqn:Hc; [|reflexivity].
  apply Ascii.eqb_eq in Hc. subst c.
  cbn [Str.split]. rewrite Ascii.eqb_refl.
  destruct r; reflexivity.
Qed.


(** ** The two flags *)

(** A flag token is among the parts exactly when the flag is [true]. *)
Lemma flag_token_in (f : flag) (o : QCloudCosOperations) :
  In (flagToken f) (buildParts o) <-> defined (flagOf f o) = Some true.
Proof.
  unfold buildParts. rewrite !in_app_iff.
  unfold Push.resize, Push.numeric, Push.autoOrient, Push.flip, Push.format,
    Push.quality, Push.ignoreError.
  split.
  - intros H.
    repeat (destruct H as [H|H]);
      destruct f; cbn [flagToken flagOf] in *;
      repeat match type of H with
             | context [match ?x with _ => _ end] => destruct x
             | context [if ?x then _ else _] => destruct x
             end;
      cbn [In] in H;
      try contradiction;
      try (destruct H as [H|[]]; try discriminate H);
      reflexivity.
  - intros H. destruct f; cbn [flagToken flagOf] in *; rewrite H;
      cbn [In]; intuition.
Qed.

Lemma defined_value {A} (s : slot A) (a : A) :
  defined s = Some a -> s = Value a.
Proof. destruct s; cbn; congruence. Qed.

Lemma flag_applyDefined (f : flag) (merged operations : QCloudCosOperations) :
  defined (flagOf f (applyDefined merged operations))
  = orElse (defined (flagOf f operations)) (defined (flagOf f merged)).
Proof. destruct f; cbn [flagOf applyDefined autoOrient ignoreError];
         apply defined_assign. Qed.

Lemma flag_spread (f : flag) (a b : QCloudCosOperations) (v : bool) :
  defined (flagOf f b) = Some v -> defined (flagOf f (spread a b)) = Some v.
Proof.
  intros H. apply defined_value in H.
  destruct f; cbn [flagOf spread autoOrient ignoreError] in *; now rewrite H.
Qed.

(** What an override of a flag that the base has at [true] does. *)
Lemma flag_override (f : flag) (existing V : QCloudCosOperations) :
  defined (flagOf f existing) = Some true ->
  let merged := applyDefined existing V in
  (defined (flagOf f V) = Some false ->
     defined (flagOf f merged) = Some false
     /\ ~ In (flagToken f) (buildParts merged))
  /\ (defined (flagOf f V) = None ->
        defined (flagOf f merged) = Some true
        /\ In (flagToken f) (buildParts merged)).
Proof.
  intros HE merged. split; intros HV.
  - assert (Hm : defined (flagOf f merged) = Some false).
    { unfold merged. now rewrite flag_applyDefined, HV. }
    split; [exact Hm|]. rewrite flag_token_in. congruence.
  - assert (Hm : defined (flagOf f merged) = Some true).
    { unfold merged. now rewrite flag_applyDefined, HV. }
    split; [exact Hm|]. now rewrite flag_token_in.
Qed.

(** ** Round trip *)

Lemma keep_settled {A} (s : slot A) :
  settledSlot s = true -> keep Absent (defined s) = s.
Proof. destruct s; cbn; congruence. Qed.

Lemma definedOnly_settled (o : QCloudCosOperations) :
  settled o = true -> definedOnly o = o.
Proof.
  intros H. settled_slots H. destruct o. unfold definedOnly. cbn in *.
  f_equal; now apply keep_settled.
Qed.

(** C2, amended.  For every operation set whose numeric fields are
    integers that print as plain digits (fewer than twenty-two, width and
    height not negative), whose format is not empty and has no [/], whose
    quality is such an integer or a string that is not a numeric literal
    and has no [/] (the forced form with a trailing [!] is one), whose
    flags are [true] when they are set, and whose thumbnail mode, when
    set, is not [fit] and comes with a width or a height: parsing what
    [buildImageMogr2] writes gives back every field as it was. *)
Theorem C2_round_trip (o : QCloudCosOperations) :
  roundTrips o = true ->
  parseImageMogr2 (buildImageMogr2 o) = definedOnly o
  /\ (forall k, read k (parseImageMogr2 (buildImageMogr2 o)) = read k o)
  /\ (settled o = true -> parseImageMogr2 (buildImageMogr2 o) = o).
Proof.
  intros H. pose proof (parse_build o (roundTrips_sound o H)) as Hp.
  split; [exact Hp|]. split.
  - intros k. rewrite Hp. apply read_definedOnly.
  - intros Hs. rewrite Hp. now apply definedOnly_settled.
Qed.


Lemma C2_round_trip_witness :
  roundTrips RoundTrip.full = true
  /\ buildImageMogr2 RoundTrip.full
     = "imageMogr2/crop/640x480/iradius/20/auto-orient/rotate/-90/flip/horizontal/format/webp/quality/90!/rquality/80/ignore-error/1"%string
  /\ parseImageMogr2 (buildImageMogr2 RoundTrip.full) = RoundTrip.full.
Proof.
  assert (H : roundTrips RoundTrip.full = true) by (vm_compute; reflexivity).
  split; [exact H|]. split; [vm_compute; reflexivity|].
  destruct (C2_round_trip RoundTrip.full H) as (_ & _ & Hs).
  apply Hs. reflexivity.
Defined.

(** C2 as stated fails: a set that names the mode [fit] comes back
    without its mode. *)
Lemma C2_round_trip_counterexample :
  buildImageMogr2 RoundTrip.fitted = "imageMogr2/thumbnail/400x300"%string
  /\ read KthumbnailMode (parseImageMogr2 (buildImageMogr2 RoundTrip.fitted))
     = None
  /\ read KthumbnailMode RoundTrip.fitted = Some (VMode fit)
  /\ parseImageMogr2 (buildImageMogr2 RoundTrip.fitted) <> RoundTrip.fitted.
Proof.
  repeat split; try (vm_compute; reflexivity).
  intros H. apply (f_equal thumbnailMode) in H. vm_compute in H.
  discriminate H.
Qed.

(** A flag at [false] is lost in the same way. *)
Lemma round_trip_loses_false :
  let o := set_autoOrient (Value false) noOperations in
  buildImageMogr2 o = EmptyString
  /\ parseImageMogr2 (buildImageMogr2 o) = noOperations.
Proof. split; vm_compute; reflexivity. Qed.

(** [Number] trims white space of several octets too: a quality string
    made of a no-break space and [90] is a numeric literal, which comes
    back as the number [90] and is no string that round trips. *)
Example quality_after_no_break_space :
  let s := String (ascii_of_N 194) (String (ascii_of_N 160) "90") in
  let o := set_quality (Value (QString s)) noOperations in
  Num.Number s = Int 90
  /\ roundTrips o = false
  /\ quality (parseImageMogr2 (buildImageMogr2 o)) = Value (QNumber (Int 90)).
Proof. repeat split; vm_compute; reflexivity. Qed.

(** ** Exceptions *)

(** [transform] throws exactly when [extract] does. *)
Lemma transform_throws (new_URL : string -> option URL) (url : UrlLike)
  (operations : QCloudCosOperations) (options : option QCloudCosOptions)
  (e : error) :
  transform new_URL url operations options = Throw e
  <-> extract new_URL url = Throw e.
Proof.
  unfold transform.
  destruct (extract new_URL url) as [[b|]|e']; cbn [bind];
    split; intros H; try discriminate H; congruence.
Qed.

(** C5, at a query with a stray percent sign.  The URL parses and its host
    matches, [decodeURIComponent] rejects the query with a [URIError], and
    nothing in [extract] catches it: [extract] and [transform] throw
    instead of returning [null] or the input, in both revisions. *)
Theorem C5_extract_throws_on_stray_percent :
  isCosUrl Sample.new_URL (UStr Example.percent) = true
  /\ extract Sample.new_URL (UStr Example.percent) = Throw URIError
  /\ transform Sample.new_URL (UStr Example.percent) noOperations None
     = Throw URIError
  /\ Earlier.extract Sample.new_URL (UStr Example.percent) = Throw URIError
  /\ Earlier.transform Sample.new_URL (UStr Example.percent) noOperations
     = Throw URIError.
Proof. repeat split; vm_compute; reflexivity. Qed.


(** ** The scenarios of the design document and of the README, replayed *)


Example isCosUrl_standard :
  isCosUrl Sample.new_URL (UStr Scenario.bucket) = true.
Proof. vm_compute. reflexivity. Qed.

Example isCosUrl_pic_endpoint :
  isCosUrl Sample.new_URL
    (UStr "https://examplebucket-1250000000.pic.ap-guangzhou.myqcloud.com/image.png")
  = true.
Proof. vm_compute. reflexivity. Qed.

Example isCosUrl_other_host :
  isCosUrl Sample.new_URL (UStr "https://example.com/photo.jpg") = false.
Proof. vm_compute. reflexivity. Qed.

Example isCosUrl_not_a_url :
  isCosUrl Sample.new_URL (UStr "not-a-url") = false.
Proof. vm_compute. reflexivity. Qed.

Example hostname_needs_appid :
  Re.test COS_HOSTNAME_RE "bucket.cos.ap-beijing.myqcloud.com" = false.
Proof. vm_compute. reflexivity. Qed.

Example hostname_region_suffix :
  Re.test COS_HOSTNAME_RE "my-bucket-125.cos.ap-shanghai-1.myqcloud.com" = true.
Proof. vm_compute. reflexivity. Qed.

Example scenario_1 :
  buildImageMogr2 (Scenario.width 400 noOperations)
  = "imageMogr2/thumbnail/400x"%string.
Proof. vm_compute. reflexivity. Qed.

Example scenario_2 :
  parseImageMogr2 "imageMogr2/thumbnail/400x300!"
  = set_thumbnailMode (Value force)
      (set_height (Value (Int 300)) (Scenario.width 400 noOperations)).
Proof. vm_compute. reflexivity. Qed.

Example scenario_3 :
  extract Sample.new_URL
    (UStr "https://b-1.cos.ap-beijing.myqcloud.com/p.jpg?imageMogr2/format/jpg|watermark/2/text/AA")
  = Ret (Some (Extracted.mk "https://b-1.cos.ap-beijing.myqcloud.com/p.jpg"
                 (Scenario.format "jpg" noOperations) noOptions
                 ["watermark/2/text/AA"%string])).
Proof. vm_compute. reflexivity. Qed.

Example scenario_4 :
  transform Sample.new_URL
    (UStr "https://b-1.cos.ap-beijing.myqcloud.com/p.jpg?imageMogr2/format/jpg|watermark/2/text/AA")
    (Scenario.format "webp" noOperations) None
  = Ret "https://b-1.cos.ap-beijing.myqcloud.com/p.jpg?imageMogr2/format/webp|watermark/2/text/AA"%string.
Proof. vm_compute. reflexivity. Qed.

Example scenario_5 :
  generate Sample.new_URL (UStr "https://example.com/p.jpg")
    (Scenario.width 10 noOperations) None None
  = "https://example.com/p.jpg"%string.
Proof. vm_compute. reflexivity. Qed.

Example scenario_6 :
  parseImageMogr2 "imageMogr2/quality/90!"
  = set_quality (Value (QString "90!")) noOperations
  /\ buildImageMogr2 (set_quality (Value (QString "90!")) noOperations)
     = "imageMogr2/quality/90!"%string.
Proof. split; vm_compute; reflexivity. Qed.

Example readme_merge :
  transform Sample.new_URL
    (UStr (Scenario.bucket ++ "?imageMogr2/thumbnail/400x/format/jpg/quality/70"))
    (Scenario.width 800 (Scenario.format "webp" noOperations)) None
  = Ret (Scenario.bucket ++ "?imageMogr2/thumbnail/800x/format/webp/quality/70")%string.
Proof. vm_compute. reflexivity. Qed.

Example readme_cover :
  transform Sample.new_URL (UStr Scenario.bucket)
    (set_thumbnailMode (Value cover)
       (set_height (Value (Int 300)) (Scenario.width 400 noOperations))) None
  = Ret (Scenario.bucket ++ "?imageMogr2/crop/400x300")%string.
Proof. vm_compute. reflexivity. Qed.

Example parse_ignores_unknown_tokens :
  parseImageMogr2 "imageMogr2/watermark/1/thumbnail/200x"
  = Scenario.width 200 noOperations.
Proof. vm_compute. reflexivity. Qed.

Example parse_without_prefix :
  parseImageMogr2 "thumbnail/400x/format/png"
  = Scenario.width 400 (Scenario.format "png" noOperations).
Proof. vm_compute. reflexivity. Qed.

Example extract_encoded_query :
  extract Sample.new_URL
    (UStr (Scenario.bucket ++ "?imageMogr2%2Fthumbnail%2F200x%2Fformat%2Fwebp"))
  = Ret (Some (Extracted.mk Scenario.bucket
                 (Scenario.width 200 (Scenario.format "webp" noOperations))
                 noOptions [])).
Proof. vm_compute. reflexivity. Qed.

Example extract_without_query :
  extract Sample.new_URL (UStr Scenario.bucket) = Ret None.
Proof. vm_compute. reflexivity. Qed.

Example generate_with_defaults :
  generate Sample.new_URL (UStr Scenario.bucket)
    (Scenario.width 800 noOperations)
    (Some (Options.mk (Value "webp") Absent (Value (QNumber (Int 85))) Absent
             Absent (Value true) Absent)) None
  = (Scenario.bucket ++ "?imageMogr2/thumbnail/800x/auto-orient/format/webp/quality/85")%string.
Proof. vm_compute. reflexivity. Qed.

(** In [generate] the two layers are spread, so an override that is present
    with the value [undefined] does hide the default; [transform] assigns
    property by property and keeps what is beneath. *)
Example generate_undefined_hides_default :
  let V := set_format Undefined (Scenario.width 800 noOperations) in
  let D := Some (Options.mk (Value "webp") Absent Absent Absent Absent
                   Absent Absent) in
  generate Sample.new_URL (UStr Scenario.bucket) V D None
  = (Scenario.bucket ++ "?imageMogr2/thumbnail/800x")%string
  /\ transform Sample.new_URL
       (UStr (Scenario.bucket ++ "?imageMogr2/format/jpg")) V D
     = Ret (Scenario.bucket ++ "?imageMogr2/thumbnail/800x/format/jpg")%string.
Proof. split; vm_compute; reflexivity. Qed.

(** Where the conditions of the round trip are needed: a mode without
    dimensions, an empty format, a slash in the format, a string quality
    that reads as a number, a negative width, an integer that prints with
    an exponent, and [NaN] are not given back. *)
Example round_trip_needs_its_conditions :
  let back o := parseImageMogr2 (buildImageMogr2 o) in
  back (set_thumbnailMode (Value cover) noOperations) = noOperations
  /\ back (Scenario.format EmptyString noOperations) = noOperations
  /\ back (Scenario.format "a/b" noOperations) = Scenario.format "a" noOperations
  /\ back (set_quality (Value (QString "90")) noOperations)
     = set_quality (Value (QNumber (Int 90))) noOperations
  /\ back (Scenario.width (-5) noOperations) = noOperations
  /\ back (Scenario.width (10 ^ 21) noOperations) = noOperations
  /\ back (set_rotate (Value NaN) noOperations) = noOperations.
Proof. repeat split; vm_compute; reflexivity. Qed.

(** ** The host name pattern *)

Lemma matches_nullable (r : Re.regex) :
  Re.nullable r = true <-> matches r EmptyString.
Proof.
  split.
  - induction r; simpl; intros H; try discriminate.
    + constructor.
    + apply andb_true_iff in H as [H1 H2].
      change EmptyString with (EmptyString ++ EmptyString)%string.
      constructor; auto.
    + apply orb_true_iff in H as [H|H];
        [apply M_alt_l | apply M_alt_r]; auto.
    + constructor.
  - intros H. remember EmptyString as s eqn:Es.
    induction H; simpl; auto; try discriminate.
    + destruct s1; [|discriminate]. simpl in Es. subst s2.
      rewrite IHmatches1, IHmatches2; auto.
    + rewrite IHmatches; auto.
    + rewrite IHmatches; auto. apply orb_true_r.
Qed.

Lemma matches_void (s : string) : ~ matches Re.Void s.
Proof. intros H. inversion H. Qed.

Lemma matches_eps (s : string) : matches Re.Eps s -> s = EmptyString.
Proof. intros H. now inversion H. Qed.

Lemma matches_seq (r1 r2 : Re.regex) (s : string) :
  matches (Re.seq r1 r2) s <-> matches (Re.Seq r1 r2) s.
Proof.
  split.
  - intros H.
    destruct r1, r2; simpl in H; try exact H;
      try (now apply matches_void in H);
      change s with (EmptyString ++ s)%string; constructor;
      (exact H || constructor).
  - intros H. inversion H as [| |a b s1 s2 H1 H2| | | |]; subst.
    destruct r1, r2; simpl; try exact H;
      try (now apply matches_void in H1);
      try (now apply matches_void in H2);
      apply matches_eps in H1; subst s1; exact H2.
Qed.

Lemma matches_alt (r1 r2 : Re.regex) (s : string) :
  matches (Re.alt r1 r2) s <-> matches (Re.Alt r1 r2) s.
Proof.
  split.
  - intros H.
    destruct r1, r2; simpl in H; try exact H;
      try (now apply matches_void in H);
      try (now apply M_alt_l); now apply M_alt_r.
  - intros H.
    inversion H as [| | |a b s0 H1|a b s0 H1| |]; subst;
      destruct r1, r2; simpl; try exact H; try exact H1;
      now apply matches_void in H1.
Qed.

Lemma matches_star_cons (r : Re.regex) (c : ascii) (s : string) :
  matches (Re.Star r) (String c s) ->
  exists s1 s2, s = (s1 ++ s2)%string
                /\ matches r (String c s1) /\ matches (Re.Star r) s2.
Proof.
  intros H. remember (Re.Star r) as r' eqn:Er.
  remember (String c s) as t eqn:Et.
  revert c s Et.
  induction H; intros c0 s0 Et; try discriminate.
  injection Er as ->.
  destruct s1 as [|c1 s1].
  - simpl in Et. apply IHmatches2; auto.
  - simpl in Et. injection Et as -> <-.
    exists s1, s2. auto.
Qed.

Lemma matches_deriv (r : Re.regex) (c : ascii) (s : string) :
  matches (Re.deriv c r) s <-> matches r (String c s).
Proof.
  revert s. induction r; intros s; simpl.
  - split; intros H; inversion H.
  - split; intros H; inversion H.
  - destruct (p c) eqn:E; split; intros H.
    + apply matches_eps in H. subst. now constructor.
    + inversion H. constructor.
    + inversion H.
    + inversion H; subst. congruence.
  - destruct (Re.nullable r1) eqn:En.
    + rewrite matches_alt. split; intros H.
      * inversion H as [| | |a b s0 H1|a b s0 H2| |]; subst.
        -- apply matches_seq in H1.
           inversion H1 as [| |a b s1 s2 Ha Hb| | | |]; subst.
           apply IHr1 in Ha.
           change (String c (s1 ++ s2)) with (String c s1 ++ s2)%string.
           now constructor.
        -- apply IHr2 in H2.
           change (String c s) with (EmptyString ++ String c s)%string.
           constructor; auto. now apply matches_nullable.
      * inversion H as [| |a b s1 s2 Ha Hb| | | |]; subst.
        destruct s1 as [|c1 s1]; simpl in *.
        -- subst s2. apply M_alt_r. now apply IHr2.
        -- match goal with E : String _ _ = String _ _ |- _ =>
             injection E as -> <- end.
           apply M_alt_l. apply matches_seq. constructor; auto.
           now apply IHr1.
    + rewrite matches_seq. split; intros H.
      * inversion H as [| |a b s1 s2 Ha Hb| | | |]; subst.
        apply IHr1 in Ha.
        change (String c (s1 ++ s2)) with (String c s1 ++ s2)%string.
        now constructor.
      * inversion H as [| |a b s1 s2 Ha Hb| | | |]; subst.
        destruct s1 as [|c1 s1]; simpl in *.
        -- apply matches_nullable in Ha. congruence.
        -- match goal with E : String _ _ = String _ _ |- _ =>
             injection E as -> <- end.
           constructor; auto. now apply IHr1.
  - rewrite matches_alt. split; intros H.
    + inversion H; subst; [apply M_alt_l; now apply IHr1
                          | apply M_alt_r; now apply IHr2].
    + inversion H; subst; [apply M_alt_l; now apply IHr1
                          | apply M_alt_r; now apply IHr2].
  - rewrite matches_seq. split; intros H.
    + inversion H as [| |a b s1 s2 Ha Hb| | | |]; subst.
      apply IHr in Ha.
      change (String c (s1 ++ s2)) with (String c s1 ++ s2)%string.
      now constructor.
    + apply matches_star_cons in H as (s1 & s2 & -> & H1 & H2).
      constructor; auto. now apply IHr.
Qed.

Lemma matches_test (r : Re.regex) (s : string) :
  Re.test r s = true <-> matches r s.
Proof.
  revert r. induction s as [|c s IH]; intros r; simpl.
  - apply matches_nullable.
  - rewrite IH. apply matches_deriv.
Qed.

Lemma matches_seq_inv (r1 r2 : Re.regex) (s : string) :
  matches (Re.Seq r1 r2) s
  <-> exists s1 s2, s = (s1 ++ s2)%string /\ matches r1 s1 /\ matches r2 s2.
Proof.
  split.
  - intros H. inversion H; subst. eauto.
  - intros (s1 & s2 & -> & H1 & H2). now constructor.
Qed.

Lemma matches_chr (c : ascii) (s : string) :
  matches (Re.chr c) s <-> s = String c EmptyString.
Proof.
  unfold Re.chr. split.
  - intros H. inversion H; subst.
    match goal with E : Ascii.eqb _ _ = true |- _ =>
      apply Ascii.eqb_eq in E; now subst end.
  - intros ->. constructor. apply Ascii.eqb_refl.
Qed.

Lemma matches_lit (t s : string) : matches (Re.lit t) s <-> s = t.
Proof.
  revert s. induction t as [|c t IH]; intros s; simpl.
  - split; [apply matches_eps | intros ->; constructor].
  - rewrite matches_seq_inv. split.
    + intros (s1 & s2 & -> & H1 & H2).
      apply matches_chr in H1. apply IH in H2. now subst.
    + intros ->. exists (String c EmptyString), t.
      repeat split; [now apply matches_chr | now apply IH].
Qed.

Lemma matches_star_cls (p : ascii -> bool) (s : string) :
  matches (Re.Star (Re.Cls p)) s <-> Str.all p s = true.
Proof.
  split.
  - intros H. remember (Re.Star (Re.Cls p)) as r eqn:Er.
    induction H; try discriminate; [reflexivity|].
    injection Er as ->. inversion H; subst. simpl.
    match goal with E : p _ = true |- _ => rewrite E end.
    now apply IHmatches2.
  - induction s as [|c s IH]; simpl; intros H; [constructor|].
    apply andb_true_iff in H as [Hc Hs].
    change (String c s) with (String c EmptyString ++ s)%string.
    constructor; [now constructor | now apply IH].
Qed.

Lemma matches_run (p : ascii -> bool) (s : string) :
  matches (Re.plus (Re.Cls p)) s <-> run p s = true.
Proof.
  unfold Re.plus, run. rewrite matches_seq_inv. split.
  - intros (s1 & s2 & -> & H1 & H2). inversion H1; subst.
    apply matches_star_cls in H2. simpl.
    match goal with E : p _ = true |- _ => now rewrite E end.
  - destruct s as [|c s]; simpl; [discriminate|]. intros H.
    apply andb_true_iff in H as [Hc Hs].
    exists (String c EmptyString), s.
    repeat split; [now constructor | now apply matches_star_cls].
Qed.

Ltac peel H s Hs :=
  let r := fresh "r" in let E := fresh "E" in
  apply matches_seq_inv in H as (s & r & E & Hs & H); subst.

(** X1. [isCosUrl] accepts a URL object exactly when its host name is
    made of a bucket name of letters, digits and hyphens, a hyphen and an
    application id of digits, then [.cos.] or [.pic.], then a region of
    lower-case letters, a hyphen and lower-case letters or digits, with an
    optional hyphen and digits after it, then [.myqcloud.com], and nothing
    before or after. *)
Theorem isCosUrl_hostname_grammar (new_URL : string -> option URL) (u : URL) :
  isCosUrl new_URL (UObj u) = true
  <-> exists e, Host.wellFormed e = true /\ hostname u = Host.text e.
Proof.
  change (isCosUrl new_URL (UObj u))
    with (Re.test COS_HOSTNAME_RE (hostname u)).
  generalize (hostname u). intros h.
  rewrite matches_test. unfold COS_HOSTNAME_RE. cbv zeta. split.
  - intros H.
    peel H n Hn. peel H d1 Hd1. peel H a Ha. peel H d2 Hd2.
    peel H sv Hsv. peel H d3 Hd3. peel H ar Har. peel H d4 Hd4.
    peel H z Hz. peel H sr Hsr.
    apply matches_run in Hn, Ha, Har, Hz.
    apply matches_chr in Hd1, Hd2, Hd3, Hd4. apply matches_lit in H.
    subst.
    assert (Hsv' : (String.eqb sv "cos" || String.eqb sv "pic") = true).
    { inversion Hsv as [| | |? ? ? L|? ? ? L| |]; subst;
        [apply (proj1 (matches_lit "cos" _)) in L
        |apply (proj1 (matches_lit "pic" _)) in L]; subst; reflexivity. }
    assert (Hsr' : exists o,
               match o with Some d => run is_digit d | None => true end = true
               /\ sr = match o with
                       | Some d => ("-" ++ d)%string
                       | None => EmptyString
                       end).
    { inversion Hsr as [| | |? ? ? L|? ? ? L| |]; subst.
      - peel L d5 Hd5. apply (proj1 (matches_chr "-" _)) in Hd5.
        apply (proj1 (matches_run is_digit _)) in L.
        subst. now exists (Some r).
      - apply matches_eps in L. subst. now exists None. }
    destruct Hsr' as (o & Ho & ->).
    exists (Host.mk n a sv ar z o). split.
    + unfold Host.wellFormed. cbn [Host.name Host.appid Host.service Host.area
                                    Host.zone Host.serial].
      unfold bucketChar, zoneChar.
      now rewrite Hn, Ha, Hsv', Har, Hz, Ho.
    + unfold Host.text. cbn [Host.name Host.appid Host.service Host.area
                             Host.zone Host.serial].
      destruct o; simpl; rewrite ?append_assoc; reflexivity.
  - intros ([n a sv ar z o] & Hw & ->).
    unfold Host.wellFormed, Host.text in *.
    cbn [Host.name Host.appid Host.service Host.area Host.zone Host.serial] in *.
    apply andb_true_iff in Hw as [Hw Ho].
    apply andb_true_iff in Hw as [Hw Hz].
    apply andb_true_iff in Hw as [Hw Har].
    apply andb_true_iff in Hw as [Hw Hsv].
    apply andb_true_iff in Hw as [Hn Ha].
    apply M_seq; [now apply matches_run|].
    change ("-" ++ a ++ "." ++ sv ++ "." ++ ar ++ "-" ++ z
            ++ match o with Some d => "-" ++ d | None => EmptyString end
            ++ ".myqcloud.com")%string
      with ("-" ++ (a ++ ("." ++ (sv ++ ("." ++ (ar ++ ("-" ++ (z
            ++ (match o with Some d => "-" ++ d | None => EmptyString end
            ++ ".myqcloud.com")))))))))%string.
    apply M_seq; [now apply matches_chr|].
    apply M_seq; [now apply matches_run|].
    apply M_seq; [now apply matches_chr|].
    apply M_seq.
    { apply orb_true_iff in Hsv as [E|E]; apply String.eqb_eq in E; subst;
        [apply M_alt_l | apply M_alt_r]; now apply matches_lit. }
    apply M_seq; [now apply matches_chr|].
    apply M_seq; [now apply matches_run|].
    apply M_seq; [now apply matches_chr|].
    apply M_seq; [now apply matches_run|].
    apply M_seq; [|now apply matches_lit].
    destruct o as [d|].
    + apply M_alt_l.
      apply M_seq; [now apply matches_chr | now apply matches_run].
    + apply M_alt_r. constructor.
Qed.

(** Host names the pattern leaves out: the global acceleration endpoint,
    whose region has no hyphen, and a region in upper case. *)
Example hostname_accelerate :
  Re.test COS_HOSTNAME_RE "b-1.cos.accelerate.myqcloud.com" = false.
Proof. vm_compute. reflexivity. Qed.

Example hostname_upper_case_region :
  Re.test COS_HOSTNAME_RE "b-1.cos.AP-Beijing.myqcloud.com" = false.
Proof. vm_compute. reflexivity. Qed.

(** ** Tokens of the parser *)

Lemma step_unknown (token : string) (next : option string)
  (ops : QCloudCosOperations) :
  isKeyword token = false -> Parse.step token next ops = (ops, false).
Proof.
  unfold isKeyword, keywords. cbn [existsb]. intros H.
  repeat (apply orb_false_iff in H as [?E H]).
  unfold Parse.step. cbv zeta.
  now rewrite E, E0, E1, E2, E3, E4, E5, E6, E7, E8, E9, E10, E11.
Qed.

Lemma split_cons (t s : string) :
  noSlash t = true ->
  Str.split "/" (t ++ "/" ++ s) = t :: Str.split "/" s.
Proof.
  intros Ht. change (t ++ "/" ++ s)%string with (t ++ String "/" s)%string.
  rewrite split_app. now rewrite (split_single "/" t Ht).
Qed.

(** X2. A token that is not one of the thirteen the parser acts on is
    skipped: in front of a chain of tokens it changes nothing of what is
    read from the chain. *)
Theorem parse_skips_unknown_token (t s : string) :
  noSlash t = true -> isKeyword t = false ->
  parseImageMogr2 ("imageMogr2/" ++ t ++ "/" ++ s)
  = parseImageMogr2 ("imageMogr2/" ++ s).
Proof.
  intros Ht Hk. rewrite !parse_prefixed, split_cons by assumption.
  cbn [Parse.scan]. now rewrite step_unknown.
Qed.

Lemma parse_skips_unknown_token_witness :
  parseImageMogr2 "imageMogr2/watermark/format/webp"
  = parseImageMogr2 "imageMogr2/format/webp".
Proof.
  apply (parse_skips_unknown_token "watermark" "format/webp"); reflexivity.
Defined.

(** X3. [gravity] takes the token after it as its value and both are
    skipped, also when that token is one the parser would act on. *)
Theorem parse_skips_gravity_value (v s : string) :
  noSlash v = true ->
  parseImageMogr2 ("imageMogr2/gravity/" ++ v ++ "/" ++ s)
  = parseImageMogr2 ("imageMogr2/" ++ s).
Proof.
  intros Hv.
  change ("imageMogr2/gravity/" ++ v ++ "/" ++ s)%string
    with ("imageMogr2/" ++ ("gravity" ++ "/" ++ (v ++ "/" ++ s)))%string.
  rewrite !parse_prefixed, !split_cons by (assumption || reflexivity).
  reflexivity.
Qed.

Lemma parse_skips_gravity_value_witness :
  parseImageMogr2 "imageMogr2/gravity/auto-orient/format/webp"
  = parseImageMogr2 "imageMogr2/format/webp".
Proof.
  apply (parse_skips_gravity_value "auto-orient" "format/webp"); reflexivity.
Defined.

(** X4. A segment made of the prefix [imageMogr2/] and a single token
    sets nothing, unless the token is [auto-orient] or [ignore-error]: a
    token that asks for a value and finds none after it is ignored. *)
Theorem parse_keyword_without_value (t : string) :
  noSlash t = true -> standsAlone t = false ->
  parseImageMogr2 ("imageMogr2/" ++ t) = noOperations.
Proof.
  intros Ht Hs. rewrite parse_prefixed, (split_single "/" t Ht).
  cbn [Parse.scan hd_error]. unfold Parse.step. cbv zeta.
  cbn [isSome]. rewrite !andb_false_r.
  unfold standsAlone in Hs. apply orb_false_iff in Hs as [H1 H2].
  now rewrite H1, H2.
Qed.

Lemma parse_keyword_without_value_witness :
  parseImageMogr2 "imageMogr2/format" = noOperations.
Proof.
  apply (parse_keyword_without_value "format"); reflexivity.
Defined.

(** X5. The [1] after [ignore-error] may be left out: with it or without
    it the flag is set and the tokens that follow are read the same way. *)
Theorem parse_ignore_error_value_optional (s : string) :
  parseImageMogr2 ("imageMogr2/ignore-error/1/" ++ s)
  = parseImageMogr2 ("imageMogr2/ignore-error/" ++ s).
Proof.
  change ("imageMogr2/ignore-error/1/" ++ s)%string
    with ("imageMogr2/" ++ ("ignore-error" ++ "/" ++ ("1" ++ "/" ++ s)))%string.
  change ("imageMogr2/ignore-error/" ++ s)%string
    with ("imageMogr2/" ++ ("ignore-error" ++ "/" ++ s))%string.
  rewrite !parse_prefixed, !split_cons by reflexivity.
  cbn [Parse.scan hd_error].
  change (Parse.step "ignore-error" (Some "1") noOperations)
    with (set_ignoreError (Value true) noOperations, true).
  cbv iota beta.
  destruct (Str.split "/" s) as [|t rest] eqn:E; [reflexivity|].
  cbn [hd_error].
  change (Parse.step "ignore-error" (Some t) noOperations)
    with (set_ignoreError (Value true) noOperations, String.eqb t "1").
  cbv iota beta.
  destruct (String.eqb t "1") eqn:Et.
  - apply String.eqb_eq in Et. subst t. cbn [Parse.scan].
    now rewrite step_unknown.
  - reflexivity.
Qed.

Lemma span_all (p : ascii -> bool) (s a b : string) :
  Str.span p s = (a, b) -> Str.all p a = true.
Proof.
  revert a b. induction s as [|c s IH]; simpl; intros a b H.
  - now injection H as <- <-.
  - destruct (p c) eqn:Ec.
    + destruct (Str.span p s) as [a' b'] eqn:E. injection H as <- <-.
      simpl. rewrite Ec. eapply IH. reflexivity.
    + now injection H as <- <-.
Qed.

Lemma dims_all (s w h rest : string) :
  Parse.dims s = Some (w, h, rest) ->
  Str.all is_digit w = true /\ Str.all is_digit h = true.
Proof.
  unfold Parse.dims. destruct (Str.span is_digit s) as [w' r] eqn:E1.
  destruct r as [|c r']; [discriminate|].
  destruct (Ascii.eqb c "x"); [|discriminate].
  destruct (Str.span is_digit r') as [h' rest'] eqn:E2.
  intros H. injection H as <- <- <-.
  split; eapply span_all; eassumption.
Qed.

Lemma dimsEnding_all (m s w h : string) :
  Parse.dimsEnding m s = Some (w, h) ->
  Str.all is_digit w = true /\ Str.all is_digit h = true.
Proof.
  unfold Parse.dimsEnding.
  destruct (Parse.dims s) as [[[w' h'] r]|] eqn:E; [|discriminate].
  destruct (String.eqb r m); [|discriminate].
  intros H. injection H as <- <-. eapply dims_all. eassumption.
Qed.

Lemma sizeRead_digits (w : string) :
  Str.all is_digit w = true -> Str.isEmpty w = false ->
  sizeRead (Value (Num.Number w)) = true.
Proof.
  intros Hd He. rewrite Number_digits by assumption.
  simpl. apply Z.leb_le. apply N2Z.is_nonneg.
Qed.

Ltac shape_slots H :=
  unfold asParsed in H;
  repeat (let H' := fresh "Hs" in apply andb_true_iff in H as [H H']).

Ltac shape H :=
  shape_slots H; unfold asParsed;
  cbn [width height format quality thumbnailMode autoOrient rotate flip
       iradius rradius rquality lquality ignoreError
       set_width set_height set_format set_quality set_thumbnailMode
       set_autoOrient set_rotate set_flip set_iradius set_rradius
       set_rquality set_lquality set_ignoreError];
  repeat (apply andb_true_intro; split); try (assumption || reflexivity).

Lemma asParsed_setDims (w h : string) (o : QCloudCosOperations) :
  Str.all is_digit w = true -> Str.all is_digit h = true ->
  asParsed o = true -> asParsed (Parse.setDims (w, h) o) = true.
Proof.
  intros Hw Hh H. unfold Parse.setDims.
  destruct (Str.isEmpty w) eqn:Ew, (Str.isEmpty h) eqn:Eh;
    try assumption; shape H; now apply sizeRead_digits.
Qed.

Lemma asParsed_mode (m : QCloudCosThumbnailMode) (o : QCloudCosOperations) :
  m <> fit -> asParsed o = true ->
  asParsed (set_thumbnailMode (Value m) o) = true.
Proof. intros Hm H. shape H. now destruct m. Qed.

Lemma asParsed_thumbnail (next : string) (o : QCloudCosOperations) :
  asParsed o = true -> asParsed (Parse.thumbnail next o) = true.
Proof.
  intros H. unfold Parse.thumbnail.
  destruct (Parse.dimsEnding "!" next) as [[w h]|] eqn:E1;
    [apply dimsEnding_all in E1 as [? ?]; apply asParsed_mode;
     [discriminate | now apply asParsed_setDims]|].
  destruct (Parse.dimsEnding ">" next) as [[w h]|] eqn:E2;
    [apply dimsEnding_all in E2 as [? ?]; apply asParsed_mode;
     [discriminate | now apply asParsed_setDims]|].
  destruct (Parse.dimsEnding "<" next) as [[w h]|] eqn:E3;
    [apply dimsEnding_all in E3 as [? ?]; apply asParsed_mode;
     [discriminate | now apply asParsed_setDims]|].
  destruct (Parse.dims next) as [[[w h] r]|] eqn:E4; [|assumption].
  apply dims_all in E4 as [? ?]. now apply asParsed_setDims.
Qed.

Lemma asParsed_crop (next : string) (o : QCloudCosOperations) :
  asParsed o = true -> asParsed (Parse.crop next o) = true.
Proof.
  intros H. unfold Parse.crop.
  destruct (Parse.dims next) as [[[w h] r]|] eqn:E; [|assumption].
  apply dims_all in E as [? ?]. apply asParsed_mode;
    [discriminate | now apply asParsed_setDims].
Qed.

Lemma asParsed_step (token : string) (next : option string)
  (o : QCloudCosOperations) :
  match next with Some n => noSlash n = true | None => True end ->
  asParsed o = true -> asParsed (fst (Parse.step token next o)) = true.
Proof.
  intros Hn H. unfold Parse.step, Parse.numeric, Parse.flip, Parse.quality.
  cbv zeta.
  repeat match goal with
         | |- context [if ?c then _ else _] => destruct c eqn:?
         end;
    cbn [fst]; auto using asParsed_thumbnail, asParsed_crop;
    shape H;
    try match goal with
        | E : negb (isNaN ?n) = true |- numberRead (Value ?n) = true =>
            exact E
        end.
  all: try (destruct next; [exact Hn | reflexivity]).
  all: cbn [qualityRead];
    match goal with E : isNaN _ = false |- _ => now rewrite E end.
Qed.

Lemma split_free (sep : ascii) (s : string) :
  Forall (fun t => Str.all (fun c => negb (Ascii.eqb c sep)) t = true)
         (Str.split sep s).
Proof.
  induction s as [|c s IH]; simpl.
  - now repeat constructor.
  - destruct (Ascii.eqb c sep) eqn:Ec.
    + constructor; [reflexivity | exact IH].
    + pose proof (split_nonempty sep s) as Hne.
      destruct (Str.split sep s) as [|hd tl]; [congruence|].
      inversion IH; subst. constructor; [|assumption].
      simpl. now rewrite Ec.
Qed.

Lemma asParsed_scan (parts : list string) (skip : bool)
  (o : QCloudCosOperations) :
  Forall (fun t => noSlash t = true) parts ->
  asParsed o = true -> asParsed (Parse.scan parts skip o) = true.
Proof.
  revert skip o. induction parts as [|token rest IH]; intros skip o Hp H.
  - exact H.
  - inversion Hp as [|? ? Ht Hrest]; subst.
    cbn [Parse.scan]. destruct skip; [now apply IH|].
    assert (Hn : match hd_error rest with
                 | Some n => noSlash n = true
                 | None => True
                 end).
    { destruct Hrest; simpl; auto. }
    pose proof (asParsed_step token (hd_error rest) o Hn H) as Hstep.
    destruct (Parse.step token (hd_error rest) o) as [o' consumed].
    now apply IH.
Qed.

Lemma asParsed_parse (segment : string) :
  asParsed (parseImageMogr2 segment) = true.
Proof.
  unfold parseImageMogr2.
  destruct (Str.isEmpty (Parse.stripPrefix segment)); [reflexivity|].
  apply asParsed_scan; [apply (split_free "/") | reflexivity].
Qed.

(** X6. Whatever the segment, the operation set the parser returns has
    no property that is [undefined]; its width and its height are whole
    numbers that are not negative (or the infinity an overlong sequence
    of digits reads as); its other numbers are not [NaN]; its
    quality is a number that is not [NaN], or a string that does not read
    as a number; its format and its string quality hold no [/]; its
    thumbnail mode is never [fit]; and its two flags are never [false]. *)
Theorem parse_result_shape (segment : string) :
  let o := parseImageMogr2 segment in
  asParsed o = true
  /\ settled o = true
  /\ read KthumbnailMode o <> Some (VMode fit)
  /\ read KautoOrient o <> Some (VBoolean false)
  /\ read KignoreError o <> Some (VBoolean false).
Proof.
  intros o. pose proof (asParsed_parse segment) as H.
  pose proof (settled_parse segment) as Hs. fold o in H, Hs. clearbody o.
  split; [exact H|]. split; [exact Hs|].
  shape_slots H. cbn [read].
  repeat split.
  - destruct (thumbnailMode o) as [| |[]]; cbn in *; congruence.
  - destruct (autoOrient o) as [| |[]]; cbn in *; congruence.
  - destruct (ignoreError o) as [| |[]]; cbn in *; congruence.
Qed.

Lemma buildParts_emitted (o : QCloudCosOperations) :
  buildParts (emitted o) = buildParts o.
Proof.
  unfold buildParts.
  assert (Hr : Push.resize (emitted o) = Push.resize o).
  { unfold Push.resize, emitted, sized.
    cbn [width height thumbnailMode].
    destruct (isSome (defined (width o)) || isSome (defined (height o)));
      [|reflexivity].
    now destruct (defined (thumbnailMode o)) as [[]|]. }
  assert (Ha : Push.autoOrient (emitted o) = Push.autoOrient o).
  { unfold Push.autoOrient, emitted. cbn [autoOrient].
    now destruct (defined (autoOrient o)) as [[]|]. }
  assert (Hf : Push.format (emitted o) = Push.format o).
  { unfold Push.format, emitted. cbn [format].
    destruct (defined (format o)) as [f|]; [|reflexivity].
    destruct (Str.isEmpty f) eqn:E; [reflexivity|].
    cbn [defined]. now rewrite E. }
  assert (Hi : Push.ignoreError (emitted o) = Push.ignoreError o).
  { unfold Push.ignoreError, emitted. cbn [ignoreError].
    now destruct (defined (ignoreError o)) as [[]|]. }
  rewrite Hr, Ha, Hf, Hi. reflexivity.
Qed.

Lemma defined_keep {A} (s : slot A) : defined (keep Absent (defined s)) = defined s.
Proof. now destruct s. Qed.

Lemma buildParts_definedOnly (o : QCloudCosOperations) :
  buildParts (definedOnly o) = buildParts o.
Proof.
  unfold buildParts, Push.resize, Push.numeric, Push.autoOrient, Push.flip,
    Push.format, Push.quality, Push.ignoreError, definedOnly.
  cbn [width height format quality thumbnailMode autoOrient rotate flip
       iradius rradius rquality lquality ignoreError].
  now rewrite !defined_keep.
Qed.

Lemma build_parts_eq (a b : QCloudCosOperations) :
  buildParts a = buildParts b -> buildImageMogr2 a = buildImageMogr2 b.
Proof. unfold buildImageMogr2. now intros ->. Qed.

Lemma roundTrips_emitted (o : QCloudCosOperations) :
  printable o = true -> roundTrips (emitted o) = true.
Proof.
  unfold printable, roundTrips. intros H.
  repeat (apply andb_true_iff in H as [H ?]).
  unfold emitted.
  cbn [width height format quality thumbnailMode autoOrient rotate flip
       iradius rradius rquality lquality ignoreError].
  repeat (apply andb_true_intro; split); try assumption.
  - unfold formatSlotb. destruct (defined (format o)) as [f|]; [|reflexivity].
    destruct (Str.isEmpty f) eqn:E; [reflexivity|].
    cbn [defined]. now rewrite E.
  - unfold modeSlotb, sized. cbn [thumbnailMode width height].
    destruct (defined (thumbnailMode o)) as [[]|]; try reflexivity;
      destruct (isSome (defined (width o)) || isSome (defined (height o)));
      reflexivity.
  - unfold flagSlotb. now destruct (defined (autoOrient o)) as [[]|].
  - unfold flagSlotb. now destruct (defined (ignoreError o)) as [[]|].
Qed.

Lemma parse_build_emitted (o : QCloudCosOperations) :
  printable o = true ->
  parseImageMogr2 (buildImageMogr2 o) = definedOnly (emitted o).
Proof.
  intros H.
  rewrite <- (build_parts_eq _ _ (buildParts_emitted o)).
  apply parse_build, roundTrips_sound, roundTrips_emitted, H.
Qed.

(** X7. For an operation set whose numbers are whole and print as plain
    digits (width and height not negative), whose format has no [/], and
    whose string quality has no [/] and is no numeric literal, parsing
    what was built gives back the set as the serializer sees it: without
    the flags that are not [true], an empty format, the mode [fit], a mode
    that comes with no width and no height, and the properties that are
    [undefined].  Building that again gives the same string: what
    [buildImageMogr2] writes is a fixed point of parsing and building. *)
Theorem build_parse_build (o : QCloudCosOperations) :
  printable o = true ->
  parseImageMogr2 (buildImageMogr2 o) = definedOnly (emitted o)
  /\ buildImageMogr2 (parseImageMogr2 (buildImageMogr2 o))
     = buildImageMogr2 o.
Proof.
  intros H. split; [now apply parse_build_emitted|].
  rewrite parse_build_emitted by assumption.
  apply build_parts_eq.
  now rewrite buildParts_definedOnly, buildParts_emitted.
Qed.

Lemma build_parse_build_witness :
  printable Trial.loose = true
  /\ parseImageMogr2 (buildImageMogr2 Trial.loose)
     = mkOperations (Value (Int 400)) (Value (Int 300)) (Value "webp") Absent
         Absent Absent Absent Absent Absent Absent Absent Absent (Value true)
  /\ buildImageMogr2 (parseImageMogr2 (buildImageMogr2 Trial.loose))
     = "imageMogr2/thumbnail/400x300/format/webp/ignore-error/1"%string.
Proof.
  assert (H : printable Trial.loose = true) by (vm_compute; reflexivity).
  split; [exact H|].
  destruct (build_parse_build Trial.loose H) as [H1 H2].
  split; [rewrite H1 | rewrite H2]; vm_compute; reflexivity.
Defined.

(** ** What [extract] returns, and when *)

Lemma unescape_plain (s : string) :
  noPercent s = true -> Uri.unescape s = Some (lits s).
Proof.
  induction s as [|c s IH]; simpl; intros H; [reflexivity|].
  apply andb_true_iff in H as [Hc Hs]. apply negb_true_iff in Hc.
  rewrite Hc. now rewrite IH.
Qed.

Lemma octets_lits (s : string) : Uri.octets (lits s) = Some s.
Proof. induction s as [|c s IH]; simpl; [reflexivity | now rewrite IH]. Qed.

Lemma decode_plain (s : string) :
  noPercent s = true -> Uri.decodeURIComponent s = Ret s.
Proof.
  intros H. unfold Uri.decodeURIComponent.
  now rewrite unescape_plain, octets_lits.
Qed.

Lemma noPercent_slice1 (s : string) :
  noPercent s = true -> noPercent (Str.slice1 s) = true.
Proof.
  destruct s as [|c s]; simpl; [reflexivity|].
  intros H. now apply andb_true_iff in H as [_ H].
Qed.

Lemma decode_throws (s : string) (e : error) :
  Uri.decodeURIComponent s = Throw e -> e = URIError.
Proof.
  unfold Uri.decodeURIComponent.
  destruct (Uri.unescape s) as [l|]; [destruct (Uri.octets l)|]; congruence.
Qed.

Section ExtractFacts.

Variable new_URL : string -> option URL.

Lemma isCosUrl_unparsed (url : UrlLike) :
  asURL new_URL url = None -> isCosUrl new_URL url = false.
Proof. unfold isCosUrl. now intros ->. Qed.

Lemma extract_empty_query (url : UrlLike) (u : URL) :
  asURL new_URL url = Some u ->
  Uri.decodeURIComponent (Str.slice1 (search u)) = Ret EmptyString ->
  extract new_URL url = Ret None.
Proof.
  intros Eu Ed. unfold extract. rewrite Eu.
  destruct (isCosUrl new_URL (UObj u)); [|reflexivity].
  cbn [negb]. rewrite Ed. reflexivity.
Qed.

(** X8. [extract] returns [null] exactly when the URL is not a matching
    one (it does not parse, or its host name does not match) or its
    decoded query is empty.  A matching URL with any other query gives a
    result, also when no segment of the query belongs to the dialect: the
    last test of the function never succeeds. *)
Theorem extract_null_iff (url : UrlLike) :
  extract new_URL url = Ret None
  <-> isCosUrl new_URL url = false
      \/ exists u, asURL new_URL url = Some u
                   /\ Uri.decodeURIComponent (Str.slice1 (search u))
                      = Ret EmptyString.
Proof.
  split.
  - intros H. destruct (asURL new_URL url) as [u|] eqn:Eu;
      [|left; now apply isCosUrl_unparsed].
    destruct (isCosUrl new_URL url) eqn:Ec; [|now left]. right.
    rewrite <- (isCosUrl_parsed new_URL url u Eu) in Ec.
    destruct (Uri.decodeURIComponent (Str.slice1 (search u))) as [q|e] eqn:Ed.
    + destruct (Str.isEmpty q) eqn:Eq.
      * destruct q; [|discriminate]. eauto.
      * rewrite (extract_run new_URL url u q Eu Ec Ed Eq) in H. discriminate.
    + assert (Ht : extract new_URL url = Throw e)
        by (apply extract_throws; eauto).
      congruence.
  - intros [H|(u & Eu & Ed)];
      [now apply extract_not_cos | now apply (extract_empty_query url u)].
Qed.

(** X9. [extract] throws exactly when the URL is a matching one whose
    query [decodeURIComponent] rejects, and what it throws is that
    [URIError]; [transform] throws exactly when [extract] does. *)
Theorem throws_iff_query_undecodable (url : UrlLike)
  (operations : QCloudCosOperations) (options : option QCloudCosOptions)
  (e : error) :
  (extract new_URL url = Throw e
   <-> e = URIError
       /\ exists u, asURL new_URL url = Some u
                    /\ isCosUrl new_URL (UObj u) = true
                    /\ Uri.decodeURIComponent (Str.slice1 (search u))
                       = Throw URIError)
  /\ (transform new_URL url operations options = Throw e
      <-> extract new_URL url = Throw e).
Proof.
  split; [|apply transform_throws].
  rewrite extract_throws. split.
  - intros (u & Eu & Ec & Ed).
    pose proof (decode_throws _ _ Ed) as ->. eauto 6.
  - intros (-> & u & Eu & Ec & Ed). eauto.
Qed.

(** X10. On a URL whose query holds no percent sign, [extract] and
    [transform] return, in the revision with pipeline segments and in the
    one before it. *)
Theorem returns_without_percent (url : UrlLike) (u : URL)
  (operations : QCloudCosOperations) (options : option QCloudCosOptions) :
  asURL new_URL url = Some u ->
  noPercent (search u) = true ->
  (exists r, extract new_URL url = Ret r)
  /\ (exists s, transform new_URL url operations options = Ret s)
  /\ (exists r, Earlier.extract new_URL url = Ret r)
  /\ (exists s, Earlier.transform new_URL url operations = Ret s).
Proof.
  intros Eu Hp.
  pose proof (decode_plain _ (noPercent_slice1 _ Hp)) as Hd.
  assert (H1 : exists r, extract new_URL url = Ret r).
  { destruct (extract new_URL url) as [r|e] eqn:E; [eauto|].
    apply extract_throws in E as (u' & Eu' & _ & Ed'). congruence. }
  assert (H2 : exists r, Earlier.extract new_URL url = Ret r).
  { unfold Earlier.extract. rewrite Eu.
    destruct (isCosUrl new_URL (UObj u)); cbn [negb]; [|eauto].
    rewrite Hd. cbn [bind].
    destruct (Str.startsWith "imageMogr2" (Str.slice1 (search u)));
      cbn [negb]; eauto. }
  repeat split; try assumption.
  - destruct H1 as (r & Er). unfold transform. rewrite Er. cbn [bind].
    destruct r; eauto.
  - destruct H2 as (r & Er). unfold Earlier.transform. rewrite Er. cbn [bind].
    destruct r; eauto.
Qed.

Lemma over_cases {A} (lo hi : slot A) : over lo hi = lo \/ over lo hi = hi.
Proof. destruct hi; auto. Qed.

Lemma asParsed_spread (a b : QCloudCosOperations) :
  asParsed a = true -> asParsed b = true -> asParsed (spread a b) = true.
Proof.
  intros Ha Hb. shape_slots Ha. shape_slots Hb.
  unfold asParsed, spread.
  cbn [width height format quality thumbnailMode autoOrient rotate flip
       iradius rradius rquality lquality ignoreError].
  repeat (apply andb_true_intro; split);
    match goal with
    | |- _ (over ?lo ?hi) = true =>
        destruct (over_cases lo hi) as [E|E]; rewrite E; assumption
    end.
Qed.

Lemma asParsed_merge (l : list string) (acc : QCloudCosOperations) :
  asParsed acc = true ->
  asParsed (fold_left spread (map parseImageMogr2 l) acc) = true.
Proof.
  revert acc. induction l as [|s l IH]; intros acc H; [exact H|].
  cbn [map fold_left]. apply IH, asParsed_spread;
    [exact H | apply asParsed_parse].
Qed.

(** X11. In a result of [extract], the operations have the shape of
    what the parser returns (no [undefined] property, no [fit], no flag
    that is [false], no [NaN]), every pipeline segment is outside the
    dialect and holds no [|], and the options are empty. *)
Theorem extract_result_shape (url : UrlLike) (b : Extracted.t) :
  extract new_URL url = Ret (Some b) ->
  asParsed (Extracted.operations b) = true
  /\ Forall (fun seg => isForeign seg = true /\ noPipe seg = true)
            (Extracted.pipelineSegments b)
  /\ Extracted.options b = noOptions.
Proof.
  intros H. apply extract_inv in H as (u & q & _ & _ & _ & _ & ->).
  unfold extractedFrom.
  cbn [Extracted.operations Extracted.pipelineSegments Extracted.options].
  split; [now apply asParsed_merge|]. split; [|reflexivity].
  apply Forall_forall. intros seg Hin. apply filter_In in Hin as [Hin Hf].
  split; [exact Hf|].
  pose proof (split_free "|" q) as Hall.
  rewrite Forall_forall in Hall. now apply Hall.
Qed.

Lemma read_spread_own (k : key) (a b : QCloudCosOperations) :
  read k (spread a b) = if own k b then read k b else read k a.
Proof.
  destruct k; cbn [read own spread width height format quality thumbnailMode
                   autoOrient rotate flip iradius rradius rquality lquality
                   ignoreError];
    match goal with |- context [over _ ?s] => now destruct s end.
Qed.

(** X12. On a matching URL, [generate] replaces whatever query the URL
    had: its result is the origin and the path, then the serialization
    of the operations spread over the options and the pipeline segments,
    and is the same for every matching URL with that origin and path.
    A property that the operations hold, even with the value
    [undefined], hides the option of the same name; a property they do
    not hold takes the option. *)
Theorem generate_layers (url : UrlLike) (u : URL)
  (operations : QCloudCosOperations) (options : option QCloudCosOptions)
  (pipelineSegments : option (list string)) :
  asURL new_URL url = Some u ->
  isCosUrl new_URL (UObj u) = true ->
  let effective := spread (ofOptions options) operations in
  generate new_URL url operations options pipelineSegments
  = withQuery (origin u ++ pathname u) (buildImageMogr2 effective)
      (given pipelineSegments)
  /\ (forall k, read k effective
                = if own k operations then read k operations
                  else read k (ofOptions options))
  /\ (forall url' u',
        asURL new_URL url' = Some u' ->
        isCosUrl new_URL (UObj u') = true ->
        (origin u' ++ pathname u')%string = (origin u ++ pathname u)%string ->
        generate new_URL url' operations options pipelineSegments
        = generate new_URL url operations options pipelineSegments).
Proof.
  intros Eu Ec effective.
  split; [now apply generate_cos|].
  split; [intros k; apply read_spread_own|].
  intros url' u' Eu' Ec' Eb.
  rewrite (generate_cos new_URL url' u'), (generate_cos new_URL url u)
    by assumption.
  now rewrite Eb.
Qed.

(** X13. On a matching URL without a query [transform] is [generate]
    with the same operations and options; so here, unlike on a URL that
    has a query, an override that is present with the value [undefined]
    does clear the default beneath it. *)
Theorem transform_without_query (url : UrlLike) (u : URL)
  (V : QCloudCosOperations) (D : option QCloudCosOptions) :
  asURL new_URL url = Some u ->
  isCosUrl new_URL (UObj u) = true ->
  Str.isEmpty (Str.slice1 (search u)) = true ->
  let effective := spread (ofOptions D) V in
  transform new_URL url V D = Ret (generate new_URL url V D None)
  /\ transform new_URL url V D
     = Ret (withQuery (origin u ++ pathname u) (buildImageMogr2 effective) [])
  /\ forall k, own k V = true -> read k V = None -> read k effective = None.
Proof.
  intros Eu Ec Eq effective.
  assert (Hx : extract new_URL url = Ret None).
  { apply (extract_empty_query url u Eu).
    destruct (Str.slice1 (search u)); [reflexivity | discriminate]. }
  pose proof (transform_fresh new_URL url V D Hx) as Ht.
  split; [exact Ht|]. split.
  - rewrite Ht. f_equal. now apply generate_cos.
  - intros k Ho Hr. unfold effective. now rewrite read_spread_own, Ho.
Qed.

End ExtractFacts.

Lemma returns_without_percent_witness :
  noPercent (search Example.parsed) = true
  /\ (exists r, extract Sample.new_URL (UStr Example.processed) = Ret r)
  /\ (exists s, transform Sample.new_URL (UStr Example.processed)
                  noOperations None = Ret s).
Proof.
  assert (Hp : noPercent (search Example.parsed) = true)
    by (vm_compute; reflexivity).
  split; [exact Hp|].
  destruct (returns_without_percent Sample.new_URL (UStr Example.processed)
              Example.parsed noOperations None eq_refl Hp)
    as (H1 & H2 & _).
  split; assumption.
Defined.

Lemma extract_result_shape_witness :
  let b := extractedFrom Example.parsed Example.query in
  extract Sample.new_URL (UStr Example.processed) = Ret (Some b)
  /\ asParsed (Extracted.operations b) = true
  /\ Extracted.pipelineSegments b
     = ["watermark/2/text/AA"; "watermark/1/dx/5"]%string.
Proof.
  intros b.
  assert (Hex : extract Sample.new_URL (UStr Example.processed)
                = Ret (Some b)) by (vm_compute; reflexivity).
  destruct (extract_result_shape Sample.new_URL (UStr Example.processed) b Hex)
    as (Hs & _ & _).
  split; [exact Hex|]. split; [exact Hs|]. vm_compute. reflexivity.
Defined.

Lemma generate_layers_witness :
  let V := set_format Undefined (Example.ops (Some 800%Z) None) in
  let D := Some Example.defaults in
  generate Sample.new_URL (UStr Example.processed) V D None
  = (Example.base ++ "?imageMogr2/thumbnail/800x/quality/80")%string
  /\ generate Sample.new_URL (UStr Example.base) V D None
     = generate Sample.new_URL (UStr Example.processed) V D None.
Proof.
  intros V D.
  destruct (generate_layers Sample.new_URL (UStr Example.processed)
              Example.parsed V D None eq_refl eq_refl)
    as (Hg & _ & Hq).
  split; [rewrite Hg; vm_compute; reflexivity|].
  apply (Hq (UStr Example.base) Example.parsedBase); vm_compute; reflexivity.
Defined.

Lemma transform_without_query_witness :
  let V := set_format Undefined (Example.ops (Some 800%Z) None) in
  let D := Some Example.defaults in
  transform Sample.new_URL (UStr Example.base) V D
  = Ret (Example.base ++ "?imageMogr2/thumbnail/800x/quality/80")%string
  /\ read Kformat (spread (ofOptions D) V) = None.
Proof.
  intros V D.
  destruct (transform_without_query Sample.new_URL (UStr Example.base)
              Example.parsedBase V D eq_refl eq_refl eq_refl)
    as (_ & Ht & Hu).
  split; [rewrite Ht; vm_compute; reflexivity|].
  apply Hu; reflexivity.
Defined.

(** ** No separator in what is built *)

Lemma digit_noPipe (c : ascii) :
  is_digit c = true -> negb (Ascii.eqb c "|") = true.
Proof.
  intros H. destruct (Ascii.eqb_spec c "|") as [->|]; [discriminate H|reflexivity].
Qed.

Lemma digits_noPipe (s : string) : Str.all is_digit s = true -> noPipe s = true.
Proof. apply all_impl. exact digit_noPipe. Qed.

Lemma ToString_noPipe (z : Z) : plain z -> noPipe (Num.ToString (Int z)) = true.
Proof.
  intros Hp. destruct (Z.ltb_spec z 0) as [Hneg|Hpos].
  - rewrite (ToString_neg z Hneg Hp).
    change (noPipe (Num.digits (Z.abs_N z)) = true).
    apply digits_noPipe, digits_all.
  - rewrite (ToString_nonneg z Hpos Hp). apply digits_noPipe, digits_all.
Qed.

Lemma noPipe_append (a b : string) :
  noPipe a = true -> noPipe b = true -> noPipe (a ++ b) = true.
Proof. intros Ha Hb. unfold noPipe in *. now rewrite all_append, Ha, Hb. Qed.

Lemma noPipe_join (parts : list string) :
  Forall (fun p => noPipe p = true) parts ->
  noPipe (Str.join "/" parts) = true.
Proof.
  unfold Str.join. induction 1 as [|p l Hp Hl IH]; [reflexivity|].
  destruct l as [|q l]; [exact Hp|].
  cbn [String.concat]. apply noPipe_append; [exact Hp|].
  apply noPipe_append; [reflexivity | exact IH].
Qed.

Lemma numeric_noPipe (name : string) (v : slot number) :
  noPipe name = true -> integerSlotb false v = true ->
  Forall (fun p => noPipe p = true) (Push.numeric name v).
Proof.
  intros Hn Hv. apply integerSlotb_sound in Hv.
  unfold Push.numeric, integerSlot in *.
  destruct (defined v) as [[| |z|]|]; try contradiction; [|constructor].
  destruct Hv as [Hp _]. repeat constructor.
  apply noPipe_append; [exact Hn|].
  apply noPipe_append; [reflexivity | now apply ToString_noPipe].
Qed.

Lemma dimension_noPipe (v : slot number) :
  integerSlotb true v = true ->
  noPipe match defined v with
         | Some n => Num.ToString n
         | None => EmptyString
         end = true.
Proof.
  intros Hv. apply integerSlotb_sound in Hv.
  destruct (dimension_text v Hv) as [Hd _]. now apply digits_noPipe.
Qed.

Lemma buildParts_noPipe (o : QCloudCosOperations) :
  printable o = true -> pipeFree o = true ->
  Forall (fun p => noPipe p = true) (buildParts o).
Proof.
  unfold printable, pipeFree. intros H Hf.
  repeat (apply andb_true_iff in H as [H ?]).
  apply andb_true_iff in Hf as [Hf Hq].
  unfold buildParts. repeat (apply Forall_app; split);
    try (apply numeric_noPipe; [reflexivity | assumption]).
  - unfold Push.resize.
    destruct (isSome (defined (width o)) || isSome (defined (height o)));
      [|constructor].
    pose proof (dimension_noPipe (width o) H) as Hw.
    pose proof (dimension_noPipe (height o) ltac:(assumption)) as Hh.
    destruct (match defined (thumbnailMode o) with Some m => m | None => fit end);
      repeat constructor;
      repeat (apply noPipe_append; [try reflexivity; assumption|]);
      try reflexivity; assumption.
  - unfold Push.autoOrient.
    destruct (defined (autoOrient o)) as [[]|]; repeat constructor.
  - unfold Push.flip.
    destruct (defined (flip o)) as [[]|]; repeat constructor.
  - unfold Push.format. destruct (defined (format o)) as [f|]; [|constructor].
    destruct (Str.isEmpty f); repeat constructor.
    apply noPipe_append; [reflexivity | exact Hf].
  - unfold Push.quality.
    match goal with X : qualitySlotb _ = true |- _ => rename X into Hqs end.
    unfold qualitySlotb in Hqs.
    destruct (defined (quality o)) as [[[| |z|]|t]|]; try discriminate;
      repeat constructor.
    + apply noPipe_append; [reflexivity|].
      apply ToString_noPipe, plainb_plain, Hqs.
    + apply noPipe_append; [reflexivity | exact Hq].
  - unfold Push.ignoreError.
    destruct (defined (ignoreError o)) as [[]|]; repeat constructor.
Qed.

Lemma build_noPipe (o : QCloudCosOperations) :
  printable o = true -> pipeFree o = true ->
  noPipe (buildImageMogr2 o) = true.
Proof.
  intros H Hf. rewrite build_of_parts.
  pose proof (buildParts_noPipe o H Hf) as Hall.
  destruct (buildParts o) as [|p l]; [reflexivity|].
  apply noPipe_append; [reflexivity | now apply noPipe_join].
Qed.

Lemma build_isDialect (o : QCloudCosOperations) :
  Str.isEmpty (buildImageMogr2 o) = false ->
  isDialect (buildImageMogr2 o) = true.
Proof.
  rewrite build_of_parts. destruct (buildParts o); [discriminate|reflexivity].
Qed.

Lemma split_pipeFree (parts : list string) :
  parts <> [] ->
  Forall (fun p => noPipe p = true) parts ->
  Str.split "|" (Str.join "|" parts) = parts.
Proof.
  intros Hne Hall. rewrite (split_join "|") by assumption.
  clear Hne. induction Hall as [|p l Hp Hl IH]; [reflexivity|].
  cbn [flat_map]. rewrite (split_single "|" p Hp), IH. reflexivity.
Qed.

Lemma filter_all {A} (p : A -> bool) (l : list A) :
  Forall (fun x => p x = true) l -> filter p l = l.
Proof.
  induction 1 as [|x l Hx Hl IH]; [reflexivity|].
  cbn [filter]. now rewrite Hx, IH.
Qed.

Lemma filter_none {A} (p : A -> bool) (l : list A) :
  Forall (fun x => p x = false) l -> filter p l = [].
Proof.
  induction 1 as [|x l Hx Hl IH]; [reflexivity|].
  cbn [filter]. now rewrite Hx, IH.
Qed.

Lemma readsBack_inv (new_URL : string -> option URL)
  (written baseUrl query : string) :
  readsBack new_URL written baseUrl query = true ->
  exists u, new_URL written = Some u
            /\ isCosUrl new_URL (UObj u) = true
            /\ (origin u ++ pathname u)%string = baseUrl
            /\ Uri.decodeURIComponent (Str.slice1 (search u)) = Ret query.
Proof.
  unfold readsBack. destruct (new_URL written) as [u|]; [|discriminate].
  intros H. apply andb_true_iff in H as [H Hd].
  apply andb_true_iff in H as [Hc Hb]. apply String.eqb_eq in Hb.
  destruct (Uri.decodeURIComponent (Str.slice1 (search u))) as [q|] eqn:Ed;
    [|discriminate].
  apply String.eqb_eq in Hd. subst. exists u. auto.
Qed.

(** What [extract] finds in a query made of the serialization of [o] and
    of foreign segments. *)
Lemma extracted_written (u : URL) (o : QCloudCosOperations)
  (segments : list string) :
  printable o = true -> pipeFree o = true ->
  Forall (fun seg => isForeign seg = true /\ noPipe seg = true) segments ->
  dialectPart (buildImageMogr2 o) ++ segments <> [] ->
  extractedFrom u
    (Str.join "|" (dialectPart (buildImageMogr2 o) ++ segments))
  = Extracted.mk (origin u ++ pathname u)%string
      (definedOnly (emitted o)) noOptions segments.
Proof.
  intros Hp Hf Hs Hne.
  assert (Hfor : Forall (fun seg => isForeign seg = true) segments)
    by (eapply Forall_impl; [|exact Hs]; now intros ? []).
  assert (Hdia : Forall (fun seg => isDialect seg = false) segments).
  { eapply Forall_impl; [|exact Hfor]. unfold isForeign.
    intros seg H. now apply negb_true_iff. }
  assert (Hpipe : Forall (fun seg => noPipe seg = true) segments)
    by (eapply Forall_impl; [|exact Hs]; now intros ? []).
  assert (Hall : Forall (fun p => noPipe p = true)
                   (dialectPart (buildImageMogr2 o) ++ segments)).
  { apply Forall_app. split; [|exact Hpipe].
    unfold dialectPart.
    destruct (Str.isEmpty (buildImageMogr2 o)); repeat constructor.
    now apply build_noPipe. }
  unfold extractedFrom. rewrite (split_pipeFree _ Hne Hall).
  rewrite !filter_app, (filter_none _ segments Hdia),
    (filter_all _ segments Hfor), app_nil_r.
  unfold dialectPart.
  destruct (Str.isEmpty (buildImageMogr2 o)) eqn:Eb.
  - cbn. rewrite <- (parse_build_emitted o Hp).
    destruct (buildImageMogr2 o); [reflexivity | discriminate].
  - cbn [filter]. unfold isForeign. rewrite (build_isDialect o Eb).
    cbn [negb map fold_left app]. rewrite spread_noOperations.
    now rewrite (parse_build_emitted o Hp).
Qed.

Lemma join_nonempty (sep : string) (parts : list string) :
  Str.isEmpty (Str.join sep parts) = false -> parts <> [].
Proof. now destruct parts. Qed.

(** X14. [extract] reads back what [generate] writes.  On a matching
    URL, for operations and options whose values print as the parser
    reads them and hold no [|], and for pipeline segments outside the
    dialect without [|], when the URL constructor reads the result of
    [generate] as a matching URL of the same origin and path and
    [decodeURIComponent] gives back the query that was written:
    [generate] returns the base URL, followed by a [?] and the query when
    something is written, and [extract] on it returns the base URL, the
    operation set as the serializer saw it and the same pipeline
    segments, or null when the query written is empty. *)
Theorem extract_generate (new_URL : string -> option URL)
  (url : UrlLike) (u : URL) (operations : QCloudCosOperations)
  (options : option QCloudCosOptions) (segments : list string) :
  asURL new_URL url = Some u ->
  isCosUrl new_URL (UObj u) = true ->
  let effective := spread (ofOptions options) operations in
  let baseUrl := (origin u ++ pathname u)%string in
  let query :=
    Str.join "|" (dialectPart (buildImageMogr2 effective) ++ segments) in
  let written := generate new_URL url operations options (Some segments) in
  printable effective = true ->
  pipeFree effective = true ->
  Forall (fun seg => isForeign seg = true /\ noPipe seg = true) segments ->
  readsBack new_URL written baseUrl query = true ->
  written = withQuery baseUrl (buildImageMogr2 effective) segments
  /\ (Str.isEmpty query = false -> written = (baseUrl ++ "?" ++ query)%string)
  /\ extract new_URL (UStr written)
     = Ret (if Str.isEmpty query then None
            else Some (Extracted.mk baseUrl (definedOnly (emitted effective))
                         noOptions segments)).
Proof.
  intros Eu Ec effective baseUrl query written Hp Hf Hs Hrb.
  assert (Hw : written
               = withQuery baseUrl (buildImageMogr2 effective) segments).
  { unfold written. now rewrite (generate_cos new_URL url u) by assumption. }
  split; [exact Hw|]. split.
  - intros Hq. rewrite Hw. unfold withQuery.
    pose proof (join_nonempty _ _ Hq) as Hne. unfold query.
    destruct (dialectPart (buildImageMogr2 effective) ++ segments);
      [congruence | reflexivity].
  - apply readsBack_inv in Hrb as (u' & Eu' & Ec' & Eb' & Ed').
    destruct (Str.isEmpty query) eqn:Hq.
    + apply (extract_empty_query new_URL (UStr written) u' Eu').
      destruct query; [exact Ed' | discriminate Hq].
    + rewrite (extract_run new_URL (UStr written) u' query Eu' Ec' Ed' Hq).
      unfold query.
      rewrite extracted_written
        by (assumption || exact (join_nonempty _ _ Hq)).
      now rewrite Eb'.
Qed.

Lemma extract_generate_witness :
  let D := Some Example.defaults in
  let segments := ["watermark/2/text/AA"]%string in
  let written :=
    generate Sample.new_URL (UStr Example.base) Trial.covering D
      (Some segments) in
  written
  = (Example.base ++ "?imageMogr2/crop/800x600/format/webp/quality/80|watermark/2/text/AA")%string
  /\ extract Sample.new_URL (UStr written)
     = Ret (Some (Extracted.mk Example.base
                    (set_quality (Value (QNumber (Int 80)))
                       (set_format (Value "webp") Trial.covering))
                    noOptions segments))
  /\ extract Sample.new_URL
       (UStr (generate Sample.new_URL (UStr Example.processed) noOperations
                None (Some [])))
     = Ret None.
Proof.
  intros D segments written.
  assert (Hs : Forall (fun seg => isForeign seg = true /\ noPipe seg = true)
                 segments) by (repeat constructor).
  destruct (extract_generate Sample.new_URL (UStr Example.base)
              Example.parsedBase Trial.covering D segments
              eq_refl eq_refl eq_refl eq_refl Hs eq_refl)
    as (_ & Hw & Hx).
  split; [exact (Hw eq_refl)|]. split; [exact Hx|].
  destruct (extract_generate Sample.new_URL (UStr Example.processed)
              Example.parsed noOperations None []
              eq_refl eq_refl eq_refl eq_refl (Forall_nil _) eq_refl)
    as (_ & _ & Hnone).
  exact Hnone.
Defined.

(** ** The revision without pipeline segments *)

Section Revisions.

Variable new_URL : string -> option URL.

Lemma earlier_generate_eq (src : UrlLike) (operations : QCloudCosOperations)
  (pipelineSegments : option (list string)) :
  given pipelineSegments = [] ->
  Earlier.generate new_URL src operations
  = generate new_URL src operations None pipelineSegments.
Proof.
  intros Hg. unfold Earlier.generate, generate.
  destruct (asURL new_URL src) as [u|]; [|reflexivity].
  destruct (isCosUrl new_URL (UObj u)); [|reflexivity].
  cbn [negb ofOptions]. rewrite spread_noOperations.
  destruct pipelineSegments as [[|s l]|]; try discriminate Hg;
    destruct (Str.isEmpty (buildImageMogr2 operations)); reflexivity.
Qed.

(** X16. Without options and without pipeline segments (left out, or an
    empty array) [generate] of the revision with pipeline segments returns
    what [generate] of the revision before it returns, on every input. *)
Theorem earlier_generate_agrees (src : UrlLike)
  (operations : QCloudCosOperations) :
  Earlier.generate new_URL src operations
  = generate new_URL src operations None None
  /\ Earlier.generate new_URL src operations
     = generate new_URL src operations None (Some []).
Proof. split; now apply earlier_generate_eq. Qed.

(** X17. On a matching URL whose decoded query is empty or is a single
    segment of the dialect, [transform] without options returns what
    [transform] of the revision before it returns. *)
Theorem transform_agrees_on_single_segment (url : UrlLike) (u : URL)
  (q : string) (V : QCloudCosOperations) :
  asURL new_URL url = Some u ->
  isCosUrl new_URL (UObj u) = true ->
  Uri.decodeURIComponent (Str.slice1 (search u)) = Ret q ->
  Str.isEmpty q = true \/ (isDialect q = true /\ noPipe q = true) ->
  transform new_URL url V None = Earlier.transform new_URL url V.
Proof.
  intros Eu Ec Ed [Hq|[Hd Hp]].
  - destruct q; [|discriminate].
    rewrite (transform_fresh new_URL url V None
               (extract_empty_query new_URL url u Eu Ed)).
    unfold Earlier.transform, Earlier.extract. rewrite Eu, Ec, Ed.
    cbn. f_equal. symmetry. now apply earlier_generate_eq.
  - assert (Hne : Str.isEmpty q = false)
      by (destruct q; [discriminate Hd | reflexivity]).
    rewrite (transform_run new_URL url _ V None
               (extract_run new_URL url u q Eu Ec Ed Hne)).
    unfold Earlier.transform, Earlier.extract. rewrite Eu, Ec, Ed.
    cbn [negb bind]. unfold isDialect in Hd. rewrite Hd. cbn [negb bind].
    unfold extractedFrom.
    cbn [Extracted.src Extracted.operations Extracted.pipelineSegments
         Earlier.src Earlier.operations].
    rewrite (split_single "|" q Hp). cbn [filter]. unfold isForeign, isDialect.
    rewrite Hd. cbn [negb map fold_left].
    unfold mergedOperations. cbn [ofOptions].
    rewrite !spread_noOperations.
    f_equal. symmetry. now apply earlier_generate_eq.
Qed.

(** X18. In the revision without pipeline segments, [transform] on a
    matching URL keeps of the query the operations of its first segment
    only, and only when the decoded query starts with the keyword.  It
    then returns [generate] of the base URL and of these operations
    merged with the overrides: the base URL with their serialization as
    its only segment when the base URL is accepted again as a matching
    URL, every later segment being dropped, and the base URL alone when
    it is not.  A query that starts otherwise is dropped as a whole, the
    overrides alone being written. *)
Theorem earlier_transform_keeps_first_segment (url : UrlLike) (u : URL)
  (q : string) (V : QCloudCosOperations) :
  asURL new_URL url = Some u ->
  isCosUrl new_URL (UObj u) = true ->
  Uri.decodeURIComponent (Str.slice1 (search u)) = Ret q ->
  let baseUrl := (origin u ++ pathname u)%string in
  let merged :=
    applyDefined (parseImageMogr2 (hd EmptyString (Str.split "|" q))) V in
  (isDialect q = false ->
     Earlier.transform new_URL url V
     = Ret (withQuery baseUrl (buildImageMogr2 V) []))
  /\ (isDialect q = true ->
        Earlier.transform new_URL url V
        = Ret (Earlier.generate new_URL (UStr baseUrl) merged)
        /\ (forall u',
              new_URL baseUrl = Some u' ->
              isCosUrl new_URL (UObj u') = true ->
              Earlier.transform new_URL url V
              = Ret (withQuery (origin u' ++ pathname u')
                       (buildImageMogr2 merged) []))
        /\ (isCosUrl new_URL (UStr baseUrl) = false ->
              Earlier.transform new_URL url V = Ret baseUrl)).
Proof.
  intros Eu Ec Ed baseUrl merged.
  unfold Earlier.transform, Earlier.extract. rewrite Eu, Ec, Ed.
  cbn [negb bind]. unfold isDialect.
  destruct (Str.startsWith "imageMogr2" q) eqn:Hd; cbn [negb bind];
    (split; intros Hq; [try discriminate Hq|try discriminate Hq]).
  - cbn [Earlier.src Earlier.operations]. rewrite spread_noOperations.
    fold baseUrl.
    replace (match Str.split "|" q with s :: _ => s | [] => EmptyString end)
      with (hd EmptyString (Str.split "|" q))
      by (now destruct (Str.split "|" q)).
    fold merged. split; [reflexivity|]. split.
    + intros u' Eu' Ec'.
      now rewrite (earlier_generate_cos new_URL (UStr baseUrl) u').
    + intros Hn. now rewrite earlier_generate_not_cos.
  - f_equal. now apply earlier_generate_cos.
Qed.

End Revisions.

Lemma transform_agrees_on_single_segment_witness :
  transform Sample.new_URL (UStr Trial.single) Trial.covering None
  = Earlier.transform Sample.new_URL (UStr Trial.single) Trial.covering.
Proof.
  apply (transform_agrees_on_single_segment Sample.new_URL (UStr Trial.single)
           Trial.parsedSingle "imageMogr2/thumbnail/200x/format/png"
           Trial.covering eq_refl eq_refl eq_refl).
  right. split; reflexivity.
Defined.

Lemma earlier_transform_keeps_first_segment_witness :
  Earlier.transform Sample.new_URL (UStr Example.processed)
    (Example.ops None (Some "webp"))
  = Ret (Example.base ++ "?imageMogr2/thumbnail/200x/auto-orient/format/webp")%string
  /\ Earlier.transform Sample.new_URL (UObj Example.opaque)
       (Example.ops None (Some "webp"))
     = Ret "null/p.jpg"%string.
Proof.
  split.
  - destruct (earlier_transform_keeps_first_segment Sample.new_URL
                (UStr Example.processed) Example.parsed Example.query
                (Example.ops None (Some "webp")) eq_refl eq_refl eq_refl)
      as [_ Hd].
    destruct (Hd eq_refl) as (_ & Hw & _).
    rewrite (Hw Example.parsedBase eq_refl eq_refl).
    vm_compute. reflexivity.
  - destruct (earlier_transform_keeps_first_segment Sample.new_URL
                (UObj Example.opaque) Example.opaque
                "imageMogr2/format/jpg|watermark/1/dx/5"
                (Example.ops None (Some "webp")) eq_refl eq_refl eq_refl)
      as [_ Hd].
    destruct (Hd eq_refl) as (_ & _ & Hn).
    exact (Hn eq_refl).
Defined.

(** ** Transforming twice *)

(** ** Writing the merged set and merging again *)









(** ** When the merged set gives no token *)







Lemma foreign_segments (q : string) :
  Forall (fun seg => isForeign seg = true /\ noPipe seg = true)
         (filter isForeign (Str.split "|" q)).
Proof.
  apply Forall_forall. intros seg Hin. apply filter_In in Hin as [Hin Hf].
  split; [exact Hf|].
  pose proof (split_free "|" q) as Hall.
  rewrite Forall_forall in Hall. now apply Hall.
Qed.




(** ** The first revision *)

Lemma stripPrefix_prefixed (x : string) :
  Parse.stripPrefix ("imageMogr2/" ++ x) = x.
Proof.
  unfold Parse.stripPrefix.
  change (Str.startsWith "imageMogr2" ("imageMogr2/" ++ x)) with true.
  cbv iota.
  change (String.length ("imageMogr2/" ++ x) - 10)%nat
    with (S (String.length x)).
  change (String.substring 10 (S (String.length x)) ("imageMogr2/" ++ x))
    with (String "/" (String.substring 0 (String.length x) x)).
  now rewrite substring_all.
Qed.

Lemma initial_parse_prefixed (x : string) :
  Initial.parseImageMogr2 ("imageMogr2/" ++ x)
  = Initial.scan (Str.split "/" x) false Initial.noOperations.
Proof.
  unfold Initial.parseImageMogr2. rewrite stripPrefix_prefixed.
  destruct x as [|c x]; reflexivity.
Qed.

(** X20. The parser of the first revision reads [rquality] as it reads
    [quality]: both set the property [quality]. *)
Theorem initial_rquality_is_quality (s : string) :
  Initial.parseImageMogr2 ("imageMogr2/rquality/" ++ s)
  = Initial.parseImageMogr2 ("imageMogr2/quality/" ++ s).
Proof.
  change ("imageMogr2/rquality/" ++ s)%string
    with ("imageMogr2/" ++ ("rquality" ++ "/" ++ s))%string.
  change ("imageMogr2/quality/" ++ s)%string
    with ("imageMogr2/" ++ ("quality" ++ "/" ++ s))%string.
  rewrite !initial_parse_prefixed, !split_cons by reflexivity.
  reflexivity.
Qed.

Lemma initial_scan_part (kw arg : string) (rest : list string)
  (acc : Initial.QCloudCosOperations) :
  noSlash kw = true -> noSlash arg = true ->
  Initial.scan (flat_map (Str.split "/") [(kw ++ "/" ++ arg)%string] ++ rest)
    false acc
  = Initial.scan (kw :: arg :: rest) false acc.
Proof.
  intros Hk Ha. cbn [flat_map]. now rewrite split_keyword, app_nil_r.
Qed.

Lemma initial_setDims_text (w h : slot number)
  (acc : Initial.QCloudCosOperations) :
  integerSlot true w -> integerSlot true h ->
  Initial.setDims (Initial.orEmpty w, Initial.orEmpty h) acc
  = Initial.set_height (keep (Initial.height acc) (defined h))
      (Initial.set_width (keep (Initial.width acc) (defined w)) acc).
Proof.
  intros Hw Hh.
  destruct (dimension_text _ Hw) as [_ Hwt].
  destruct (dimension_text _ Hh) as [_ Hht].
  cbv zeta in Hwt, Hht. fold (Initial.orEmpty w) in Hwt.
  fold (Initial.orEmpty h) in Hht. unfold Initial.setDims.
  destruct (Str.isEmpty (Initial.orEmpty w)).
  - rewrite Hwt. cbn [keep].
    destruct (Str.isEmpty (Initial.orEmpty h)).
    + rewrite Hht. cbn [keep]. now destruct acc.
    + destruct Hht as (n & -> & ->). now destruct acc.
  - destruct Hwt as (n & -> & ->). cbn [keep].
    destruct (Str.isEmpty (Initial.orEmpty h)).
    + rewrite Hht. cbn [keep]. now destruct acc.
    + destruct Hht as (m & -> & ->). reflexivity.
Qed.

Lemma initial_scan_resize (o acc : Initial.QCloudCosOperations)
  (rest : list string) :
  integerSlot true (Initial.width o) -> integerSlot true (Initial.height o) ->
  sizeCounts o = true ->
  Initial.scan
    (flat_map (Str.split "/")
       (if Initial.truthy (Initial.width o) || Initial.truthy (Initial.height o)
        then [("thumbnail/" ++ Initial.orEmpty (Initial.width o) ++ "x"
               ++ Initial.orEmpty (Initial.height o))%string]
        else []) ++ rest) false acc
  = Initial.scan rest false
      (Initial.set_height (keep (Initial.height acc) (defined (Initial.height o)))
         (Initial.set_width (keep (Initial.width acc) (defined (Initial.width o)))
            acc)).
Proof.
  intros Hw Hh Hc.
  destruct (dimension_text _ Hw) as [Hwd _].
  destruct (dimension_text _ Hh) as [Hhd _].
  cbv zeta in Hwd, Hhd. fold (Initial.orEmpty (Initial.width o)) in Hwd.
  fold (Initial.orEmpty (Initial.height o)) in Hhd.
  destruct (Initial.truthy (Initial.width o) || Initial.truthy (Initial.height o))
    eqn:Et.
  - change ("thumbnail/" ++ Initial.orEmpty (Initial.width o) ++ "x"
            ++ Initial.orEmpty (Initial.height o))%string
      with ("thumbnail" ++ "/" ++ (Initial.orEmpty (Initial.width o) ++ "x"
            ++ Initial.orEmpty (Initial.height o)))%string.
    rewrite initial_scan_part;
      [|reflexivity
       |apply noSlash_append; [now apply digits_are_noSlash|];
        apply noSlash_append; [reflexivity | now apply digits_are_noSlash]].
    cbn [Initial.scan hd_error]. unfold Initial.step. cbv zeta.
    cbn [String.eqb Ascii.eqb Bool.eqb isSome andb].
    pose proof (dims_digits (Initial.orEmpty (Initial.width o))
                  (Initial.orEmpty (Initial.height o)) EmptyString Hwd Hhd I)
      as Hd.
    rewrite append_empty_r in Hd. rewrite Hd.
    now rewrite initial_setDims_text.
  - unfold sizeCounts in Hc. rewrite <- orb_assoc, Et, orb_false_r in Hc.
    apply negb_true_iff, orb_false_iff in Hc as [H1 H2].
    destruct (defined (Initial.width o)); [discriminate|].
    destruct (defined (Initial.height o)); [discriminate|].
    cbn [flat_map app keep]. now destruct acc.
Qed.

Lemma initial_scan_format (o acc : Initial.QCloudCosOperations)
  (rest : list string) :
  formatSlot (Initial.format o) ->
  Initial.scan
    (flat_map (Str.split "/")
       match defined (Initial.format o) with
       | Some f => if Str.isEmpty f then [] else [("format/" ++ f)%string]
       | None => []
       end ++ rest) false acc
  = Initial.scan rest false
      (Initial.set_format
         (keep (Initial.format acc) (defined (Initial.format o))) acc).
Proof.
  unfold formatSlot. destruct (defined (Initial.format o)) as [f|].
  - intros [He Hs]. rewrite He.
    change ("format/" ++ f)%string with ("format" ++ "/" ++ f)%string.
    now rewrite initial_scan_part.
  - intros _. cbn [flat_map app keep]. now destruct acc.
Qed.

Lemma initial_scan_quality (o acc : Initial.QCloudCosOperations)
  (rest : list string) :
  integerSlot false (Initial.quality o) ->
  Initial.scan
    (flat_map (Str.split "/")
       match defined (Initial.quality o) with
       | Some n => [("quality/" ++ Num.ToString n)%string]
       | None => []
       end ++ rest) false acc
  = Initial.scan rest false
      (Initial.set_quality
         (keep (Initial.quality acc) (defined (Initial.quality o))) acc).
Proof.
  intros Hv. destruct (defined (Initial.quality o)) as [n|] eqn:E.
  - destruct (integer_text _ n Hv E) as (Hs & Hn & Hnan).
    change ("quality/" ++ Num.ToString n)%string
      with ("quality" ++ "/" ++ Num.ToString n)%string.
    rewrite initial_scan_part by auto.
    cbn [Initial.scan hd_error]. unfold Initial.step. cbv zeta.
    cbn [String.eqb Ascii.eqb Bool.eqb isSome andb orb].
    now rewrite Hn, Hnan.
  - cbn [flat_map app keep]. now destruct acc.
Qed.

(** X19. In the first revision, parsing what was built gives back the
    operation set, when width, height and quality are whole numbers that
    print as plain digits (width and height not negative and, when either
    is set, one of them not zero), the format is a single non-empty token
    and no property is [undefined]. *)
Theorem initial_round_trip (o : Initial.QCloudCosOperations) :
  initialRoundTrips o = true ->
  Initial.parseImageMogr2 (Initial.buildImageMogr2 o) = o.
Proof.
  unfold initialRoundTrips. intros H.
  repeat (apply andb_true_iff in H as [H ?]).
  assert (Hscan : Initial.scan (flat_map (Str.split "/") (Initial.buildParts o))
                    false Initial.noOperations = o).
  { unfold Initial.buildParts. rewrite !flat_map_app.
    rewrite initial_scan_resize
      by (assumption || now apply integerSlotb_sound).
    rewrite initial_scan_format.
    2:{ unfold formatSlot.
        match goal with X : formatSlotb _ = true |- _ =>
          unfold formatSlotb in X;
          destruct (defined (Initial.format o)); [|trivial];
          apply andb_true_iff in X as [X1 X2];
          split; [now apply negb_true_iff | assumption] end. }
    rewrite <- (app_nil_r (flat_map _ _)).
    rewrite initial_scan_quality by (now apply integerSlotb_sound).
    cbn [Initial.scan]. destruct o as [w h f q].
    cbn [Initial.width Initial.height Initial.format Initial.quality] in *.
    destruct w, h, f, q; try discriminate; reflexivity. }
  unfold Initial.buildImageMogr2.
  destruct (Initial.buildParts o) as [|p l] eqn:E.
  - exact Hscan.
  - cbn [List.length Nat.eqb]. rewrite initial_parse_prefixed.
    now rewrite (split_join "/") by discriminate.
Qed.

Lemma initial_round_trip_witness :
  initialRoundTrips Trial.first = true
  /\ Initial.buildImageMogr2 Trial.first
     = "imageMogr2/thumbnail/400x300/format/webp/quality/85"%string
  /\ Initial.parseImageMogr2 (Initial.buildImageMogr2 Trial.first)
     = Trial.first.
Proof.
  assert (H : initialRoundTrips Trial.first = true) by (vm_compute; reflexivity).
  split; [exact H|]. split; [vm_compute; reflexivity|].
  exact (initial_round_trip Trial.first H).
Defined.

Lemma truthy_defined (v : slot number) :
  Initial.truthy v = true -> isSome (defined v) = true.
Proof. unfold Initial.truthy. now destruct (defined v). Qed.

Lemma later_parts (o : Initial.QCloudCosOperations) :
  buildParts (later o)
  = (if isSome (defined (Initial.width o)) || isSome (defined (Initial.height o))
     then [("thumbnail/" ++ Initial.orEmpty (Initial.width o) ++ "x"
            ++ Initial.orEmpty (Initial.height o))%string]
     else [])
    ++ match defined (Initial.format o) with
       | Some f => if Str.isEmpty f then [] else [("format/" ++ f)%string]
       | None => []
       end
    ++ match defined (Initial.quality o) with
       | Some n => [("quality/" ++ Num.ToString n)%string]
       | None => []
       end.
Proof.
  destruct o as [w h f q]. unfold buildParts, later, Push.resize, Push.numeric,
    Push.autoOrient, Push.flip, Push.format, Push.quality, Push.ignoreError,
    Initial.orEmpty.
  cbn [width height format quality thumbnailMode autoOrient rotate flip
       iradius rradius rquality lquality ignoreError defined app
       Initial.width Initial.height Initial.format Initial.quality].
  f_equal. f_equal. now destruct q.
Qed.

(** X21. The serializer of the first revision and the later one write
    the same string for an operation set of the first revision exactly
    when its width and height, if any is set, are not all zero or [NaN]:
    the first revision tests them as conditions and then writes no resize
    token, the later one tests only that they are set. *)
Theorem initial_build_agrees (o : Initial.QCloudCosOperations) :
  Initial.buildImageMogr2 o = buildImageMogr2 (later o)
  <-> sizeCounts o = true.
Proof.
  unfold Initial.buildImageMogr2, buildImageMogr2.
  rewrite later_parts. unfold Initial.buildParts, sizeCounts.
  destruct (isSome (defined (Initial.width o))
            || isSome (defined (Initial.height o))) eqn:Es.
  - cbn [negb orb].
    destruct (Initial.truthy (Initial.width o)
              || Initial.truthy (Initial.height o)) eqn:Et.
    + split; reflexivity.
    + split; [|discriminate]. cbn [app].
      destruct (defined (Initial.format o)) as [f|];
        [destruct (Str.isEmpty f)|];
        destruct (defined (Initial.quality o));
        cbn; intros H; discriminate H.
  - cbn [negb orb]. split; [reflexivity|]. intros _.
    destruct (Initial.truthy (Initial.width o)) eqn:Ew.
    + apply truthy_defined in Ew. rewrite Ew in Es. discriminate.
    + destruct (Initial.truthy (Initial.height o)) eqn:Eh; [|reflexivity].
      apply truthy_defined in Eh. rewrite Eh, orb_true_r in Es. discriminate.
Qed.

Section InitialFacts.

Variable new_URL : string -> option URL.

(** X22. [stripProcessing] returns either the URL as it stands or its
    origin and path, and throws exactly when [decodeURIComponent] rejects
    the query.  On a matching URL it returns the [src] of what [extract]
    returns, or the URL as it stands when [extract] returns [null]. *)
Theorem stripProcessing_spec (u : URL) :
  (forall s, Initial.stripProcessing u = Ret s ->
             s = href u \/ s = (origin u ++ pathname u)%string)
  /\ (forall e, Initial.stripProcessing u = Throw e
                <-> Uri.decodeURIComponent (Str.slice1 (search u)) = Throw e)
  /\ (isCosUrl new_URL (UObj u) = true ->
      Initial.stripProcessing u
      = (r <- Initial.extract new_URL (UObj u) ;;
         Ret match r with
             | Some b => Initial.src b
             | None => href u
             end)).
Proof.
  unfold Initial.stripProcessing, Initial.extract. cbn [asURL].
  destruct (Uri.decodeURIComponent (Str.slice1 (search u))) as [q|e0];
    cbn [bind].
  - destruct (Str.startsWith "imageMogr2" q); cbn [negb];
      (split; [intros s H; injection H as <-; auto|]);
      (split; [intros e; split; discriminate|]);
      intros ->; reflexivity.
  - split; [discriminate|]. split; [tauto|]. intros ->. reflexivity.
Qed.

(** X23. In the first revision, when [extract] finds operations on the
    URL, [transform] hands [generate] the base URL and, for each of the
    four properties, the override when it is defined and what the URL had
    otherwise. *)
Theorem initial_transform_merges (url : UrlLike) (b : Initial.Extracted)
  (V : Initial.QCloudCosOperations) :
  Initial.extract new_URL url = Ret (Some b) ->
  let E := Initial.operations b in
  let merged := Initial.applyDefined E V in
  Initial.transform new_URL url V
  = Ret (Initial.generate new_URL (UStr (Initial.src b)) merged)
  /\ defined (Initial.width merged)
     = orElse (defined (Initial.width V)) (defined (Initial.width E))
  /\ defined (Initial.height merged)
     = orElse (defined (Initial.height V)) (defined (Initial.height E))
  /\ defined (Initial.format merged)
     = orElse (defined (Initial.format V)) (defined (Initial.format E))
  /\ defined (Initial.quality merged)
     = orElse (defined (Initial.quality V)) (defined (Initial.quality E)).
Proof.
  intros H E merged. unfold Initial.transform. rewrite H. cbn [bind].
  split; [reflexivity|]. repeat split; apply defined_assign.
Qed.

(** X24. In the first revision, for a URL that does not parse or whose
    host name does not match, [extract] returns [null] and [generate] and
    [transform] return the input as a string. *)
Theorem initial_pass_through (url : UrlLike)
  (operations : Initial.QCloudCosOperations) :
  isCosUrl new_URL url = false ->
  Initial.extract new_URL url = Ret None
  /\ Initial.generate new_URL url operations = toString url
  /\ Initial.transform new_URL url operations = Ret (toString url).
Proof.
  intros H.
  assert (Hx : Initial.extract new_URL url = Ret None).
  { unfold Initial.extract. destruct (asURL new_URL url) as [u|] eqn:Eu;
      [|reflexivity].
    now rewrite (isCosUrl_parsed new_URL url u Eu), H. }
  assert (Hg : Initial.generate new_URL url operations = toString url).
  { unfold Initial.generate. destruct (asURL new_URL url) as [u|] eqn:Eu;
      [|reflexivity].
    now rewrite (isCosUrl_parsed new_URL url u Eu), H. }
  repeat split; try assumption.
  unfold Initial.transform. rewrite Hx. cbn [bind]. now rewrite Hg.
Qed.

End InitialFacts.

Lemma stripProcessing_spec_witness :
  Initial.stripProcessing Trial.parsedSingle = Ret Example.base
  /\ Initial.stripProcessing
       (mkURL Example.other "https://example.com" "example.com" "/p.jpg" "?w=10")
     = Ret Example.other.
Proof.
  destruct (stripProcessing_spec Sample.new_URL Trial.parsedSingle)
    as (_ & _ & H).
  split; [rewrite (H eq_refl)|]; vm_compute; reflexivity.
Defined.

Lemma initial_transform_merges_witness :
  let V := Initial.mkOperations (Value (Int 800)) Absent Undefined Absent in
  Initial.transform Sample.new_URL (UStr Trial.single) V
  = Ret (Example.base ++ "?imageMogr2/thumbnail/800x/format/png")%string.
Proof.
  intros V.
  destruct (initial_transform_merges Sample.new_URL (UStr Trial.single)
              (Initial.mkExtracted Example.base
                 (Initial.mkOperations (Value (Int 200)) Absent (Value "png")
                    Absent)) V)
    as (Ht & _).
  - vm_compute. reflexivity.
  - rewrite Ht. vm_compute. reflexivity.
Defined.

Lemma initial_pass_through_witness :
  Initial.transform Sample.new_URL (UStr Example.other) Trial.first
  = Ret Example.other.
Proof.
  destruct (initial_pass_through Sample.new_URL (UStr Example.other)
              Trial.first eq_refl) as (_ & _ & Ht).
  exact Ht.
Defined.

(** ** Clearing a flag *)

(** ** The words of the flags among the tokens written *)

Lemma all_substring (p : ascii -> bool) (s : string) (n m : nat) :
  Str.all p s = true -> Str.all p (String.substring n m s) = true.
Proof.
  revert n m. induction s as [|c s IH]; intros n m H.
  - destruct n, m; reflexivity.
  - cbn [Str.all] in H. apply andb_true_iff in H as [Hc Hs].
    destruct n as [|n]; [destruct m as [|m]; [reflexivity|]|].
    + cbn [String.substring Str.all]. now rewrite Hc, IH.
    + cbn [String.substring]. now apply IH.
Qed.

Lemma all_zeros (p : ascii -> bool) (n : nat) :
  p "0"%char = true -> Str.all p (Num.zeros n) = true.
Proof. intros H. induction n as [|n IH]; cbn; [reflexivity|]. now rewrite H, IH. Qed.

Lemma all_stripZeros (p : ascii -> bool) (s : string) :
  Str.all p s = true -> Str.all p (Num.stripZeros s) = true.
Proof.
  induction s as [|c s IH]; cbn [Num.stripZeros Str.all]; [reflexivity|].
  intros H. apply andb_true_iff in H as [Hc Hs].
  destruct (Ascii.eqb c "0" && Str.isEmpty (Num.stripZeros s));
    [reflexivity|]. cbn [Str.all]. now rewrite Hc, IH.
Qed.

Lemma digit_numeral (c : ascii) : is_digit c = true -> numeral c = true.
Proof. intros H. unfold numeral. now rewrite H. Qed.

Lemma digits_numeral (n : N) : Str.all numeral (Num.digits n) = true.
Proof. apply (all_impl is_digit); [exact digit_numeral | apply digits_all]. Qed.

Lemma expForm_numeral (ds : string) (n : Z) :
  Str.all numeral ds = true -> Str.all numeral (Num.expForm ds n) = true.
Proof.
  intros H. unfold Num.expForm.
  destruct ds as [|d r]; [reflexivity|].
  cbn [Str.all] in H. apply andb_true_iff in H as [Hd Hr].
  assert (Hs : Str.all numeral
                 ("e" ++ (if (n - 1 <? 0)%Z then "-" else "+")
                  ++ Num.digits (Z.abs_N (n - 1))) = true).
  { rewrite !all_append, digits_numeral. now destruct (n - 1 <? 0)%Z. }
  destruct r as [|c r].
  - cbn [Str.all]. now rewrite Hd, Hs.
  - cbn [Str.all]. rewrite Hd.
    change (Str.all numeral ("." ++ String c r ++ "e"
              ++ (if (n - 1 <? 0)%Z then "-" else "+")
              ++ Num.digits (Z.abs_N (n - 1))) = true).
    rewrite all_append, all_append, Hr, Hs. reflexivity.
Qed.

Lemma intToString_numeral (n : N) : Str.all numeral (Num.intToString n) = true.
Proof.
  unfold Num.intToString.
  destruct (String.length (Num.digits n) <=? 21)%nat;
    [apply digits_numeral|].
  apply expForm_numeral, all_stripZeros, digits_numeral.
Qed.

Lemma fracToString_numeral (m : N) (k : positive) :
  Str.all numeral (Num.fracToString m k) = true.
Proof.
  unfold Num.fracToString.
  destruct (_ && _)%bool.
  - rewrite !all_append, !all_substring by apply digits_numeral. reflexivity.
  - destruct (_ && _)%bool.
    + rewrite !all_append, all_zeros, digits_numeral by reflexivity.
      reflexivity.
    + apply expForm_numeral, digits_numeral.
Qed.

(** A printed number is made of the characters of numerals. *)
Lemma ToString_numeral (n : number) : Str.all numeral (Num.ToString n) = true.
Proof.
  destruct n as [|[]|z|m k]; try reflexivity; cbn [Num.ToString];
    unfold Num.signed.
  - destruct (z <? 0)%Z; [rewrite all_append|]; now rewrite intToString_numeral.
  - destruct (m <? 0)%Z; [rewrite all_append|]; now rewrite fracToString_numeral.
Qed.

(** The pieces of a string are made of its characters. *)
Lemma split_all (p : ascii -> bool) (sep : ascii) (s : string) :
  Str.all p s = true ->
  forallb (fun t => Str.all p t) (Str.split sep s) = true.
Proof.
  induction s as [|c s IH]; [reflexivity|].
  cbn [Str.all Str.split]. intros H. apply andb_true_iff in H as [Hc Hs].
  specialize (IH Hs).
  destruct (Ascii.eqb c sep); [exact IH|].
  destruct (Str.split sep s) as [|hd tl]; cbn [forallb Str.all] in *.
  - now rewrite Hc.
  - now rewrite Hc.
Qed.

Lemma numeral_quiet (c : ascii) : numeral c = true -> quiet c = true.
Proof.
  destruct c as [[] [] [] [] [] [] [] []]; intros H;
    try discriminate H; reflexivity.
Qed.

Lemma wordFree_spec (f : flag) (s : string) :
  wordFree f s = true <-> ~ In (flagWord f) (Str.split "/" s).
Proof.
  unfold wordFree. rewrite negb_true_iff. split.
  - intros H Hin. apply not_true_iff_false in H. apply H.
    apply existsb_exists. exists (flagWord f). split; [exact Hin|].
    apply String.eqb_refl.
  - intros H. apply not_true_iff_false. intros He.
    apply existsb_exists in He as (t & Hin & Ht).
    apply String.eqb_eq in Ht. now subst t.
Qed.

(** A string without the letter [o] has no token that is a flag word. *)
Lemma quiet_wordFree (f : flag) (s : string) :
  Str.all quiet s = true -> wordFree f s = true.
Proof.
  intros H. apply wordFree_spec. intros Hin.
  pose proof (split_all quiet "/" s H) as Hall.
  rewrite forallb_forall in Hall. specialize (Hall _ Hin).
  destruct f; discriminate Hall.
Qed.

Lemma wordFree_app (f : flag) (a b : string) :
  wordFree f (a ++ String "/" b) = wordFree f a && wordFree f b.
Proof.
  unfold wordFree. rewrite split_app, existsb_app. apply negb_orb.
Qed.

Lemma wordFree_join (f : flag) (parts : list string) :
  parts <> [] ->
  wordFree f (Str.join "/" parts) = forallb (wordFree f) parts.
Proof.
  induction parts as [|p rest IH]; [congruence|]. intros _.
  destruct rest as [|q rest].
  - cbn [forallb]. rewrite andb_true_r. unfold Str.join. cbn [String.concat].
    reflexivity.
  - change (Str.join "/" (p :: q :: rest))
      with (p ++ String "/" (Str.join "/" (q :: rest)))%string.
    rewrite wordFree_app, IH by discriminate. reflexivity.
Qed.

Lemma ToString_wordFree (f : flag) (n : number) :
  wordFree f (Num.ToString n) = true.
Proof.
  apply quiet_wordFree, (all_impl numeral); [exact numeral_quiet|].
  apply ToString_numeral.
Qed.

Lemma numeric_wordFree (f : flag) (name : string) (v : slot number) :
  wordFree f name = true ->
  forallb (wordFree f) (Push.numeric name v) = true.
Proof.
  intros Hn. unfold Push.numeric. destruct (defined v) as [n|]; [|reflexivity].
  cbn [forallb]. rewrite andb_true_r.
  change (name ++ "/" ++ Num.ToString n)%string
    with (name ++ String "/" (Num.ToString n))%string.
  now rewrite wordFree_app, Hn, ToString_wordFree.
Qed.

Lemma printed_quiet (v : option number) :
  Str.all quiet
    match v with Some n => Num.ToString n | None => EmptyString end = true.
Proof.
  destruct v as [n|]; [|reflexivity].
  apply (all_impl numeral); [exact numeral_quiet | apply ToString_numeral].
Qed.

Lemma resize_wordFree (f : flag) (o : QCloudCosOperations) :
  forallb (wordFree f) (Push.resize o) = true.
Proof.
  unfold Push.resize.
  destruct (isSome (defined (width o)) || isSome (defined (height o)));
    [|reflexivity].
  pose proof (printed_quiet (defined (width o))) as Hw.
  pose proof (printed_quiet (defined (height o))) as Hh.
  destruct (match defined (thumbnailMode o) with Some m => m | None => fit end);
    cbn [forallb]; rewrite andb_true_r;
    match goal with
    | |- wordFree f (?kw ++ ?rest)%string = true =>
        let w := eval cbv in (String.substring 0 (String.length kw - 1) kw) in
        change (wordFree f (w ++ String "/" rest) = true)
    end;
    rewrite wordFree_app;
    (apply andb_true_iff; split; [now destruct f|]);
    apply quiet_wordFree;
    rewrite all_append, Hw; cbn [append Str.all];
    rewrite ?all_append, Hh; reflexivity.
Qed.

(** No part pushed for an operation set whose flag is not [true] and
    whose strings are free of the flag word has a token that is the
    word. *)
Lemma parts_wordFree (f : flag) (o : QCloudCosOperations) :
  defined (flagOf f o) <> Some true -> textsFree f o = true ->
  forallb (wordFree f) (buildParts o) = true.
Proof.
  intros Hf Ht. unfold textsFree in Ht.
  apply andb_true_iff in Ht as [Hfmt Hq].
  unfold buildParts. rewrite !forallb_app, resize_wordFree.
  rewrite !numeric_wordFree by (now destruct f).
  cbn [andb].
  assert (Ha : forallb (wordFree f) (Push.autoOrient o) = true).
  { unfold Push.autoOrient.
    destruct (defined (autoOrient o)) as [[]|] eqn:E; try reflexivity.
    destruct f; [now elim Hf | reflexivity]. }
  assert (Hfl : forallb (wordFree f) (Push.flip o) = true).
  { unfold Push.flip. destruct (defined (flip o)) as [[]|];
      destruct f; reflexivity. }
  assert (Hfo : forallb (wordFree f) (Push.format o) = true).
  { unfold Push.format. destruct (defined (format o)) as [s|]; [|reflexivity].
    destruct (Str.isEmpty s); [reflexivity|].
    cbn [forallb]. rewrite andb_true_r.
    change ("format/" ++ s)%string with ("format" ++ String "/" s)%string.
    rewrite wordFree_app, Hfmt. now destruct f. }
  assert (Hqu : forallb (wordFree f) (Push.quality o) = true).
  { unfold Push.quality. destruct (defined (quality o)) as [q|]; [|reflexivity].
    cbn [forallb]. rewrite andb_true_r.
    change ("quality/" ++ qualityText q)%string
      with ("quality" ++ String "/" (qualityText q))%string.
    rewrite wordFree_app.
    apply andb_true_iff. split; [now destruct f|].
    destruct q as [n|s]; [apply ToString_wordFree | exact Hq]. }
  assert (Hi : forallb (wordFree f) (Push.ignoreError o) = true).
  { unfold Push.ignoreError.
    destruct (defined (ignoreError o)) as [[]|] eqn:E; try reflexivity.
    destruct f; [reflexivity | now elim Hf]. }
  now rewrite Ha, Hfl, Hfo, Hqu, Hi.
Qed.

Lemma build_wordFree (f : flag) (o : QCloudCosOperations) :
  defined (flagOf f o) <> Some true -> textsFree f o = true ->
  wordFree f (buildImageMogr2 o) = true.
Proof.
  intros Hf Ht. rewrite build_of_parts.
  pose proof (parts_wordFree f o Hf Ht) as Hp.
  destruct (buildParts o) as [|p rest] eqn:E; [now destruct f|].
  change ("imageMogr2/" ++ Str.join "/" (p :: rest))%string
    with ("imageMogr2" ++ String "/" (Str.join "/" (p :: rest)))%string.
  rewrite wordFree_app, wordFree_join, Hp by discriminate. now destruct f.
Qed.

(** *** The parser sets a flag at its word only *)

Lemma flagOf_setDims (f : flag) (m : string * string) (o : QCloudCosOperations) :
  flagOf f (Parse.setDims m o) = flagOf f o.
Proof.
  destruct m as [w h]. unfold Parse.setDims.
  destruct (Str.isEmpty w), (Str.isEmpty h), f; reflexivity.
Qed.

Lemma flagOf_mode (f : flag) (m : slot QCloudCosThumbnailMode)
  (o : QCloudCosOperations) :
  flagOf f (set_thumbnailMode m o) = flagOf f o.
Proof. now destruct f. Qed.

Lemma step_keeps_flag (f : flag) (token : string) (next : option string)
  (o : QCloudCosOperations) :
  String.eqb token (flagWord f) = false ->
  flagOf f (fst (Parse.step token next o)) = flagOf f o.
Proof.
  intros Hw. unfold Parse.step.
  repeat match goal with
         | |- context [if ?c then _ else _] => destruct c eqn:?
         end;
    cbn [fst];
    unfold Parse.thumbnail, Parse.crop, Parse.numeric, Parse.flip,
      Parse.quality;
    repeat match goal with
           | |- context [Parse.dimsEnding ?m ?s] =>
               destruct (Parse.dimsEnding m s) as [?|]
           | |- context [Parse.dims ?s] =>
               destruct (Parse.dims s) as [[[? ?] ?]|]
           | |- context [if ?c then _ else _] => destruct c
           end;
    rewrite ?flagOf_mode, ?flagOf_setDims;
    destruct f; cbn [flagWord] in *; (reflexivity || congruence).
Qed.

Lemma scan_keeps_flag (f : flag) (parts : list string) (skip : bool)
  (o : QCloudCosOperations) :
  existsb (fun token => String.eqb token (flagWord f)) parts = false ->
  flagOf f (Parse.scan parts skip o) = flagOf f o.
Proof.
  revert skip o. induction parts as [|token rest IH]; intros skip o H;
    [reflexivity|].
  cbn [existsb] in H. apply orb_false_iff in H as [Ht Hr].
  cbn [Parse.scan]. destruct skip; [now apply IH|].
  pose proof (step_keeps_flag f token (hd_error rest) o Ht) as Hs.
  destruct (Parse.step token (hd_error rest) o) as [o' consumed].
  cbn [fst] in Hs. now rewrite IH.
Qed.

(** What is written for an operation set whose flag is not [true] and
    whose strings are free of the flag word has no token that is the
    word, and is parsed with the flag unset. *)
Lemma parse_build_flag (f : flag) (o : QCloudCosOperations) :
  defined (flagOf f o) <> Some true -> textsFree f o = true ->
  defined (flagOf f (parseImageMogr2 (buildImageMogr2 o))) = None.
Proof.
  intros Hf Ht. rewrite build_of_parts.
  pose proof (parts_wordFree f o Hf Ht) as Hp.
  destruct (buildParts o) as [|p rest] eqn:E; [now destruct f|].
  rewrite parse_prefixed, scan_keeps_flag; [now destruct f|].
  rewrite <- wordFree_join in Hp by discriminate.
  unfold wordFree in Hp. now apply negb_true_iff in Hp.
Qed.

(** The word of a flag that is [true] is among the tokens written. *)
Lemma word_in_build (f : flag) (o : QCloudCosOperations) :
  defined (flagOf f o) = Some true ->
  In (flagWord f) (Str.split "/" (buildImageMogr2 o)).
Proof.
  intros Hf. apply flag_token_in in Hf. rewrite build_of_parts.
  destruct (buildParts o) as [|p rest] eqn:E; [contradiction|].
  change ("imageMogr2/" ++ Str.join "/" (p :: rest))%string
    with ("imageMogr2" ++ String "/" (Str.join "/" (p :: rest)))%string.
  rewrite split_app, split_join by discriminate.
  apply in_or_app. right. apply in_flat_map.
  exists (flagToken f). split; [exact Hf|].
  destruct f; cbn; tauto.
Qed.

(** *** No separator of the pipeline in what is written *)

Lemma numeral_noPipe (c : ascii) :
  numeral c = true -> negb (Ascii.eqb c "|") = true.
Proof.
  destruct c as [[] [] [] [] [] [] [] []]; intros H;
    try discriminate H; reflexivity.
Qed.

Lemma printed_noPipe (n : number) : noPipe (Num.ToString n) = true.
Proof.
  apply (all_impl numeral); [exact numeral_noPipe | apply ToString_numeral].
Qed.

Lemma parts_pipeFree (o : QCloudCosOperations) :
  pipeFree o = true -> Forall (fun p => noPipe p = true) (buildParts o).
Proof.
  unfold pipeFree. intros Hf. apply andb_true_iff in Hf as [Hf Hq].
  assert (Hn : forall name v, noPipe name = true ->
                 Forall (fun p => noPipe p = true) (Push.numeric name v)).
  { intros name v Hname. unfold Push.numeric.
    destruct (defined v) as [n|]; repeat constructor.
    apply noPipe_append; [exact Hname|].
    apply noPipe_append; [reflexivity | apply printed_noPipe]. }
  assert (Hd : forall v : option number,
             noPipe match v with
                    | Some n => Num.ToString n
                    | None => EmptyString
                    end = true)
    by (intros [n|]; [apply printed_noPipe | reflexivity]).
  unfold buildParts. repeat (apply Forall_app; split);
    try (apply Hn; reflexivity).
  - unfold Push.resize.
    destruct (isSome (defined (width o)) || isSome (defined (height o)));
      [|constructor].
    destruct (match defined (thumbnailMode o) with Some m => m | None => fit end);
      repeat constructor;
      repeat (apply noPipe_append; [try reflexivity; apply Hd|]);
      try reflexivity; apply Hd.
  - unfold Push.autoOrient.
    destruct (defined (autoOrient o)) as [[]|]; repeat constructor.
  - unfold Push.flip.
    destruct (defined (flip o)) as [[]|]; repeat constructor.
  - unfold Push.format. destruct (defined (format o)) as [s|]; [|constructor].
    destruct (Str.isEmpty s); repeat constructor.
    apply noPipe_append; [reflexivity | exact Hf].
  - unfold Push.quality.
    destruct (defined (quality o)) as [[n|s]|]; repeat constructor.
    + apply noPipe_append; [reflexivity | apply printed_noPipe].
    + apply noPipe_append; [reflexivity | exact Hq].
  - unfold Push.ignoreError.
    destruct (defined (ignoreError o)) as [[]|]; repeat constructor.
Qed.

Lemma build_pipeFree (o : QCloudCosOperations) :
  pipeFree o = true -> noPipe (buildImageMogr2 o) = true.
Proof.
  intros Hf. rewrite build_of_parts.
  pose proof (parts_pipeFree o Hf) as Hall.
  destruct (buildParts o) as [|p l]; [reflexivity|].
  apply noPipe_append; [reflexivity | now apply noPipe_join].
Qed.

(** *** Reading the flag in the output *)

(** The flag in what [extract] reads in a query made of the
    serialization of [o] and of foreign segments. *)
Lemma extracted_flag (f : flag) (u : URL) (o : QCloudCosOperations)
  (segments : list string) :
  defined (flagOf f o) <> Some true ->
  textsFree f o = true -> pipeFree o = true ->
  Forall (fun seg => isForeign seg = true /\ noPipe seg = true) segments ->
  defined
    (flagOf f
       (Extracted.operations
          (extractedFrom u
             (Str.join "|" (dialectPart (buildImageMogr2 o) ++ segments)))))
  = None.
Proof.
  intros Hf Ht Hp Hs.
  assert (Hdia : Forall (fun seg => isDialect seg = false) segments).
  { eapply Forall_impl; [|exact Hs]. unfold isForeign.
    intros seg [H _]. now apply negb_true_iff. }
  assert (Hpipe : Forall (fun seg => noPipe seg = true) segments)
    by (eapply Forall_impl; [|exact Hs]; now intros ? []).
  unfold extractedFrom. cbn [Extracted.operations].
  destruct (dialectPart (buildImageMogr2 o) ++ segments) as [|x l] eqn:El.
  - now destruct f.
  - rewrite <- El. rewrite split_pipeFree.
    + rewrite filter_app, (filter_none _ segments Hdia), app_nil_r.
      unfold dialectPart.
      destruct (Str.isEmpty (buildImageMogr2 o)) eqn:Eb; [now destruct f|].
      cbn [filter]. rewrite (build_isDialect o Eb).
      cbn [map fold_left]. rewrite spread_noOperations.
      now apply parse_build_flag.
    + rewrite El. discriminate.
    + apply Forall_app. split; [|exact Hpipe]. unfold dialectPart.
      destruct (Str.isEmpty (buildImageMogr2 o)); repeat constructor.
      now apply build_pipeFree.
Qed.

Lemma reread_flag (new_URL : string -> option URL) (f : flag)
  (o : QCloudCosOperations) (segments : list string)
  (written baseUrl : string) :
  defined (flagOf f o) <> Some true ->
  textsFree f o = true -> pipeFree o = true ->
  Forall (fun seg => isForeign seg = true /\ noPipe seg = true) segments ->
  readsBack new_URL written baseUrl
    (Str.join "|" (dialectPart (buildImageMogr2 o) ++ segments)) = true ->
  exists r,
    extract new_URL (UStr written) = Ret r
    /\ flagIn f (option_map Extracted.operations r) = None.
Proof.
  intros Hf Ht Hp Hs Hr.
  apply readsBack_inv in Hr as (u & Hu & Hcos & _ & Hq).
  destruct (Str.isEmpty
              (Str.join "|" (dialectPart (buildImageMogr2 o) ++ segments)))
    eqn:Eq.
  - exists None. split; [|reflexivity].
    apply (extract_empty_query new_URL (UStr written) u); [exact Hu|].
    destruct (Str.join "|" (dialectPart (buildImageMogr2 o) ++ segments));
      [exact Hq | discriminate].
  - eexists. split.
    + apply (extract_run new_URL (UStr written) u); eassumption.
    + cbn [option_map flagIn]. now apply extracted_flag.
Qed.

Lemma earlier_reread_flag (new_URL : string -> option URL) (f : flag)
  (o : QCloudCosOperations) (written baseUrl : string) :
  defined (flagOf f o) <> Some true ->
  textsFree f o = true -> pipeFree o = true ->
  readsBack new_URL written baseUrl (buildImageMogr2 o) = true ->
  exists r,
    Earlier.extract new_URL (UStr written) = Ret r
    /\ flagIn f (option_map Earlier.operations r) = None.
Proof.
  intros Hf Ht Hp Hr.
  apply readsBack_inv in Hr as (u & Hu & Hcos & _ & Hq).
  unfold Earlier.extract. cbn [asURL]. rewrite Hu, Hcos, Hq.
  cbn [negb bind].
  destruct (Str.startsWith "imageMogr2" (buildImageMogr2 o));
    cbn [negb]; [|now exists None].
  eexists. split; [reflexivity|].
  cbn [option_map flagIn Earlier.operations].
  rewrite (split_single "|" _ (build_pipeFree o Hp)).
  now apply parse_build_flag.
Qed.

(** The foreign segments that [extract] returns hold no [|]. *)
Lemma extracted_segments (new_URL : string -> option URL) (url : UrlLike)
  (b : Extracted.t) :
  extract new_URL url = Ret (Some b) ->
  Forall (fun seg => isForeign seg = true /\ noPipe seg = true)
         (Extracted.pipelineSegments b).
Proof.
  intros H. apply extract_inv in H as (u & q & _ & _ & _ & _ & ->).
  apply foreign_segments.
Qed.

(** What an override of a flag that the base has at [true] does to what
    is written. *)
Lemma flag_written (f : flag) (existing V : QCloudCosOperations) :
  defined (flagOf f existing) = Some true ->
  let merged := applyDefined existing V in
  let written := buildImageMogr2 merged in
  (defined (flagOf f V) = Some false ->
     defined (flagOf f merged) = Some false
     /\ ~ In (flagToken f) (buildParts merged)
     /\ (textsFree f merged = true ->
           ~ In (flagWord f) (Str.split "/" written)
           /\ defined (flagOf f (parseImageMogr2 written)) = None))
  /\ (defined (flagOf f V) = None ->
        defined (flagOf f merged) = Some true
        /\ In (flagToken f) (buildParts merged)
        /\ In (flagWord f) (Str.split "/" written)).
Proof.
  intros HE merged written.
  destruct (flag_override f existing V HE) as [Hfalse Hkeep].
  fold merged in Hfalse, Hkeep. split; intros HV.
  - destruct (Hfalse HV) as [Hm Hn]. split; [exact Hm|]. split; [exact Hn|].
    intros Ht.
    assert (Hne : defined (flagOf f merged) <> Some true) by congruence.
    split; [apply wordFree_spec, build_wordFree | apply parse_build_flag];
      assumption.
  - destruct (Hkeep HV) as [Hm Hin]. split; [exact Hm|]. split; [exact Hin|].
    now apply word_in_build.
Qed.

(** [transform] when the base URL is not accepted again. *)
Lemma transform_src_refused (new_URL : string -> option URL) (url : UrlLike)
  (b : Extracted.t) (V : QCloudCosOperations) (D : option QCloudCosOptions) :
  extract new_URL url = Ret (Some b) ->
  isCosUrl new_URL (UStr (Extracted.src b)) = false ->
  transform new_URL url V D = Ret (Extracted.src b).
Proof.
  intros Hex Hn. rewrite (transform_run new_URL url b V D Hex).
  now rewrite generate_not_cos.
Qed.

Lemma earlier_transform_src_refused (new_URL : string -> option URL)
  (url : UrlLike) (b : Earlier.Extracted) (V : QCloudCosOperations) :
  Earlier.extract new_URL url = Ret (Some b) ->
  isCosUrl new_URL (UStr (Earlier.src b)) = false ->
  Earlier.transform new_URL url V = Ret (Earlier.src b).
Proof.
  intros Hex Hn. rewrite (earlier_transform_run new_URL url b V Hex).
  now rewrite earlier_generate_not_cos.
Qed.

(** C10, amended.  In [transform], on a URL that carries a flag
    ([autoOrient] or [ignoreError]) at [true], in [src/index.ts] and in
    the revision with defaults and pipeline segments.  The output is the
    base URL with the serialization of the merged set as its query
    (followed by the foreign segments in the revision that keeps them)
    when the base URL is accepted again as a matching URL, and the base
    URL alone when it is not.  An override that sets the flag to [false]
    wins over the URL, and no part pushed by the serializer is the flag
    token.  When moreover the format and a string quality of the merged
    set have no token that is the word of the flag, that word is not
    among the tokens of the segment written, and parsing the segment
    leaves the flag unset; when they also have no [|] and the output is
    read back by the URL constructor with its query as written, [extract]
    on the output returns without the flag.  An override that leaves the
    flag undefined keeps the flag, and its word is among the tokens
    written. *)
Theorem C10_false_clears_flag (new_URL : string -> option URL)
  (url : UrlLike) (V : QCloudCosOperations) (D : option QCloudCosOptions)
  (f : flag) :
  (forall b',
     Earlier.extract new_URL url = Ret (Some b') ->
     defined (flagOf f (Earlier.operations b')) = Some true ->
     let merged' :=
       applyDefined (spread noOperations (Earlier.operations b')) V in
     let written' := buildImageMogr2 merged' in
     (isCosUrl new_URL (UStr (Earlier.src b')) = false ->
        Earlier.transform new_URL url V = Ret (Earlier.src b'))
     /\ (forall u',
           new_URL (Earlier.src b') = Some u' ->
           isCosUrl new_URL (UObj u') = true ->
           let baseUrl := (origin u' ++ pathname u')%string in
           let output := withQuery baseUrl written' [] in
           Earlier.transform new_URL url V = Ret output
           /\ (defined (flagOf f V) = Some false ->
                 textsFree f merged' = true -> pipeFree merged' = true ->
                 readsBack new_URL output baseUrl written' = true ->
                 exists r,
                   Earlier.extract new_URL (UStr output) = Ret r
                   /\ flagIn f (option_map Earlier.operations r) = None))
     /\ (defined (flagOf f V) = Some false ->
           defined (flagOf f merged') = Some false
           /\ ~ In (flagToken f) (buildParts merged')
           /\ (textsFree f merged' = true ->
                 ~ In (flagWord f) (Str.split "/" written')
                 /\ defined (flagOf f (parseImageMogr2 written')) = None))
     /\ (defined (flagOf f V) = None ->
           defined (flagOf f merged') = Some true
           /\ In (flagToken f) (buildParts merged')
           /\ In (flagWord f) (Str.split "/" written')))
  /\ (forall b,
        extract new_URL url = Ret (Some b) ->
        defined (flagOf f (Extracted.operations b)) = Some true ->
        let merged := mergedOperations D (Extracted.operations b) V in
        let written := buildImageMogr2 merged in
        let segments := Extracted.pipelineSegments b in
        (isCosUrl new_URL (UStr (Extracted.src b)) = false ->
           transform new_URL url V D = Ret (Extracted.src b))
        /\ (forall u',
              new_URL (Extracted.src b) = Some u' ->
              isCosUrl new_URL (UObj u') = true ->
              let baseUrl := (origin u' ++ pathname u')%string in
              let output := withQuery baseUrl written segments in
              transform new_URL url V D = Ret output
              /\ (defined (flagOf f V) = Some false ->
                    textsFree f merged = true -> pipeFree merged = true ->
                    readsBack new_URL output baseUrl
                      (Str.join "|" (dialectPart written ++ segments)) = true ->
                    exists r,
                      extract new_URL (UStr output) = Ret r
                      /\ flagIn f (option_map Extracted.operations r) = None))
        /\ (defined (flagOf f V) = Some false ->
              defined (flagOf f merged) = Some false
              /\ ~ In (flagToken f) (buildParts merged)
              /\ (textsFree f merged = true ->
                    ~ In (flagWord f) (Str.split "/" written)
                    /\ defined (flagOf f (parseImageMogr2 written)) = None))
        /\ (defined (flagOf f V) = None ->
              defined (flagOf f merged) = Some true
              /\ In (flagToken f) (buildParts merged)
              /\ In (flagWord f) (Str.split "/" written))).
Proof.
  split.
  - intros b' Hex HE merged' written'.
    assert (HE' : defined (flagOf f (spread noOperations (Earlier.operations b')))
                  = Some true) by now apply flag_spread.
    destruct (flag_written f _ V HE') as [Hfalse Hkeep].
    split; [now apply earlier_transform_src_refused|].
    split; [|split; assumption].
    intros u' Hu' Hcos' baseUrl output. split.
    + rewrite (earlier_transform_run new_URL url b' V Hex).
      now rewrite (earlier_generate_cos new_URL (UStr (Earlier.src b')) u').
    + intros HV Ht Hp Hr. destruct (Hfalse HV) as (Hm & _).
      apply (earlier_reread_flag new_URL f merged' output baseUrl);
        try assumption.
      fold merged' in Hm. congruence.
  - intros b Hex HE merged written segments.
    assert (HE' : defined (flagOf f (spread (ofOptions D) (Extracted.operations b)))
                  = Some true) by now apply flag_spread.
    destruct (flag_written f _ V HE') as [Hfalse Hkeep].
    split; [now apply transform_src_refused|].
    split; [|split; assumption].
    intros u' Hu' Hcos' baseUrl output. split.
    + rewrite (transform_run new_URL url b V D Hex).
      rewrite (generate_cos new_URL (UStr (Extracted.src b)) u')
        by assumption.
      cbn [ofOptions given]. now rewrite spread_noOperations.
    + intros HV Ht Hp Hr. destruct (Hfalse HV) as (Hm & _).
      apply (reread_flag new_URL f merged segments output baseUrl);
        try assumption.
      * unfold merged, mergedOperations. congruence.
      * now apply (extracted_segments new_URL url).
Qed.

Lemma C10_false_clears_flag_witness :
  let url := UStr Example.processed in
  let V := set_autoOrient (Value false) noOperations in
  let output' := (Example.base ++ "?imageMogr2/thumbnail/200x")%string in
  let output :=
    (Example.base ++ "?imageMogr2/thumbnail/200x/format/jpg|watermark/2/text/AA|watermark/1/dx/5")%string in
  Earlier.transform Sample.new_URL url V = Ret output'
  /\ (exists r,
        Earlier.extract Sample.new_URL (UStr output') = Ret r
        /\ flagIn AutoOrient (option_map Earlier.operations r) = None)
  /\ transform Sample.new_URL url V None = Ret output
  /\ (exists r,
        extract Sample.new_URL (UStr output) = Ret r
        /\ flagIn AutoOrient (option_map Extracted.operations r) = None)
  /\ ~ In "auto-orient"%string
         (Str.split "/" "imageMogr2/thumbnail/200x/format/jpg")
  /\ Earlier.transform Sample.new_URL url noOperations
     = Ret (Example.base ++ "?imageMogr2/thumbnail/200x/auto-orient")%string.
Proof.
  intros url V output' output.
  pose (b' := Earlier.mkExtracted Example.base
                (parseImageMogr2 "imageMogr2/thumbnail/200x/auto-orient")).
  pose (b := extractedFrom Example.parsed Example.query).
  destruct (C10_false_clears_flag Sample.new_URL url V None AutoOrient)
    as [Hearlier Hlatest].
  destruct (Hearlier b') as (_ & Hout' & Hfalse' & _);
    [vm_compute; reflexivity | vm_compute; reflexivity |].
  destruct (Hout' Example.parsedBase) as [Ht' Hread'];
    [vm_compute; reflexivity | vm_compute; reflexivity |].
  destruct (Hlatest b) as (_ & Hout & Hfalse & _);
    [vm_compute; reflexivity | vm_compute; reflexivity |].
  destruct (Hout Example.parsedBase) as [Ht Hread];
    [vm_compute; reflexivity | vm_compute; reflexivity |].
  split; [exact Ht'|].
  split; [apply Hread'; vm_compute; reflexivity|].
  split; [exact Ht|].
  split; [apply Hread; vm_compute; reflexivity|].
  split.
  - destruct (Hfalse eq_refl) as (_ & _ & Hw).
    destruct (Hw eq_refl) as [Hn _]. exact Hn.
  - vm_compute. reflexivity.
Defined.

(** C10 as stated fails: the override sets [autoOrient] to [false] over a
    URL that has it, and its format holds a slash and then the word of the
    flag.  The merged flag is [false] and no flag token is pushed, yet the
    word stands among the tokens of the output, and the output is read
    back with the flag set. *)
Lemma C10_false_clears_flag_counterexample :
  let url := UStr Example.processed in
  let V := Example.slashed in
  let written := "imageMogr2/thumbnail/200x/format/webp/auto-orient"%string in
  let output' := (Example.base ++ "?" ++ written)%string in
  let output :=
    (output' ++ "|watermark/2/text/AA|watermark/1/dx/5")%string in
  defined (autoOrient V) = Some false
  /\ (exists b0,
        Earlier.extract Sample.new_URL url = Ret (Some b0)
        /\ defined (autoOrient (Earlier.operations b0)) = Some true
        /\ defined (autoOrient
                      (applyDefined
                         (spread noOperations (Earlier.operations b0)) V))
           = Some false)
  /\ Earlier.transform Sample.new_URL url V = Ret output'
  /\ transform Sample.new_URL url V None = Ret output
  /\ In "auto-orient"%string (Str.split "/" written)
  /\ defined (autoOrient (parseImageMogr2 written)) = Some true
  /\ (exists b',
        Earlier.extract Sample.new_URL (UStr output') = Ret (Some b')
        /\ defined (autoOrient (Earlier.operations b')) = Some true)
  /\ (exists b,
        extract Sample.new_URL (UStr output) = Ret (Some b)
        /\ defined (autoOrient (Extracted.operations b)) = Some true).
Proof.
  intros url V written output' output.
  split; [reflexivity|].
  split.
  { eexists. split; [vm_compute; reflexivity|].
    split; vm_compute; reflexivity. }
  split; [vm_compute; reflexivity|].
  split; [vm_compute; reflexivity|].
  split; [vm_compute; tauto|].
  split; [vm_compute; reflexivity|].
  split; eexists; (split; [vm_compute; reflexivity|]); vm_compute; reflexivity.
Qed.
